(** * CoreObject: the core-thread lifecycle protocol of CmCoreObject.cpp

    A shallow embedding of [BansheeEngine::CoreObject] (CmCoreObject.cpp):
    the flag word, the weak self reference [mThis], the deferred
    initialise and destroy commands and the blocking [synchronize].

    Method bodies are written as resumptions over atomic actions (one
    constructor per memory or synchronisation access), and run by a step
    function over an explicit world: the object heap, the control blocks
    of [std::shared_ptr], the command queue of the core thread and the
    single mutex and condition variable shared by all objects. *)

From Stdlib Require Import Floats.SpecFloat.
From Stdlib Require Import ZArith Lia Bool.
From Stdlib Require String.
From stdpp Require Import base option list gmap sets.

Local Open Scope Z_scope.
Set Warnings "-notation-for-abbreviation".

(** ** The flag word *)

(** The masks [CGO_*] are declared in CmCoreObject.h, which is not part
    of the translated sources; only their names occur in the .cpp file.
    They are taken as a parameter: four distinct bit positions. *)
Class FlagLayout := {
  bit_INITIALIZED : Z;
  bit_INIT_ON_CORE_THREAD : Z;
  bit_SCHEDULED_FOR_INIT : Z;
  bit_SCHEDULED_FOR_DELETE : Z;
  flag_bits_nonneg :
    Forall (fun b => 0 <= b)
      [bit_INITIALIZED; bit_INIT_ON_CORE_THREAD;
       bit_SCHEDULED_FOR_INIT; bit_SCHEDULED_FOR_DELETE];
  flag_bits_distinct :
    NoDup [bit_INITIALIZED; bit_INIT_ON_CORE_THREAD;
           bit_SCHEDULED_FOR_INIT; bit_SCHEDULED_FOR_DELETE]
}.

Definition flag_mask (b : Z) : Z := Z.shiftl 1 b.

(** [(mFlags & mask) != 0] *)
Definition hasFlag (f mask : Z) : bool := negb (Z.land f mask =? 0).

(** [mFlags = on ? mFlags | mask : mFlags & ~mask] *)
Definition setFlag (f mask : Z) (on : bool) : Z :=
  if on then Z.lor f mask else Z.land f (Z.lnot mask).

Section Flags.
Context `{FlagLayout}.

Definition CGO_INITIALIZED : Z := flag_mask bit_INITIALIZED.
Definition CGO_INIT_ON_CORE_THREAD : Z := flag_mask bit_INIT_ON_CORE_THREAD.
Definition CGO_SCHEDULED_FOR_INIT : Z := flag_mask bit_SCHEDULED_FOR_INIT.
Definition CGO_SCHEDULED_FOR_DELETE : Z := flag_mask bit_SCHEDULED_FOR_DELETE.

(** The four tests on a value of [mFlags]. *)
Definition fInitialized (f : Z) : bool := hasFlag f CGO_INITIALIZED.
Definition fInitOnCoreThread (f : Z) : bool := hasFlag f CGO_INIT_ON_CORE_THREAD.
Definition fScheduledForInit (f : Z) : bool := hasFlag f CGO_SCHEDULED_FOR_INIT.
Definition fScheduledForDelete (f : Z) : bool := hasFlag f CGO_SCHEDULED_FOR_DELETE.
End Flags.

(** The layout of the upstream header: 0x01, 0x02, 0x04, 0x08. *)
#[refine] Instance upstream_layout : FlagLayout := {|
  bit_INITIALIZED := 0;
  bit_INIT_ON_CORE_THREAD := 1;
  bit_SCHEDULED_FOR_INIT := 2;
  bit_SCHEDULED_FOR_DELETE := 3
|}.
Proof.
  - repeat constructor; lia.
  - apply (bool_decide_unpack _); vm_compute; exact I.
Defined.

(** ** Pointers, control blocks and objects *)

Notation ptr := positive (only parsing).          (* address of a CoreObject *)
Notation cbid := positive (only parsing).         (* a shared_ptr control block *)
Notation tid := nat (only parsing).               (* a thread *)
Notation shared_ptr := (option positive) (only parsing).  (* None is the empty shared_ptr *)
Notation weak_ptr := (option positive) (only parsing).    (* None is the empty weak_ptr *)

(** The deleter stored in a control block: the hook [_deleteDelayed]
    given by the factory, or plain [delete]. *)
Inductive deleter := DeleteDelayed | DefaultDelete.

Record ctrl := Ctrl {
  managed : ptr;      (* the raw pointer returned by get() *)
  strong : nat;       (* use_count() *)
  ctrl_deleter : deleter
}.

Record CoreObject := Obj {
  mFlags : Z;
  mInternalID : Z;
  mThis : weak_ptr
}.

(** ** Method bodies as resumptions *)

Inductive answer :=
| RUnit
| RBool (b : bool)
| RFlags (f : Z)
| RPtr (o : option ptr)
| RSp (p : shared_ptr)
| RId (n : Z).

Inductive action :=
| AReadFlags (o : ptr)                       (* read of o->mFlags *)
| ASetFlag (o : ptr) (mask : Z) (on : bool)  (* one of the set...() accessors *)
| AIsCoreThread            (* CM_THREAD_CURRENT_ID == getCoreThreadId() *)
| AWeakLock (o : ptr)                        (* o->mThis.lock() *)
| AWeakExpired (o : ptr)                     (* o->mThis.expired() *)
| AWeakAssign (o : ptr) (p : shared_ptr)     (* o->mThis = p *)
| ASpGet (p : shared_ptr)                    (* p.get() *)
| ASpCopy (p : shared_ptr)                   (* copy construction of p *)
| ASpRelease (p : shared_ptr)                (* destruction of one copy of p *)
| ASpAdopt (o : ptr) (d : deleter)           (* shared_ptr<CoreObject>(o, d) *)
| ANew                                       (* storage, members as in the init list *)
| AFree (o : ptr)                            (* storage given back *)
| ARegister (o : ptr)                        (* CoreObjectManager::registerObject *)
| AUnregister (o : ptr)                      (* CoreObjectManager::unregisterObject *)
| ASetId (o : ptr) (id : Z)                  (* o->mInternalID = id *)
| ALock                                      (* CM_LOCK_MUTEX(mCoreGpuObjectLoadedMutex) *)
| AUnlock                                    (* end of the lock's scope *)
| ANotifyAll                                 (* CM_THREAD_NOTIFY_ALL *)
| AWait                                      (* CM_THREAD_WAIT: unlock and park *)
| AWake.                                     (* CM_THREAD_WAIT: woken, lock again *)

Inductive code :=
| Ret
| Throw (msg : String.string)           (* CM_EXCEPT(InternalErrorException, msg) *)
| Fault                                  (* undefined behaviour: null or dangling access *)
| Act (a : action) (k : answer -> code)
| While (o : ptr) (test : Z -> bool) (body : code) (k : code)
                                         (* while (test(o->mFlags)) body; then k *)
| Enqueue (bound : shared_ptr) (call : code) (k : code).
                                         (* queueCommand(std::bind(..., bound, ...)) *)

(** [c1 >> c2]: statement sequencing; an exception or a fault in [c1]
    skips [c2]. *)
Fixpoint seq (c1 c2 : code) : code :=
  match c1 with
  | Ret => c2
  | Throw m => Throw m
  | Fault => Fault
  | Act a k => Act a (fun r => seq (k r) c2)
  | While o t b k => While o t b (seq k c2)
  | Enqueue p f k => Enqueue p f (seq k c2)
  end.

(** [unwind c cleanup]: [cleanup] is the destructor of an automatic
    object in scope in [c]; it runs when an exception leaves [c]. *)
Fixpoint unwind (c cleanup : code) : code :=
  match c with
  | Ret => Ret
  | Throw m => seq cleanup (Throw m)
  | Fault => Fault
  | Act a k => Act a (fun r => unwind (k r) cleanup)
  | While o t b k => While o t (unwind b cleanup) (unwind k cleanup)
  | Enqueue p f k => Enqueue p f (unwind k cleanup)
  end.

(** The scope of an automatic object: its destructor runs on both exits. *)
Definition scoped (c cleanup : code) : code := seq (unwind c cleanup) cleanup.

Declare Scope code_scope.
Delimit Scope code_scope with code.
Bind Scope code_scope with code.
Notation "c1 >> c2" := (seq c1 c2)
  (at level 100, right associativity) : code_scope.
Notation "'let*' x ':=' m 'in' k" := (m (fun x => k))
  (at level 10, x binder, m at level 100, k at level 200) : code_scope.
Local Open Scope code_scope.

(** Actions with their typed results. *)
Definition act_unit (a : action) : code := Act a (fun _ => Ret).
Definition act_bool (a : action) (k : bool -> code) : code :=
  Act a (fun r => match r with RBool b => k b | _ => Fault end).
Definition act_flags (a : action) (k : Z -> code) : code :=
  Act a (fun r => match r with RFlags f => k f | _ => Fault end).
Definition act_ptr (a : action) (k : option ptr -> code) : code :=
  Act a (fun r => match r with RPtr o => k o | _ => Fault end).
Definition act_sp (a : action) (k : shared_ptr -> code) : code :=
  Act a (fun r => match r with RSp p => k p | _ => Fault end).
Definition act_id (a : action) (k : Z -> code) : code :=
  Act a (fun r => match r with RId n => k n | _ => Fault end).

Definition isCoreThread := act_bool AIsCoreThread.
Definition weak_lock (o : ptr) := act_sp (AWeakLock o).
Definition weak_expired (o : ptr) := act_bool (AWeakExpired o).
Definition sp_get (p : shared_ptr) := act_ptr (ASpGet p).
Definition sp_copy (p : shared_ptr) := act_unit (ASpCopy p).
Definition sp_release (p : shared_ptr) := act_unit (ASpRelease p).
Definition sp_adopt (o : ptr) (d : deleter) := act_sp (ASpAdopt o d).
Definition lock_mutex := act_unit ALock.
Definition unlock_mutex := act_unit AUnlock.
Definition notify_all := act_unit ANotifyAll.
(** [CM_THREAD_WAIT(cond, mutex, lock)]: release the mutex and park, then
    take the mutex again once woken. *)
Definition wait_cond : code := Act AWait (fun _ => Act AWake (fun _ => Ret)).

(** [p->m(...)]: the call goes through [p.get()]; on an empty pointer it
    is a call on a null [this]. *)
Definition arrow (p : shared_ptr) (m : ptr -> code) : code :=
  let* raw := sp_get p in
  match raw with Some o => m o | None => Fault end.

(** [std::bind(&CoreObject::m, raw)] *)
Definition bind_member (m : ptr -> code) (raw : option ptr) : code :=
  match raw with Some o => m o | None => Fault end.

(** ** CmCoreObject.cpp *)

Module Msg.
Import String.
Local Open Scope string_scope.
Definition not_destroyed : string :=
  "Destructor called but object is not destroyed. This will result in nasty issues.".
Definition still_referenced : string :=
  "Shared pointer to this object still has active references but the object is being deleted? You shouldn't delete CoreGpuObjects manually.".
Definition already_destroyed : string :=
  "Trying to destroy an object that is already destroyed (or it never was initialized).".
Definition already_initialized : string :=
  "Trying to initialize an object that is already initialized.".
Definition deadlock : string :=
  "You cannot call this method on the core thread. It will cause a deadlock!".
Definition not_scheduled : string :=
  "Attempting to wait until initialization finishes but object is not scheduled to be initialized.".
Definition deleted_while_scheduled : string :=
  "Object scheduled to be initialized, yet it's being deleted. By design objects queued in the command queue should always have a reference count >= 1, therefore never be deleted while still in the queue.".
End Msg.

Section CoreObject.
Context `{FlagLayout}.

(** The macro [CM_DEBUG_MODE] of the build. *)
Variable CM_DEBUG_MODE : bool.

(** [#if CM_DEBUG_MODE ... #endif] *)
Definition debug_only (c : code) : code := if CM_DEBUG_MODE then c else Ret.

(** Modelled from the spec: the inline accessors are declared in
    CmCoreObject.h, which is not among the sources.  Section 3 keeps
    the core-thread flag and the lifecycle position in the object;
    each accessor is one read of [mFlags] tested against its bit, or
    one update of its bit, taken as a single access. *)
Definition isInitialized (this : ptr) (k : bool -> code) : code :=
  act_flags (AReadFlags this) (fun f => k (fInitialized f)).
(** Modelled from the spec: header accessor, the scheduled-for-init bit. *)
Definition isScheduledToBeInitialized (this : ptr) (k : bool -> code) : code :=
  act_flags (AReadFlags this) (fun f => k (fScheduledForInit f)).
(** Modelled from the spec: header accessor, the scheduled-for-delete bit. *)
Definition isScheduledToBeDeleted (this : ptr) (k : bool -> code) : code :=
  act_flags (AReadFlags this) (fun f => k (fScheduledForDelete f)).
(** Modelled from the spec: header accessor, the core-thread flag. *)
Definition requiresInitOnCoreThread (this : ptr) (k : bool -> code) : code :=
  act_flags (AReadFlags this) (fun f => k (fInitOnCoreThread f)).
(** Modelled from the spec: header accessor, sets or clears Initialized. *)
Definition setIsInitialized (this : ptr) (b : bool) : code :=
  act_unit (ASetFlag this CGO_INITIALIZED b).
(** Modelled from the spec: header accessor, sets or clears the
    scheduled-for-init bit. *)
Definition setScheduledToBeInitialized (this : ptr) (b : bool) : code :=
  act_unit (ASetFlag this CGO_SCHEDULED_FOR_INIT b).
(** Modelled from the spec: header accessor, sets or clears the
    scheduled-for-delete bit. *)
Definition setScheduledToBeDeleted (this : ptr) (b : bool) : code :=
  act_unit (ASetFlag this CGO_SCHEDULED_FOR_DELETE b).

(** [new CoreObject(initializeOnRenderThread)]: the storage comes with
    [mFlags(0), mInternalID(0)]; with a false argument the assignment
    to [mFlags] writes back the value it read. *)
Definition CoreObject_new (initializeOnRenderThread : bool)
    (k : ptr -> code) : code :=
  let* raw := act_ptr ANew in
  match raw with
  | None => Fault
  | Some this =>
      (let* id := act_id (ARegister this) in act_unit (ASetId this id)) >>
      (if initializeOnRenderThread
       then act_unit (ASetFlag this CGO_INIT_ON_CORE_THREAD true)
       else Ret) >>
      k this
  end.

(** [CoreObject::~CoreObject()] *)
Definition CoreObject_dtor (this : ptr) : code :=
  (let* init := isInitialized this in
   if init then Throw Msg.not_destroyed else Ret) >>
  debug_only
    (let* expired := weak_expired this in
     if negb expired then Throw Msg.still_referenced else Ret) >>
  act_unit (AUnregister this).

(** [delete obj]: the destructor, then the storage. *)
Definition delete_object (this : ptr) : code :=
  CoreObject_dtor this >> act_unit (AFree this).

(** [CoreObject::destroy_internal()] *)
Definition destroy_internal (this : ptr) : code :=
  debug_only
    (let* init := isInitialized this in
     if negb init then Throw Msg.already_destroyed else Ret) >>
  setIsInitialized this false.

(** [CoreObject::executeGpuCommand(obj, func)]: [objParam] is a copy
    of [obj] that lives until [func] has returned. *)
Definition executeGpuCommand (obj : shared_ptr) (func : code) : code :=
  sp_copy obj >> scoped func (sp_release obj).

(** [CoreObject::queueGpuCommand(obj, func)]: [std::bind] stores a copy
    of [obj] in the functor that is queued. *)
Definition queueGpuCommand (obj : shared_ptr) (func : code) : code :=
  sp_copy obj >> Enqueue obj (executeGpuCommand obj func) Ret.

(** [CoreObject::executeReturnGpuCommand(obj, func, op)]; the result
    sink [op] is left out. *)
Definition executeReturnGpuCommand (obj : shared_ptr) (func : code) : code :=
  sp_copy obj >> scoped func (sp_release obj).

(** [CoreObject::queueReturnGpuCommand(obj, func)]; the returned
    [AsyncOp] is left out. *)
Definition queueReturnGpuCommand (obj : shared_ptr) (func : code) : code :=
  sp_copy obj >> Enqueue obj (executeReturnGpuCommand obj func) Ret.

(** [CoreObject::queueDestroyGpuCommand(obj)] *)
Definition queueDestroyGpuCommand (obj : shared_ptr) : code :=
  let* raw := sp_get obj in
  let func := bind_member destroy_internal raw in
  sp_copy obj >> Enqueue obj (executeGpuCommand obj func) Ret.

(** [CoreObject::destroy()] *)
Definition destroy (this : ptr) : code :=
  let* req := requiresInitOnCoreThread this in
  if req then
    setScheduledToBeDeleted this true >>
    let* core := isCoreThread in
    if core then
      let* p := weak_lock this in
      scoped (arrow p destroy_internal) (sp_release p)
    else
      let* p := weak_lock this in
      scoped (queueDestroyGpuCommand p) (sp_release p)
  else
    destroy_internal this.

(** [CoreObject::initialize_internal()] *)
Definition initialize_internal (this : ptr) : code :=
  let* req := requiresInitOnCoreThread this in
  if req then
    (lock_mutex >> setIsInitialized this true >> unlock_mutex) >>
    setScheduledToBeInitialized this false >>
    notify_all
  else
    setIsInitialized this true.

(** [CoreObject::queueInitializeGpuCommand(obj)] *)
Definition queueInitializeGpuCommand (obj : shared_ptr) : code :=
  let* raw := sp_get obj in
  let func := bind_member initialize_internal raw in
  sp_copy obj >> Enqueue obj (executeGpuCommand obj func) Ret.

(** [CoreObject::initialize()] *)
Definition initialize (this : ptr) : code :=
  debug_only
    (let* init := isInitialized this in
     if init then Throw Msg.already_initialized
     else
       let* sched := isScheduledToBeInitialized this in
       if sched then Throw Msg.already_initialized else Ret) >>
  let* req := requiresInitOnCoreThread this in
  if req then
    setScheduledToBeInitialized this true >>
    let* core := isCoreThread in
    if core then
      let* p := weak_lock this in
      scoped (arrow p initialize_internal) (sp_release p)
    else
      let* p := weak_lock this in
      scoped (queueInitializeGpuCommand p) (sp_release p)
  else
    initialize_internal this.

(** The loop of [synchronize], entered with the mutex held; the lock
    object releases the mutex on both exits. *)
Definition synchronize_loop (this : ptr) : code :=
  scoped
    (While this (fun f => negb (fInitialized f))
       ((let* sched := isScheduledToBeInitialized this in
         if negb sched then Throw Msg.not_scheduled else Ret) >>
        wait_cond)
       Ret)
    unlock_mutex.

(** [CoreObject::synchronize()] *)
Definition synchronize (this : ptr) : code :=
  let* init := isInitialized this in
  if negb init then
    let* req := requiresInitOnCoreThread this in
    if req then
      debug_only
        (let* core := isCoreThread in
         if core then Throw Msg.deadlock else Ret) >>
      lock_mutex >>
      synchronize_loop this
    else
      Throw Msg.not_scheduled
  else Ret.

(** [CoreObject::_setThisPtr(ptrThis)] *)
Definition _setThisPtr (this : ptr) (ptrThis : shared_ptr) : code :=
  act_unit (AWeakAssign this ptrThis).

(** [assert(obj != nullptr)]: a failed [assert] ends the program,
    which is taken as [Fault]; with the macro [NDEBUG] of the build
    the [assert] expands to nothing. *)
Definition assert_not_null (NDEBUG : bool) (obj : option ptr) : code :=
  match obj with
  | Some _ => Ret
  | None => if NDEBUG then Ret else Fault
  end.

(** [CoreObject::_deleteDelayedInternal(obj)] *)
Definition _deleteDelayedInternal (NDEBUG : bool) (obj : option ptr) : code :=
  assert_not_null NDEBUG obj >>
  debug_only
    (match obj with
     | Some o =>
         let* sched := isScheduledToBeInitialized o in
         if sched then Throw Msg.deleted_while_scheduled else Ret
     | None => Fault                  (* obj->isScheduledToBeInitialized() *)
     end).

(** Modelled from the spec: the deleter installed by the factory (a
    template of CmCoreObject.h) is missing from the sources; only
    [_deleteDelayedInternal], its first statement, is there.  Section
    4.3: an object that is not initialized is freed immediately; an
    initialized one gets a new strong handle, bound as its self
    reference, which is handed to the destroy protocol, and the real
    deallocation happens when that handle goes out of scope.  The
    object handed to the hook is not null, so the [assert] of
    [_deleteDelayedInternal] passes in every build. *)
Definition _deleteDelayed (obj : ptr) : code :=
  _deleteDelayedInternal false (Some obj) >>
  let* init := isInitialized obj in
  if init then
    let* thisPtr := sp_adopt obj DefaultDelete in
    scoped (_setThisPtr obj thisPtr >> destroy obj) (sp_release thisPtr)
  else
    delete_object obj.

(** The deleter a control block runs when its count drops to zero. *)
Definition run_deleter (d : deleter) (obj : ptr) : code :=
  match d with
  | DeleteDelayed => _deleteDelayed obj
  | DefaultDelete => delete_object obj
  end.

(** Modelled from the spec: the factory that first wraps a new object
    in shared ownership (section 6, [bindSelfReference]) is missing
    from the sources. *)
Definition create (initializeOnRenderThread : bool)
    (k : shared_ptr -> code) : code :=
  CoreObject_new initializeOnRenderThread (fun this =>
    let* p := sp_adopt this DeleteDelayed in
    _setThisPtr this p >> k p).
End CoreObject.

(** ** The world and the step function *)

(** A queued functor: the handle [std::bind] stored in it, and its call. *)
Record command := Cmd { cmd_bound : shared_ptr; cmd_call : code }.

Record world := World {
  heap : gmap ptr CoreObject;        (* the live objects *)
  blocks : gmap cbid ctrl;           (* control blocks, dead ones kept at count 0 *)
  queue : list command;              (* the command queue of the core thread *)
  mutex : option tid;                (* owner of mCoreGpuObjectLoadedMutex *)
  waiters : gset tid;                (* parked on mCoreGpuObjectLoadedCondition *)
  broadcasts : nat;                  (* how often the condition was broadcast *)
  coreThreadId : tid;                (* CoreThread::instance().getCoreThreadId() *)
  registry : gmap Z ptr;             (* CoreObjectManager: id to object *)
  nextId : Z
}.

Definition set_heap (h : gmap ptr CoreObject) (w : world) : world :=
  World h (blocks w) (queue w) (mutex w) (waiters w) (broadcasts w)
        (coreThreadId w) (registry w) (nextId w).
Definition set_blocks (b : gmap cbid ctrl) (w : world) : world :=
  World (heap w) b (queue w) (mutex w) (waiters w) (broadcasts w)
        (coreThreadId w) (registry w) (nextId w).
Definition set_queue (q : list command) (w : world) : world :=
  World (heap w) (blocks w) q (mutex w) (waiters w) (broadcasts w)
        (coreThreadId w) (registry w) (nextId w).
Definition set_mutex (m : option tid) (w : world) : world :=
  World (heap w) (blocks w) (queue w) m (waiters w) (broadcasts w)
        (coreThreadId w) (registry w) (nextId w).
Definition set_waiters (s : gset tid) (w : world) : world :=
  World (heap w) (blocks w) (queue w) (mutex w) s (broadcasts w)
        (coreThreadId w) (registry w) (nextId w).
Definition set_broadcasts (n : nat) (w : world) : world :=
  World (heap w) (blocks w) (queue w) (mutex w) (waiters w) n
        (coreThreadId w) (registry w) (nextId w).
Definition set_registry (r : gmap Z ptr) (n : Z) (w : world) : world :=
  World (heap w) (blocks w) (queue w) (mutex w) (waiters w) (broadcasts w)
        (coreThreadId w) r n.

(** Modelled from the spec: CoreObjectManager, whose header is not among
    the sources.  Section 4.1: [register] assigns an identity and enters
    (id, object); [unregister] removes the entry; the table owns nothing. *)
Definition registerObject (o : ptr) (w : world) : Z * world :=
  (nextId w, set_registry (<[nextId w := o]> (registry w)) (nextId w + 1) w).

(** Modelled from the spec: CoreObjectManager, removal of the entry of an
    object at its destruction (section 4.1). *)
Definition unregisterObject (ob : CoreObject) (w : world) : world :=
  set_registry (delete (mInternalID ob) (registry w)) (nextId w) w.

Definition set_mFlags (f : Z) (ob : CoreObject) : CoreObject :=
  Obj f (mInternalID ob) (mThis ob).
Definition set_mInternalID (n : Z) (ob : CoreObject) : CoreObject :=
  Obj (mFlags ob) n (mThis ob).
Definition set_mThis (p : weak_ptr) (ob : CoreObject) : CoreObject :=
  Obj (mFlags ob) (mInternalID ob) p.
Definition set_strong (n : nat) (c : ctrl) : ctrl :=
  Ctrl (managed c) n (ctrl_deleter c).

(** A thread: the rest of its code, the shared_ptr copies it holds (its
    temporaries and locals) and the raw objects it alone may delete or
    wrap.  The last two are bookkeeping: a handle is destroyed only by
    the thread holding it, and storage is only given back, or adopted by
    a new control block, by the thread that created it or whose release
    dropped its count to zero. *)
Record thread := Thread {
  th_code : code;
  th_held : list cbid;
  th_owned : list ptr
}.

(** Removes one occurrence. *)
Fixpoint take_out (x : positive) (l : list positive) : option (list positive) :=
  match l with
  | [] => None
  | y :: l' =>
      if decide (x = y) then Some l'
      else match take_out x l' with
           | Some r => Some (y :: r)
           | None => None
           end
  end.

Fixpoint count_of (x : positive) (l : list positive) : nat :=
  match l with
  | [] => 0%nat
  | y :: l' => ((if decide (x = y) then 1 else 0) + count_of x l')%nat
  end.

Inductive effect :=
| Blocked                                   (* cannot proceed now *)
| Faulted                                   (* undefined behaviour *)
| Done (w : world) (held : list cbid) (owned : list ptr)
       (r : answer) (pre : code).           (* [pre] runs before the rest *)

Section Semantics.
Context `{FlagLayout}.
Variable CM_DEBUG_MODE : bool.

(** The atomic actions.  The handles follow [std::shared_ptr] and
    [std::weak_ptr]: a copy adds one to the count, the destruction of
    a copy takes one off and runs the deleter of the control block
    when it was the last; [lock] gives a copy while the count is
    positive and null otherwise.  The mutex and the condition variable
    are the two static members of the class, shared by all objects. *)
Definition do_action (t : tid) (w : world) (held : list cbid)
    (owned : list ptr) (a : action) : effect :=
  match a with
  | AReadFlags o =>
      match heap w !! o with
      | Some ob => Done w held owned (RFlags (mFlags ob)) Ret
      | None => Faulted
      end
  | ASetFlag o mask on =>
      match heap w !! o with
      | Some ob =>
          Done (set_heap (<[o := set_mFlags (setFlag (mFlags ob) mask on) ob]> (heap w)) w)
               held owned RUnit Ret
      | None => Faulted
      end
  | AIsCoreThread =>
      Done w held owned (RBool (bool_decide (t = coreThreadId w))) Ret
  | AWeakLock o =>
      match heap w !! o with
      | Some ob =>
          match mThis ob with
          | Some cb =>
              match blocks w !! cb with
              | Some c =>
                  match strong c with
                  | O => Done w held owned (RSp None) Ret
                  | S _ =>
                      Done (set_blocks (<[cb := set_strong (S (strong c)) c]> (blocks w)) w)
                           (cb :: held) owned (RSp (Some cb)) Ret
                  end
              | None => Done w held owned (RSp None) Ret
              end
          | None => Done w held owned (RSp None) Ret
          end
      | None => Faulted
      end
  | AWeakExpired o =>
      match heap w !! o with
      | Some ob =>
          match mThis ob with
          | Some cb =>
              match blocks w !! cb with
              | Some c => Done w held owned (RBool (bool_decide (strong c = O))) Ret
              | None => Done w held owned (RBool true) Ret
              end
          | None => Done w held owned (RBool true) Ret
          end
      | None => Faulted
      end
  | AWeakAssign o p =>
      match heap w !! o with
      | Some ob =>
          Done (set_heap (<[o := set_mThis p ob]> (heap w)) w) held owned RUnit Ret
      | None => Faulted
      end
  | ASpGet p =>
      match p with
      | None => Done w held owned (RPtr None) Ret
      | Some cb =>
          match blocks w !! cb with
          | Some c => Done w held owned (RPtr (Some (managed c))) Ret
          | None => Faulted
          end
      end
  | ASpCopy p =>
      match p with
      | None => Done w held owned RUnit Ret
      | Some cb =>
          match blocks w !! cb with
          | Some c =>
              if bool_decide (cb ∈ held) then
                Done (set_blocks (<[cb := set_strong (S (strong c)) c]> (blocks w)) w)
                     (cb :: held) owned RUnit Ret
              else Faulted
          | None => Faulted
          end
      end
  | ASpRelease p =>
      match p with
      | None => Done w held owned RUnit Ret
      | Some cb =>
          match blocks w !! cb, take_out cb held with
          | Some c, Some held' =>
              match strong c with
              | O => Faulted
              | S O =>
                  Done (set_blocks (<[cb := set_strong O c]> (blocks w)) w)
                       held' (managed c :: owned) RUnit
                       (run_deleter CM_DEBUG_MODE (ctrl_deleter c) (managed c))
              | S n =>
                  Done (set_blocks (<[cb := set_strong n c]> (blocks w)) w)
                       held' owned RUnit Ret
              end
          | _, _ => Faulted
          end
      end
  | ASpAdopt o d =>
      match take_out o owned with
      | Some owned' =>
          let cb := fresh (dom (blocks w)) in
          Done (set_blocks (<[cb := Ctrl o 1 d]> (blocks w)) w)
               (cb :: held) owned' (RSp (Some cb)) Ret
      | None => Faulted
      end
  | ANew =>
      let o := fresh (dom (heap w)) in
      Done (set_heap (<[o := Obj 0 0 None]> (heap w)) w)
           held (o :: owned) (RPtr (Some o)) Ret
  | AFree o =>
      match heap w !! o, take_out o owned with
      | Some _, Some owned' =>
          Done (set_heap (delete o (heap w)) w) held owned' RUnit Ret
      | _, _ => Faulted
      end
  | ARegister o =>
      Done (registerObject o w).2 held owned (RId (registerObject o w).1) Ret
  | AUnregister o =>
      match heap w !! o with
      | Some ob => Done (unregisterObject ob w) held owned RUnit Ret
      | None => Faulted
      end
  | ASetId o id =>
      match heap w !! o with
      | Some ob =>
          Done (set_heap (<[o := set_mInternalID id ob]> (heap w)) w)
               held owned RUnit Ret
      | None => Faulted
      end
  | ALock =>
      match mutex w with
      | None => Done (set_mutex (Some t) w) held owned RUnit Ret
      | Some _ => Blocked
      end
  | AUnlock =>
      if bool_decide (mutex w = Some t)
      then Done (set_mutex None w) held owned RUnit Ret
      else Faulted
  | ANotifyAll =>
      Done (set_broadcasts (S (broadcasts w)) (set_waiters ∅ w))
           held owned RUnit Ret
  | AWait =>
      if bool_decide (mutex w = Some t)
      then Done (set_waiters ({[t]} ∪ waiters w) (set_mutex None w))
                held owned RUnit Ret
      else Faulted
  | AWake =>
      if bool_decide (t ∈ waiters w) then Blocked
      else match mutex w with
           | None => Done (set_mutex (Some t) w) held owned RUnit Ret
           | Some _ => Blocked
           end
  end.

(** One atomic step of thread [t]; [None] when it is finished or
    cannot proceed. *)
Definition step (t : tid) (w : world) (th : thread) : option (world * thread) :=
  match th_code th with
  | Ret | Throw _ | Fault => None
  | Act a k =>
      match do_action t w (th_held th) (th_owned th) a with
      | Blocked => None
      | Faulted => Some (w, Thread Fault (th_held th) (th_owned th))
      | Done w' held' owned' r pre =>
          Some (w', Thread (seq pre (k r)) held' owned')
      end
  | While o test body k =>
      match heap w !! o with
      | Some ob =>
          Some (w, Thread (if test (mFlags ob)
                           then seq body (While o test body k) else k)
                          (th_held th) (th_owned th))
      | None => Some (w, Thread Fault (th_held th) (th_owned th))
      end
  | Enqueue p call k =>
      match p with
      | None =>
          Some (set_queue (queue w ++ [Cmd None call]) w,
                Thread k (th_held th) (th_owned th))
      | Some cb =>
          match take_out cb (th_held th) with
          | Some held' =>
              Some (set_queue (queue w ++ [Cmd p call]) w,
                    Thread k held' (th_owned th))
          | None => Some (w, Thread Fault (th_held th) (th_owned th))
          end
      end
  end.

Inductive result :=
| Returned (w : world) (th : thread)
| Threw (msg : String.string) (w : world) (th : thread)
| Crashed (w : world) (th : thread)
| BlockedAt (w : world) (th : thread)
| OutOfFuel.

(** Runs thread [t] alone until it ends or cannot proceed. *)
Fixpoint run (n : nat) (t : tid) (w : world) (th : thread) : result :=
  match th_code th with
  | Ret => Returned w th
  | Throw m => Threw m w th
  | Fault => Crashed w th
  | _ =>
      match n with
      | O => OutOfFuel
      | S n' =>
          match step t w th with
          | Some (w', th') => run n' t w' th'
          | None => BlockedAt w th
          end
      end
  end.

(** Modelled from the spec: the core thread (CmCoreThread.h is missing
    from the sources).  Section 4.2: one consumer takes the callables
    in submission order and runs one at a time; the functor, with the
    handle bound in it, is destroyed after its call has returned. *)
Definition run_command (c : command) : code :=
  cmd_call c >> sp_release (cmd_bound c).

Definition bound_handles (p : shared_ptr) : list cbid :=
  match p with Some cb => [cb] | None => [] end.

(** The threads, a thread being named by its position. *)
Record system := Sys { sys_world : world; sys_threads : list thread }.

(** Modelled from the spec: the scheduler and the consumer loop of the
    core thread (CmCoreThread.h is missing).  Section 4.2 and 5: any
    thread may take its next step; the core thread, when idle, takes
    the oldest functor of the queue, with the handle bound in it; a
    waiter may wake without a broadcast. *)

Inductive sys_step : system -> system -> Prop :=
| step_thread w ths t th w' th' :
    ths !! t = Some th ->
    step t w th = Some (w', th') ->
    sys_step (Sys w ths) (Sys w' (<[t := th']> ths))
| step_dequeue w ths th c q :
    ths !! coreThreadId w = Some th ->
    th_code th = Ret ->
    queue w = c :: q ->
    sys_step (Sys w ths)
      (Sys (set_queue q w)
           (<[coreThreadId w :=
                Thread (run_command c)
                       (bound_handles (cmd_bound c) ++ th_held th)
                       (th_owned th)]> ths))
| step_spurious w ths t :
    t ∈ waiters w ->
    sys_step (Sys w ths) (Sys (set_waiters (waiters w ∖ {[t]}) w) ths).

Definition reachable (s s' : system) : Prop := rtc sys_step s s'.
End Semantics.

Arguments take_out : simpl never.
Arguments count_of : simpl never.
Arguments setFlag : simpl never.
Arguments hasFlag : simpl never.
Arguments fInitialized : simpl never.
Arguments fInitOnCoreThread : simpl never.
Arguments fScheduledForInit : simpl never.
Arguments fScheduledForDelete : simpl never.

(** ** Notions used in the statements *)

(** The flag word of [o], if [o] is live. *)
Definition flags_of (w : world) (o : ptr) : option Z :=
  mFlags <$> heap w !! o.

(** The count of a control block, 0 when there is none. *)
Definition use_count (w : world) (cb : cbid) : nat :=
  match blocks w !! cb with Some c => strong c | None => O end.

(** [p.expired()]: the weak pointer is empty, or its control block has
    no strong owner left; then [p.lock()] is null. *)
Definition expired (w : world) (p : weak_ptr) : bool :=
  match p with
  | None => true
  | Some cb => bool_decide (use_count w cb = O)
  end.

(** In-place updates of one object and one control block. *)
Definition upd_flags (o : ptr) (g : Z -> Z) (w : world) : world :=
  match heap w !! o with
  | Some ob => set_heap (<[o := set_mFlags (g (mFlags ob)) ob]> (heap w)) w
  | None => w
  end.
Definition upd_count (cb : cbid) (g : nat -> nat) (w : world) : world :=
  match blocks w !! cb with
  | Some c => set_blocks (<[cb := set_strong (g (strong c)) c]> (blocks w)) w
  | None => w
  end.
Definition push_command (c : command) (w : world) : world :=
  set_queue (queue w ++ [c]) w.

(** The world after the last handle [cb] of [o] is gone and [o] has been
    deleted: the count is zero, the object unregistered and its storage
    given back. *)
Definition freed (o : ptr) (cb : cbid) (w : world) : world :=
  match heap w !! o, blocks w !! cb with
  | Some ob, Some c =>
      set_heap (delete o (heap w))
        (unregisterObject ob
           (set_blocks (<[cb := set_strong O c]> (blocks w)) w))
  | _, _ => w
  end.

Section Outcomes.
Context `{FlagLayout}.
Variable CM_DEBUG_MODE : bool.

(** The functors queued by [queueInitializeGpuCommand] and
    [queueDestroyGpuCommand] for a handle [p] with [p.get() = raw]. *)
Definition init_command (p : shared_ptr) (raw : option ptr) : command :=
  Cmd p (executeGpuCommand p (bind_member initialize_internal raw)).
Definition destroy_command (p : shared_ptr) (raw : option ptr) : command :=
  Cmd p (executeGpuCommand p (bind_member (destroy_internal CM_DEBUG_MODE) raw)).

(** What [initialize_internal] does to the flag word and to the
    condition variable of a resource that needs the core thread. *)
Definition initialized_on_core (o : ptr) (w : world) : world :=
  set_broadcasts (S (broadcasts w))
    (set_waiters ∅
       (upd_flags o
          (fun f => setFlag (setFlag f CGO_INITIALIZED true)
                            CGO_SCHEDULED_FOR_INIT false) w)).
End Outcomes.

Section Waiting.
Context `{FlagLayout}.

(** A thread parked in the wait of [synchronize]: once woken it takes
    the mutex again and is back at the head of the loop. *)
Definition synchronize_parked (this : ptr) : code :=
  Act AWake (fun _ => synchronize_loop this).
End Waiting.

Section Interleavings.
Context `{FlagLayout}.
Variable CM_DEBUG_MODE : bool.

(** [n] steps of thread [t]. *)
Fixpoint take_steps (n : nat) (t : tid) (w : world) (th : thread)
    : option (world * thread) :=
  match n with
  | O => Some (w, th)
  | S n' =>
      match step CM_DEBUG_MODE t w th with
      | Some (w', th') => take_steps n' t w' th'
      | None => None
      end
  end.

(** An execution of thread [t] between steps of the other threads,
    which change the world within [rely].  The trace has, for each
    step of [t], the world it was taken in and the world it left. *)
Inductive interleaving (t : tid) (rely : world -> world -> Prop)
  : world -> thread -> list (world * world) -> world -> thread -> Prop :=
| il_stop w th :
    interleaving t rely w th [] w th
| il_own w th w1 th1 tr w' th' :
    step CM_DEBUG_MODE t w th = Some (w1, th1) ->
    interleaving t rely w1 th1 tr w' th' ->
    interleaving t rely w th ((w, w1) :: tr) w' th'
| il_env w th w1 tr w' th' :
    rely w w1 ->
    interleaving t rely w1 th tr w' th' ->
    interleaving t rely w th tr w' th'.

(** No assumption on the other threads. *)
Definition any_change : world -> world -> Prop := fun _ _ => True.

(** [o] is seen Initialized in [w]. *)
Definition initialized_in (w : world) (o : ptr) : Prop :=
  fInitialized <$> flags_of w o = Some true.

(** [o] is seen Initialized or scheduled for initialisation in [w]. *)
Definition pending_or_initialized (w : world) (o : ptr) : Prop :=
  (fun f => fInitialized f || fScheduledForInit f) <$> flags_of w o = Some true.

(** [o], as long as it is live, has the core-thread flag. *)
Definition core_object (w : world) (o : ptr) : Prop :=
  forall f, flags_of w o = Some f -> fInitOnCoreThread f = true.

(** The other threads keep the identity of the core thread and the
    core-thread flag of [o], which is set at construction only. *)
Definition keeps_core_object (o : ptr) (w w' : world) : Prop :=
  coreThreadId w' = coreThreadId w /\ (core_object w o -> core_object w' o).

(** [o]'s flag word passes the test [seen] in [w]. *)
Definition observed (seen : Z -> bool) (w : world) (o : ptr) : Prop :=
  seen <$> flags_of w o = Some true.

(** Code that, until one of its reads of [o->mFlags] passes the test
    [seen], takes only actions in [quiet] and does not return, unless
    [may_return] is set. *)
Inductive guarded (quiet : action -> Prop) (seen : Z -> bool) (o : ptr)
  : bool -> code -> Prop :=
| gd_ret : guarded quiet seen o true Ret
| gd_throw b m : guarded quiet seen o b (Throw m)
| gd_fault b : guarded quiet seen o b Fault
| gd_act b a k :
    quiet a -> (forall r, guarded quiet seen o b (k r)) ->
    guarded quiet seen o b (Act a k)
| gd_read b k :
    (forall f, seen f = false -> guarded quiet seen o b (k (RFlags f))) ->
    guarded quiet seen o b (Act (AReadFlags o) k)
| gd_loop b test body k :
    (forall f, test f = false -> seen f = true) ->
    guarded quiet seen o true body ->
    guarded quiet seen o b (While o test body k)
| gd_while b o' test body k :
    guarded quiet seen o true body -> guarded quiet seen o b k ->
    guarded quiet seen o b (While o' test body k)
| gd_enqueue b p call k :
    guarded quiet seen o b k -> guarded quiet seen o b (Enqueue p call k).

Definition any_action : action -> Prop := fun _ => True.

(** Everything but the two halves of [CM_THREAD_WAIT]. *)
Definition no_wait (a : action) : Prop := a <> AWait /\ a <> AWake.

(** Code that can only return after a read of [o->mFlags] that shows
    the Initialized bit. *)
Definition awaits (o : ptr) : code -> Prop :=
  guarded any_action fInitialized o false.

(** Code that neither returns nor waits on the condition until a read
    of [o->mFlags] shows the Initialized or the scheduled bit. *)
Definition gives_up (o : ptr) : code -> Prop :=
  guarded no_wait (fun f => fInitialized f || fScheduledForInit f) o false.

(** The error of [synchronize] on a resource that is neither
    Initialized nor scheduled: in the debug build the test for the
    core thread comes first. *)
Definition unscheduled_error (debug on_core : bool) (f : Z) : String.string :=
  if fInitOnCoreThread f && debug && on_core
  then Msg.deadlock else Msg.not_scheduled.

(** A thread in the wait of the condition variable. *)
Definition parked (c : code) : Prop := exists k, c = Act AWake k.

(** The writes that cannot set an Initialized bit or touch the
    core-thread flag. *)
Definition harmless (a : action) : Prop :=
  match a with
  | ASetFlag _ mask on =>
      mask = CGO_SCHEDULED_FOR_INIT \/ mask = CGO_SCHEDULED_FOR_DELETE \/
      (mask = CGO_INITIALIZED /\ on = false)
  | ANew => False
  | _ => True
  end.

(** Code of a thread, on the core thread or not as [on_core] says,
    that makes no object Initialized, provided the reads of [o->mFlags]
    show the core-thread flag. *)
Inductive never_initializes (on_core : bool) (o : ptr) : code -> Prop :=
| ni_ret : never_initializes on_core o Ret
| ni_throw m : never_initializes on_core o (Throw m)
| ni_fault : never_initializes on_core o Fault
| ni_act a k :
    harmless a -> (forall r, never_initializes on_core o (k r)) ->
    never_initializes on_core o (Act a k)
| ni_core k :
    never_initializes on_core o (k (RBool on_core)) ->
    never_initializes on_core o (Act AIsCoreThread k)
| ni_read k :
    (forall f, fInitOnCoreThread f = true ->
               never_initializes on_core o (k (RFlags f))) ->
    never_initializes on_core o (Act (AReadFlags o) k)
| ni_while o' test body k :
    never_initializes on_core o body -> never_initializes on_core o k ->
    never_initializes on_core o (While o' test body k)
| ni_enqueue p call k :
    never_initializes on_core o k ->
    never_initializes on_core o (Enqueue p call k).
(** What a world passes on to its successor, object by object: the
    core-thread flag, and no new Initialized bit. *)
Definition passes_on (w w' : world) : Prop :=
  coreThreadId w' = coreThreadId w /\
  forall o f', flags_of w' o = Some f' ->
    exists f, flags_of w o = Some f /\
              fInitOnCoreThread f' = fInitOnCoreThread f /\
              (fInitialized f' = true -> fInitialized f = true).

(** The three lifecycle bits of [o]: Initialized, scheduled for
    initialisation, scheduled for deletion. *)
Definition stage (w : world) (o : ptr) : option (bool * bool * bool) :=
  (fun f => (fInitialized f, fScheduledForInit f, fScheduledForDelete f))
    <$> flags_of w o.

(** At most one of the three lifecycle bits is set. *)
Definition exclusive_stage (s : bool * bool * bool) : Prop :=
  (Nat.b2n s.1.1 + Nat.b2n s.1.2 + Nat.b2n s.2 <= 1)%nat.

(** Schedules, to replay an execution of the system. *)
Inductive event :=
| EvStep (t : tid) (n : nat)      (* [n] steps of thread [t] *)
| EvDequeue                       (* the core thread takes a command *)
| EvSpurious (t : tid).           (* [t] wakes without a broadcast *)

Definition sys_do (e : event) (s : system) : option system :=
  let w := sys_world s in
  match e with
  | EvStep t n =>
      th ← sys_threads s !! t;
      '(w', th') ← take_steps n t w th;
      Some (Sys w' (<[t := th']> (sys_threads s)))
  | EvDequeue =>
      th ← sys_threads s !! coreThreadId w;
      match th_code th, queue w with
      | Ret, c :: q =>
          Some (Sys (set_queue q w)
                    (<[coreThreadId w :=
                         Thread (run_command c)
                                (bound_handles (cmd_bound c) ++ th_held th)
                                (th_owned th)]> (sys_threads s)))
      | _, _ => None
      end
  | EvSpurious t =>
      if bool_decide (t ∈ waiters w)
      then Some (Sys (set_waiters (waiters w ∖ {[t]}) w) (sys_threads s))
      else None
  end.

Fixpoint sys_run (es : list event) (s : system) : option system :=
  match es with
  | [] => Some s
  | e :: es' => s' ← sys_do e s; sys_run es' s'
  end.
End Interleavings.

(** ** Ownership *)

(** Sum of a measure over the threads. *)
Fixpoint total (f : thread -> nat) (ths : list thread) : nat :=
  match ths with
  | [] => O
  | th :: r => (f th + total f r)%nat
  end.

Fixpoint queued_handles (cb : cbid) (q : list command) : nat :=
  match q with
  | [] => O
  | c :: r => (count_of cb (bound_handles (cmd_bound c)) + queued_handles cb r)%nat
  end.

(** The copies of the handle [cb] that exist: in the threads (locals and
    temporaries, the functor being run included) and in the queue. *)
Definition handles (w : world) (ths : list thread) (cb : cbid) : nat :=
  (total (fun th => count_of cb (th_held th)) ths + queued_handles cb (queue w))%nat.

(** The threads entitled to delete or wrap the raw object [o]. *)
Definition owners (ths : list thread) (o : ptr) : nat :=
  total (fun th => count_of o (th_owned th)) ths.

(** [cb] is a control block with a positive count that manages [o]. *)
Definition manages (w : world) (cb : cbid) (o : ptr) : Prop :=
  exists c, blocks w !! cb = Some c /\ managed c = o /\ (0 < strong c)%nat.

(** The state of shared ownership: every copy of a handle is counted; a
    raw object has at most one owner, and none while a control block
    with a positive count manages it, of which there is at most one;
    owned and managed objects are live. *)
Record consistent (w : world) (ths : list thread) : Prop := {
  counted : forall cb, (handles w ths cb <= use_count w cb)%nat;
  one_owner : forall o, (owners ths o <= 1)%nat;
  one_block : forall cb1 cb2 o, manages w cb1 o -> manages w cb2 o -> cb1 = cb2;
  owner_or_block : forall cb o, manages w cb o -> owners ths o = O;
  managed_live : forall cb o, manages w cb o -> is_Some (heap w !! o);
  owned_live : forall o, (0 < owners ths o)%nat -> is_Some (heap w !! o)
}.

(** What one step of a thread does to ownership. *)
Inductive owner_step (w : world) (held : list cbid) (owned : list ptr)
  : world -> list cbid -> list ptr -> Prop :=
| os_frame w' :
    blocks w' = blocks w -> queue w' = queue w ->
    (forall o, is_Some (heap w' !! o) <-> is_Some (heap w !! o)) ->
    owner_step w held owned w' held owned
| os_acquire cb c :
    blocks w !! cb = Some c -> (0 < strong c)%nat \/ cb ∈ held ->
    owner_step w held owned
      (set_blocks (<[cb := set_strong (S (strong c)) c]> (blocks w)) w)
      (cb :: held) owned
| os_release cb c n held' :
    blocks w !! cb = Some c -> strong c = S n -> take_out cb held = Some held' ->
    owner_step w held owned
      (set_blocks (<[cb := set_strong n c]> (blocks w)) w)
      held' (match n with O => managed c :: owned | S _ => owned end)
| os_adopt o d owned' :
    take_out o owned = Some owned' ->
    owner_step w held owned
      (set_blocks (<[fresh (dom (blocks w)) := Ctrl o 1 d]> (blocks w)) w)
      (fresh (dom (blocks w)) :: held) owned'
| os_new :
    owner_step w held owned
      (set_heap (<[fresh (dom (heap w)) := Obj 0 0 None]> (heap w)) w)
      held (fresh (dom (heap w)) :: owned)
| os_free o owned' :
    take_out o owned = Some owned' ->
    owner_step w held owned (set_heap (delete o (heap w)) w) held owned'
| os_enqueue p call held' :
    match p with
    | Some cb => take_out cb held = Some held'
    | None => held' = held
    end ->
    owner_step w held owned (set_queue (queue w ++ [Cmd p call]) w) held' owned.

(** ** Sample worlds

    One object at address 1, shared through control block 1 with the
    deleter of the factory and bound as its own self reference; thread 0
    is the core thread, thread 1 a caller.  With [upstream_layout] the
    flag word 1 is Initialized, 2 the core-thread flag, 4 scheduled for
    initialisation and 8 scheduled for deletion. *)
Definition sample_object (f : Z) : CoreObject := Obj f 0 (Some 1%positive).

Definition sample_world (f : Z) : world :=
  World {[1%positive := sample_object f]}
        {[1%positive := Ctrl 1 1 DeleteDelayed]}
        [] None ∅ 0 0%nat ∅ 1.

(** Nothing allocated yet. *)
Definition empty_world : world := World ∅ ∅ [] None ∅ 0 0%nat ∅ 0.

(** A caller that creates a resource, initialises it, waits for it and
    destroys it, next to the idle core thread. *)
Definition lifecycle_client : code :=
  create true (fun p =>
    seq (arrow p (initialize true))
      (seq (arrow p (synchronize true)) (arrow p (destroy true)))).

Definition lifecycle_system : system :=
  Sys empty_world [Thread Ret [] []; Thread lifecycle_client [] []].

(** The caller up to the end of [initialize], the core thread through
    the queued initialisation, then the caller through [synchronize] and
    [destroy]. *)
Definition lifecycle_schedule : list event :=
  [EvStep 1 17; EvDequeue; EvStep 0 9; EvStep 1 11].

(** A raw object that is initialised and deleted by hand. *)
Definition raw_client : code :=
  CoreObject_new true (fun this =>
    seq (initialize true this) (delete_object true this)).

(** The system after a schedule has been replayed (the start, if the
    schedule cannot be followed). *)
Definition replay (es : list event) (s : system) : system :=
  default s (sys_run true es s).

(** A caller that creates a resource, initialises it and destroys it at
    once, and a second thread waiting for the resource (at address 1)
    in [synchronize]. *)
Definition hasty_client : code :=
  create true (fun p => seq (arrow p (initialize true)) (arrow p (destroy true))).

Definition waiter_system : system :=
  Sys empty_world
      [Thread Ret [] []; Thread hasty_client [] [];
       Thread (synchronize true 1) [] []].

(** The caller through [initialize]; the waiter until it is parked; the
    core thread through the queued initialisation; the caller through
    [destroy]; the core thread through the queued destruction; then the
    waiter, woken by the broadcast, to its end. *)
Definition waiter_schedule : list event :=
  [EvStep 1 17; EvStep 2 7; EvDequeue; EvStep 0 9; EvStep 1 9;
   EvDequeue; EvStep 0 5; EvStep 2 4].

(** ** The constructor, as one transition *)

Section Construction.
Context `{FlagLayout}.

(** The world after [CoreObjectManager::registerObject] and the two
    assignments of the constructor, for the object at the next free
    address. *)
Definition constructed (initializeOnRenderThread : bool) (w : world) : world :=
  let o := fresh (dom (heap w)) in
  let f := if initializeOnRenderThread
           then setFlag 0 CGO_INIT_ON_CORE_THREAD true else 0 in
  set_registry (<[nextId w := o]> (registry w)) (nextId w + 1)
    (set_heap (<[o := Obj f (nextId w) None]> (heap w)) w).
End Construction.

(** ** Statements in sequence and inside scopes *)

(** [follows c2 u c]: [u] is [c] with the statement [c2] after it. *)
Inductive follows (c2 : code) : code -> code -> Prop :=
| fl_ret : follows c2 c2 Ret
| fl_throw m : follows c2 (Throw m) (Throw m)
| fl_fault : follows c2 Fault Fault
| fl_act a k k' :
    (forall r, follows c2 (k r) (k' r)) -> follows c2 (Act a k) (Act a k')
| fl_while o t b k k' :
    follows c2 k k' -> follows c2 (While o t b k) (While o t b k')
| fl_enqueue p f k k' :
    follows c2 k k' -> follows c2 (Enqueue p f k) (Enqueue p f k').

(** [protects u c]: [u] is [c] inside the scope of automatic objects;
    the two differ only where [c] has raised. *)
Inductive protects : code -> code -> Prop :=
| pr_ret : protects Ret Ret
| pr_throw u m : protects u (Throw m)
| pr_fault : protects Fault Fault
| pr_act a k k' :
    (forall r, protects (k r) (k' r)) -> protects (Act a k) (Act a k')
| pr_while o t b b' k k' :
    protects b b' -> protects k k' ->
    protects (While o t b k) (While o t b' k')
| pr_enqueue p f k k' :
    protects k k' -> protects (Enqueue p f k) (Enqueue p f k').

(** ** The functor of a deferred command, while it runs *)

(** The actions that neither make nor give up a copy of a handle. *)
Definition handle_free (a : action) : Prop :=
  match a with
  | AWeakLock _ | ASpCopy _ | ASpRelease _ | ASpAdopt _ _ => False
  | _ => True
  end.

(** Straight-line code that leaves the handles alone, as the two
    internal methods do. *)
Inductive plain : code -> Prop :=
| pl_ret : plain Ret
| pl_throw m : plain (Throw m)
| pl_fault : plain Fault
| pl_act a k : handle_free a -> (forall r, plain (k r)) -> plain (Act a k).

(** A thread that runs the functor queued for the handle [cb] and has
    not yet destroyed it: about to call [executeGpuCommand]; inside
    [func], with the copy [objParam] next to the handle bound in the
    functor; past the call, with the functor still to be destroyed; or
    stopped by an exception or a fault of [func].  [count_of] counts
    the copies of [cb] that the thread holds. *)
Inductive in_command (cb : cbid) : thread -> Prop :=
| ic_start func held owned :
    plain func -> (1 <= count_of cb held)%nat ->
    in_command cb
      (Thread (run_command (Cmd (Some cb) (executeGpuCommand (Some cb) func)))
              held owned)
| ic_func func held owned :
    plain func -> (2 <= count_of cb held)%nat ->
    in_command cb
      (Thread (scoped func (sp_release (Some cb)) >> sp_release (Some cb))
              held owned)
| ic_called held owned :
    (1 <= count_of cb held)%nat ->
    in_command cb (Thread (sp_release (Some cb)) held owned)
| ic_threw m held owned :
    (1 <= count_of cb held)%nat ->
    in_command cb (Thread (Throw m) held owned)
| ic_fault held owned :
    (1 <= count_of cb held)%nat ->
    in_command cb (Thread Fault held owned).

(** The functor queued by [initialize] or by [destroy] for the handle
    [cb] of the object [o]. *)
Definition deferred_command `{FlagLayout} (CM_DEBUG_MODE : bool)
    (cb : cbid) (o : ptr) (c : command) : Prop :=
  c = init_command (Some cb) (Some o)
  \/ c = destroy_command CM_DEBUG_MODE (Some cb) (Some o).

(** A step of the system other than the destruction, by thread [t],
    of the functor bound to [cb]: a thread that has come to that
    destruction stays where it is. *)
Definition before_release `{FlagLayout} (CM_DEBUG_MODE : bool)
    (t : tid) (cb : cbid) (s s' : system) : Prop :=
  sys_step CM_DEBUG_MODE s s'
  /\ forall th, sys_threads s !! t = Some th ->
        th_code th = sp_release (Some cb) ->
        sys_threads s' !! t = Some th.

(** ** The protocol between [synchronize] and [initialize_internal] *)

(** Where a thread in [synchronize] stands: without the mutex, with it,
    or with it and having found the resource not Initialized since it
    took it. *)
Inductive wmode := Unlocked | Locked | Checked.

Section Protocol.
Context `{FlagLayout}.

(** What a thread [t] in [synchronize o] needs of the others: a
    resource that is Initialized or scheduled stays so (and live), it
    keeps its core-thread flag, the mutex is neither taken from [t] nor
    given to it, and no Initialized bit appears on [o] while [t] has
    the mutex. *)
Definition sync_rely (t : tid) (o : ptr) (w w' : world) : Prop :=
  (pending_or_initialized w o -> pending_or_initialized w' o)
  /\ (core_object w o -> core_object w' o)
  /\ (mutex w = Some t ->
      mutex w' = Some t /\ (initialized_in w' o -> initialized_in w o))
  /\ (mutex w <> Some t -> mutex w' <> Some t).

(** What a thread [t] in [initialize_internal o] needs of the others:
    an Initialized bit of [o] stays, [o] keeps its core-thread flag,
    and the mutex is not taken from [t]. *)
Definition init_rely (t : tid) (o : ptr) (w w' : world) : Prop :=
  (initialized_in w o -> initialized_in w' o)
  /\ (core_object w o -> core_object w' o)
  /\ (mutex w = Some t -> mutex w' = Some t).

(** Code that waits as [synchronize] does, from one position to
    another: it raises only without the mutex and never with the
    message of an unscheduled resource, it reads the scheduled bit only
    on the path on which it has found the resource not Initialized
    under the mutex, and it writes nothing. *)
Inductive waits_safely (o : ptr) : wmode -> wmode -> code -> Prop :=
| ws_ret md : waits_safely o md md Ret
| ws_throw md' m :
    m <> Msg.not_scheduled -> waits_safely o Unlocked md' (Throw m)
| ws_fault md md' : waits_safely o md md' Fault
| ws_read md md' k :
    (forall f, fInitOnCoreThread f = true ->
       (md = Checked -> fInitialized f = false /\ fScheduledForInit f = true) ->
       waits_safely o md md' (k (RFlags f))) ->
    waits_safely o md md' (Act (AReadFlags o) k)
| ws_core md md' k :
    (forall r, waits_safely o md md' (k r)) ->
    waits_safely o md md' (Act AIsCoreThread k)
| ws_lock md' k :
    (forall r, waits_safely o Locked md' (k r)) ->
    waits_safely o Unlocked md' (Act ALock k)
| ws_unlock md md' k :
    (forall r, waits_safely o Unlocked md' (k r)) ->
    waits_safely o md md' (Act AUnlock k)
| ws_wait md md' k :
    (forall r, waits_safely o Unlocked md' (k r)) ->
    waits_safely o md md' (Act AWait k)
| ws_wake md' k :
    (forall r, waits_safely o Locked md' (k r)) ->
    waits_safely o Unlocked md' (Act AWake k)
| ws_loop md md' test body k :
    md <> Unlocked ->
    (forall f, test f = true -> fInitialized f = false) ->
    waits_safely o Checked Locked body ->
    waits_safely o Locked md' k ->
    waits_safely o md md' (While o test body k).

(** What holds of the world at each position of the waiting thread. *)
Definition waiting_at (t : tid) (o : ptr) (md : wmode) (w : world) : Prop :=
  pending_or_initialized w o /\ core_object w o /\
  match md with
  | Unlocked => mutex w <> Some t
  | Locked => mutex w = Some t
  | Checked => mutex w = Some t /\ ~ initialized_in w o
  end.

(** Code that initialises as [initialize_internal] does: the
    Initialized bit of [o] is set with the mutex held ([locked]), and
    the scheduled bit is cleared only after that ([set]). *)
Inductive initializes (o : ptr) : bool -> bool -> code -> Prop :=
| in_ret l s : initializes o l s Ret
| in_throw l s m : initializes o l s (Throw m)
| in_fault l s : initializes o l s Fault
| in_read l s k :
    (forall f, fInitOnCoreThread f = true -> initializes o l s (k (RFlags f))) ->
    initializes o l s (Act (AReadFlags o) k)
| in_lock s k :
    (forall r, initializes o true s (k r)) ->
    initializes o false s (Act ALock k)
| in_unlock l s k :
    (forall r, initializes o false s (k r)) ->
    initializes o l s (Act AUnlock k)
| in_set s k :
    (forall r, initializes o true true (k r)) ->
    initializes o true s (Act (ASetFlag o CGO_INITIALIZED true) k)
| in_clear l k :
    (forall r, initializes o l true (k r)) ->
    initializes o l true (Act (ASetFlag o CGO_SCHEDULED_FOR_INIT false) k)
| in_notify l s k :
    (forall r, initializes o l s (k r)) ->
    initializes o l s (Act ANotifyAll k).

Definition initializing_at (t : tid) (o : ptr) (locked set : bool) (w : world)
    : Prop :=
  core_object w o /\ (locked = true -> mutex w = Some t)
  /\ (set = true -> initialized_in w o).
End Protocol.

(** Code that writes to no object, control block or queue: reads, the
    test for the core thread and the operations of the mutex and the
    condition variable. *)
Inductive read_only : code -> Prop :=
| ro_ret : read_only Ret
| ro_throw m : read_only (Throw m)
| ro_fault : read_only Fault
| ro_act a k :
    match a with
    | AReadFlags _ | AIsCoreThread | ALock | AUnlock | AWait | AWake => True
    | _ => False
    end ->
    (forall r, read_only (k r)) -> read_only (Act a k)
| ro_while o test body k :
    read_only body -> read_only k -> read_only (While o test body k).

(** ** BsParticleSystem.cpp: the growth of a particle set *)

(** [float]: IEEE 754 binary32, rounding to nearest even, expressions
    evaluated in their type. *)
Definition float_prec : Z := 24.
Definition float_emax : Z := 128.

(** The conversion of a [UINT32] operand to [float]. *)
Definition float_of_uint32 (n : Z) : spec_float :=
  binary_normalize float_prec float_emax n 0 false.

(** [(UINT32)x]: the fractional part is discarded; the conversion is
    undefined when the value does not fit. *)
Definition uint32_of_float (x : spec_float) : option Z :=
  match x with
  | S754_zero _ => Some 0
  | S754_finite s m e =>
      let v := if 0 <=? e then Z.pos m * 2 ^ e else Z.pos m / 2 ^ (- e) in
      if s then (if v =? 0 then Some 0 else None)
      else if v <? 2 ^ 32 then Some v else None
  | _ => None
  end.

(** [ParticleSet::CAPACITY_SCALE = 1.2f], the binary32 number nearest
    to 1.2: 10066330 * 2^-23. *)
Definition CAPACITY_SCALE : spec_float := S754_finite false 10066330 (-23).

(** [(UINT32)(mCount * CAPACITY_SCALE)] *)
Definition scaled_capacity (mCount : Z) : option Z :=
  uint32_of_float
    (SFmul float_prec float_emax (float_of_uint32 mCount) CAPACITY_SCALE).

(** ** BsParticleSystem.cpp: [ParticleSetData] and [ParticleSet]

    The five arrays of a particle set live in a memory of arrays; a
    pointer is the address of an array, or null.  The values of the
    element types ([Vector3], [float], [RGBA]) are only moved around by
    the code below, so the elements are of one unspecified type; a cell
    of a new array holds an indeterminate value. *)

(** The sizes of the types named in [sizeof].  [Vector3], [RGBA] and
    [Color] are declared in headers that are not among the sources, so
    their sizes are parameters of the model. *)
Class Sizes := {
  sizeof_Vector3 : positive;
  sizeof_float : positive;
  sizeof_RGBA : positive;
  sizeof_Color : positive
}.

(** The sizes of the upstream headers: three floats, one float, a
    colour packed in 32 bits, four floats. *)
#[global] Instance upstream_sizes : Sizes := {|
  sizeof_Vector3 := 12;
  sizeof_float := 4;
  sizeof_RGBA := 4;
  sizeof_Color := 16
|}.

Module ParticleSystem.
Section Model.
Context `{Sizes}.
Variable elem : Type.

(** The macro [NDEBUG] of the build: with it [assert] expands to
    nothing. *)
Variable NDEBUG : bool.

(** A cell, [None] being indeterminate; the memory, array by array. *)
Notation cell := (option elem).
Notation memory := (gmap positive (list cell)).

Inductive outcome (A : Type) : Type :=
| Ok (a : A) (m : memory)
| AssertFailed                 (* a failed [assert] *)
| Undefined.                   (* undefined behaviour *)
Arguments Ok {A} a m.
Arguments AssertFailed {A}.
Arguments Undefined {A}.

Definition op (A : Type) : Type := memory -> outcome A.

Definition ret {A} (a : A) : op A := fun m => Ok a m.

Definition bind {A B} (c : op A) (k : A -> op B) : op B := fun m =>
  match c m with
  | Ok a m' => k a m'
  | AssertFailed => AssertFailed
  | Undefined => Undefined
  end.

Notation "x <- c ;; k" := (bind c (fun x => k))
  (at level 100, c at next level, right associativity).
Notation "c ;; k" := (bind c (fun _ => k))
  (at level 100, right associativity).

(** [assert(b)] *)
Definition assert (b : bool) : op unit := fun m =>
  if NDEBUG || b then Ok tt m else AssertFailed.

(** [alloc.alloc<T>(n)].  [GroupAlloc] is not among the sources; it is
    taken as an allocator: a new array of [n] cells, apart from every
    live one, also when [n] is 0. *)
Definition alloc_array (n : Z) : op (option positive) := fun m =>
  let p := fresh (dom m) in
  Ok (Some p) (<[p := replicate (Z.to_nat n) None]> m).

(** [alloc.free(p)], of the same allocator: the array is given back;
    giving back what is not live is undefined. *)
Definition free_array (p : option positive) : op unit := fun m =>
  match p with
  | Some a =>
      match m !! a with
      | Some _ => Ok tt (delete a m)
      | None => Undefined
      end
  | None => Undefined
  end.

(** [memcpy(dst, src, n)]: [n] bytes, between two arrays whose
    elements have [sz] bytes each.  A copy that reads or writes past
    the end of an array is undefined, as is a copy from or to a null
    pointer or within one array; an element of [dst] that is
    overwritten in part is indeterminate afterwards. *)
Definition memcpy (sz : positive) (dst src : option positive) (n : Z)
    : op unit := fun m =>
  match dst, src with
  | Some d, Some s =>
      match m !! d, m !! s with
      | Some bd, Some bs =>
          if bool_decide (d <> s) && (0 <=? n)
             && (n <=? Z.pos sz * Z.of_nat (length bd))
             && (n <=? Z.pos sz * Z.of_nat (length bs))
          then
            let k := Z.to_nat (n / Z.pos sz) in
            Ok tt (<[d := take k bs ++
                          (if n mod Z.pos sz =? 0 then drop k bd
                           else None :: drop (S k) bd)]> m)
          else Undefined
      | _, _ => Undefined
      end
  | _, _ => Undefined
  end.

(** [a[i]] as a value *)
Definition load (a : option positive) (i : Z) : op cell := fun m =>
  match a with
  | Some p =>
      match m !! p with
      | Some b =>
          match b !! Z.to_nat i with
          | Some c => if 0 <=? i then Ok c m else Undefined
          | None => Undefined
          end
      | None => Undefined
      end
  | None => Undefined
  end.

(** [a[i] = c] *)
Definition store (a : option positive) (i : Z) (c : cell) : op unit := fun m =>
  match a with
  | Some p =>
      match m !! p with
      | Some b =>
          match b !! Z.to_nat i with
          | Some _ =>
              if 0 <=? i then Ok tt (<[p := <[Z.to_nat i := c]> b]> m)
              else Undefined
          | None => Undefined
          end
      | None => Undefined
      end
  | None => Undefined
  end.

(** [std::swap(a[i], a[j])] *)
Definition swap (a : option positive) (i j : Z) : op unit :=
  x <- load a i;;
  y <- load a j;;
  store a i y;;
  store a j x.

Record ParticleSetData := PSD {
  capacity : Z;
  position : option positive;
  velocity : option positive;
  size : option positive;
  lifetime : option positive;
  color : option positive
}.

(** [ParticleSetData::allocate()]; the [reserve] calls only size the
    allocator. *)
Definition allocate (this : ParticleSetData) : op ParticleSetData :=
  p <- alloc_array (capacity this);;
  v <- alloc_array (capacity this);;
  s <- alloc_array (capacity this);;
  l <- alloc_array (capacity this);;
  c <- alloc_array (capacity this);;
  ret (PSD (capacity this) p v s l c).

(** [if(p) alloc.free(p)] *)
Definition free_if (p : option positive) : op unit :=
  match p with
  | Some _ => free_array p
  | None => ret tt
  end.

(** [ParticleSetData::free()] *)
Definition free (this : ParticleSetData) : op unit :=
  free_if (position this);;
  free_if (velocity this);;
  free_if (size this);;
  free_if (lifetime this);;
  free_if (color this).

(** [ParticleSetData::move(other)]: the object with the buffers of
    [other], and what is left of [other]. *)
Definition move (other : ParticleSetData) : ParticleSetData * ParticleSetData :=
  (PSD (capacity other) (position other) (velocity other) (size other)
       (lifetime other) (color other),
   PSD 0 None None None None None).

(** [ParticleSetData::copy(other)].  The byte counts are the products
    written in the source, taken in [size_t] without wrap-around; the
    last one is [other.capacity * sizeof(Color)], for arrays that are
    declared as [RGBA*] and allocated with [alloc<RGBA>]. *)
Definition copy (this other : ParticleSetData) : op unit :=
  assert (capacity other <=? capacity this);;
  memcpy sizeof_Vector3 (position this) (position other)
         (capacity other * Z.pos sizeof_Vector3);;
  memcpy sizeof_Vector3 (velocity this) (velocity other)
         (capacity other * Z.pos sizeof_Vector3);;
  memcpy sizeof_Vector3 (size this) (size other)
         (capacity other * Z.pos sizeof_Vector3);;
  memcpy sizeof_float (lifetime this) (lifetime other)
         (capacity other * Z.pos sizeof_float);;
  memcpy sizeof_RGBA (color this) (color other)
         (capacity other * Z.pos sizeof_Color).

(** [ParticleSetData(UINT32 capacity)] *)
Definition ParticleSetData_new (capacity : Z) : op ParticleSetData :=
  allocate (PSD capacity None None None None None).

(** [ParticleSetData(UINT32 capacity, const ParticleSetData& other)] *)
Definition ParticleSetData_new_from (capacity : Z) (other : ParticleSetData)
    : op ParticleSetData :=
  this <- allocate (PSD capacity None None None None None);;
  copy this other;;
  ret this.

(** [ParticleSetData::operator=(ParticleSetData&& other)], the two
    being different objects. *)
Definition move_assign (this other : ParticleSetData)
    : op (ParticleSetData * ParticleSetData) :=
  free this;;
  ret (move other).

(** [~ParticleSetData()] *)
Definition ParticleSetData_dtor (this : ParticleSetData) : op unit :=
  free this.

Record ParticleSet := PS {
  mParticles : ParticleSetData;
  mCount : Z
}.

(** [UINT32] arithmetic *)
Definition u32 (n : Z) : Z := n mod 2 ^ 32.

(** [ParticleSet(UINT32 capacity)] *)
Definition ParticleSet_new (capacity : Z) : op ParticleSet :=
  d <- ParticleSetData_new capacity;;
  ret (PS d 0).

(** [ParticleSet::allocParticles(count)]: the index of the first new
    particle, and the set. *)
Definition allocParticles (count : Z) (this : ParticleSet)
    : op (Z * ParticleSet) :=
  let particleIdx := mCount this in
  let mCount' := u32 (mCount this + count) in
  if capacity (mParticles this) <? mCount' then
    match scaled_capacity mCount' with
    | Some newCapacity =>
        newData <- ParticleSetData_new_from newCapacity (mParticles this);;
        r <- move_assign (mParticles this) newData;;
        ParticleSetData_dtor r.2;;
        ret (particleIdx, PS r.1 mCount')
    | None => fun _ => Undefined
    end
  else ret (particleIdx, PS (mParticles this) mCount').

(** [ParticleSet::freeParticle(idx)] *)
Definition freeParticle (idx : Z) (this : ParticleSet) : op ParticleSet :=
  assert (idx <? mCount this);;
  let lastIdx := u32 (mCount this - 1) in
  (if negb (idx =? lastIdx) then
     swap (position (mParticles this)) idx lastIdx;;
     swap (velocity (mParticles this)) idx lastIdx;;
     swap (size (mParticles this)) idx lastIdx;;
     swap (lifetime (mParticles this)) idx lastIdx;;
     swap (color (mParticles this)) idx lastIdx
   else ret tt);;
  ret (PS (mParticles this) (u32 (mCount this - 1))).

(** [ParticleSet::getParticles()] and [getParticleCount()] *)
Definition getParticles (this : ParticleSet) : ParticleSetData := mParticles this.
Definition getParticleCount (this : ParticleSet) : Z := mCount this.

(** The loop [for(UINT32 i = index; i < end; i++) spawn(random,
    position[i], velocity[i])] of the emitter shapes, [n] being the
    number of indices from [i] to [end]; the position and the normal
    that the shape gives the particle at [i] are [shape i]. *)
Fixpoint spawn_loop (shape : Z -> elem * elem) (particleData : ParticleSetData)
    (n : nat) (i : Z) : op unit :=
  match n with
  | O => ret tt
  | S n' =>
      store (position particleData) i (Some (shape i).1);;
      store (velocity particleData) i (Some (shape i).2);;
      spawn_loop shape particleData n' (u32 (i + 1))
  end.

(** [spawn(random, particles, count, state)], the same in every
    emitter shape. *)
Definition spawn (shape : Z -> elem * elem) (particles : ParticleSet)
    (count : Z) : op ParticleSet :=
  r <- allocParticles count particles;;
  let index := r.1 in
  let particleData := getParticles r.2 in
  let end_ := u32 (index + count) in
  spawn_loop shape particleData (Z.to_nat (end_ - index)) index;;
  ret r.2.

(** *** Notions used in the statements *)

Definition arrays (d : ParticleSetData) : list (option positive) :=
  [position d; velocity d; size d; lifetime d; color d].

(** The five cells of the particle at index [i]. *)
Definition particle (m : memory) (d : ParticleSetData) (i : Z)
    : list (option cell) :=
  (fun a => b ← a ≫= (m !!.); if 0 <=? i then b !! Z.to_nat i else None)
    <$> arrays d.

(** A set as the methods keep it: five different live arrays of
    [capacity] cells each, and a count within the capacity. *)
Record valid (m : memory) (this : ParticleSet) : Prop := {
  valid_count : 0 <= mCount this <= capacity (mParticles this);
  valid_capacity : capacity (mParticles this) < 2 ^ 32;
  valid_arrays :
    exists ps, arrays (mParticles this) = Some <$> ps /\ NoDup ps
      /\ forall p, p ∈ ps ->
           exists b, m !! p = Some b
             /\ Z.of_nat (length b) = capacity (mParticles this)
}.

(** The statements of a method, one for each array. *)
Definition for_each {X} (f : X -> op unit) (l : list X) : op unit :=
  foldr (fun x k => f x;; k) (ret tt) l.

Fixpoint alloc_arrays (k : nat) (n : Z) : op (list (option positive)) :=
  match k with
  | O => ret []
  | S k' => p <- alloc_array n;; l <- alloc_arrays k' n;; ret (p :: l)
  end.
End Model.

Arguments Ok {elem A} a m.
Arguments AssertFailed {elem A}.
Arguments Undefined {elem A}.
Arguments ret {elem A} a m.
Arguments bind {elem A B} c k m.
Arguments assert {elem} NDEBUG b m.
Arguments alloc_array {elem} n m.
Arguments free_array {elem} p m.
Arguments memcpy {elem} sz dst src n m.
Arguments load {elem} a i m.
Arguments store {elem} a i c m.
Arguments swap {elem} a i j m.
Arguments allocate {elem} this m.
Arguments free_if {elem} p m.
Arguments free {elem} this m.
Arguments copy {H elem} NDEBUG this other m.
Arguments ParticleSetData_new {elem} capacity m.
Arguments ParticleSetData_new_from {H elem} NDEBUG capacity other m.
Arguments move_assign {elem} this other m.
Arguments ParticleSetData_dtor {elem} this m.
Arguments ParticleSet_new {elem} capacity m.
Arguments allocParticles {H elem} NDEBUG count this m.
Arguments freeParticle {elem} NDEBUG idx this m.
Arguments spawn_loop {elem} shape particleData n i m.
Arguments spawn {H elem} NDEBUG shape particles count m.
Arguments particle {elem} m d i.
Arguments valid {elem} m this.
Arguments for_each {elem X} f l m.
Arguments alloc_arrays {elem} k n m.
End ParticleSystem.

(** ** A sample particle set *)

(** A particle set of capacity 4 with two particles, numbers standing
    for the values of the cells. *)
Definition sample_particles : gmap positive (list (option nat)) :=
  <[1%positive := [Some 10; Some 11; None; None]%nat]>
  (<[2%positive := [Some 20; Some 21; None; None]%nat]>
  (<[3%positive := [Some 30; Some 31; None; None]%nat]>
  (<[4%positive := [Some 40; Some 41; None; None]%nat]>
  (<[5%positive := [Some 50; Some 51; None; None]%nat]> ∅)))).

Definition sample_set : ParticleSystem.ParticleSet :=
  ParticleSystem.PS
    (ParticleSystem.PSD 4 (Some 1%positive) (Some 2%positive) (Some 3%positive)
       (Some 4%positive) (Some 5%positive))
    2.

(** A set of capacity 0, as [ParticleSet(0)] leaves it. *)
Definition sample_empty : gmap positive (list (option nat)) :=
  <[1%positive := []]> (<[2%positive := []]> (<[3%positive := []]>
  (<[4%positive := []]> (<[5%positive := []]> ∅)))).

Definition sample_empty_set : ParticleSystem.ParticleSet :=
  ParticleSystem.PS
    (ParticleSystem.PSD 0 (Some 1%positive) (Some 2%positive) (Some 3%positive)
       (Some 4%positive) (Some 5%positive))
    0.

(** * Properties *)

(** ** The flag word *)

Lemma testbit_mask (b n : Z) : 0 <= b -> 0 <= n ->
  Z.testbit (flag_mask b) n = bool_decide (n = b).
Proof.
  intros Hb Hn. unfold flag_mask. rewrite Z.shiftl_1_l.
  case_bool_decide as E.
  - subst. by apply Z.pow2_bits_true.
  - apply Z.pow2_bits_false. lia.
Qed.

Lemma land_mask (f b : Z) : 0 <= b ->
  Z.land f (flag_mask b) = if Z.testbit f b then flag_mask b else 0.
Proof.
  intros Hb. apply Z.bits_inj'. intros n Hn.
  rewrite Z.land_spec, testbit_mask by done.
  case_bool_decide as E.
  - subst. destruct (Z.testbit f b);
      [by rewrite testbit_mask, bool_decide_eq_true_2|by rewrite Z.bits_0].
  - rewrite andb_false_r.
    destruct (Z.testbit f b);
      [by rewrite testbit_mask, bool_decide_eq_false_2|by rewrite Z.bits_0].
Qed.

Lemma hasFlag_mask (f b : Z) : 0 <= b -> hasFlag f (flag_mask b) = Z.testbit f b.
Proof.
  intros Hb. unfold hasFlag. rewrite land_mask by done.
  destruct (Z.testbit f b); [|done].
  unfold flag_mask. rewrite Z.shiftl_1_l.
  destruct (Z.eqb_spec (2 ^ b) 0); [|done].
  pose proof (Z.pow_pos_nonneg 2 b). lia.
Qed.

Lemma testbit_setFlag (f b n : Z) (on : bool) : 0 <= b -> 0 <= n ->
  Z.testbit (setFlag f (flag_mask b) on) n
  = if bool_decide (n = b) then on else Z.testbit f n.
Proof.
  intros Hb Hn. unfold setFlag. destruct on.
  - rewrite Z.lor_spec, testbit_mask by done.
    case_bool_decide; [by rewrite orb_true_r|by rewrite orb_false_r].
  - rewrite Z.land_spec, Z.lnot_spec, testbit_mask by done.
    case_bool_decide; [by rewrite andb_false_r|by rewrite andb_true_r].
Qed.

Lemma hasFlag_setFlag (f b b' : Z) (on : bool) : 0 <= b -> 0 <= b' ->
  hasFlag (setFlag f (flag_mask b) on) (flag_mask b')
  = if bool_decide (b' = b) then on else hasFlag f (flag_mask b').
Proof. intros. by rewrite !hasFlag_mask, testbit_setFlag. Qed.

Section FlagFacts.
Context `{FlagLayout}.

Lemma bits_nonneg :
  0 <= bit_INITIALIZED /\ 0 <= bit_INIT_ON_CORE_THREAD /\
  0 <= bit_SCHEDULED_FOR_INIT /\ 0 <= bit_SCHEDULED_FOR_DELETE.
Proof.
  pose proof flag_bits_nonneg as F.
  rewrite !Forall_cons in F. tauto.
Qed.

Lemma bits_distinct :
  bit_INITIALIZED <> bit_INIT_ON_CORE_THREAD /\
  bit_INITIALIZED <> bit_SCHEDULED_FOR_INIT /\
  bit_INITIALIZED <> bit_SCHEDULED_FOR_DELETE /\
  bit_INIT_ON_CORE_THREAD <> bit_SCHEDULED_FOR_INIT /\
  bit_INIT_ON_CORE_THREAD <> bit_SCHEDULED_FOR_DELETE /\
  bit_SCHEDULED_FOR_INIT <> bit_SCHEDULED_FOR_DELETE.
Proof.
  pose proof flag_bits_distinct as F.
  rewrite !NoDup_cons, !elem_of_cons, !elem_of_nil in F. intuition.
Qed.

(** Each accessor sees its own bit, and only that one. *)
Lemma flag_rw f on :
  (fInitialized (setFlag f CGO_INITIALIZED on) = on /\
   fInitOnCoreThread (setFlag f CGO_INITIALIZED on) = fInitOnCoreThread f /\
   fScheduledForInit (setFlag f CGO_INITIALIZED on) = fScheduledForInit f /\
   fScheduledForDelete (setFlag f CGO_INITIALIZED on) = fScheduledForDelete f) /\
  (fInitialized (setFlag f CGO_INIT_ON_CORE_THREAD on) = fInitialized f /\
   fInitOnCoreThread (setFlag f CGO_INIT_ON_CORE_THREAD on) = on /\
   fScheduledForInit (setFlag f CGO_INIT_ON_CORE_THREAD on) = fScheduledForInit f /\
   fScheduledForDelete (setFlag f CGO_INIT_ON_CORE_THREAD on) = fScheduledForDelete f) /\
  (fInitialized (setFlag f CGO_SCHEDULED_FOR_INIT on) = fInitialized f /\
   fInitOnCoreThread (setFlag f CGO_SCHEDULED_FOR_INIT on) = fInitOnCoreThread f /\
   fScheduledForInit (setFlag f CGO_SCHEDULED_FOR_INIT on) = on /\
   fScheduledForDelete (setFlag f CGO_SCHEDULED_FOR_INIT on) = fScheduledForDelete f) /\
  (fInitialized (setFlag f CGO_SCHEDULED_FOR_DELETE on) = fInitialized f /\
   fInitOnCoreThread (setFlag f CGO_SCHEDULED_FOR_DELETE on) = fInitOnCoreThread f /\
   fScheduledForInit (setFlag f CGO_SCHEDULED_FOR_DELETE on) = fScheduledForInit f /\
   fScheduledForDelete (setFlag f CGO_SCHEDULED_FOR_DELETE on) = on).
Proof.
  pose proof bits_nonneg. pose proof bits_distinct.
  unfold fInitialized, fInitOnCoreThread, fScheduledForInit, fScheduledForDelete,
    CGO_INITIALIZED, CGO_INIT_ON_CORE_THREAD, CGO_SCHEDULED_FOR_INIT,
    CGO_SCHEDULED_FOR_DELETE.
  rewrite !hasFlag_setFlag by tauto.
  repeat split; case_bool_decide; intuition congruence.
Qed.
End FlagFacts.

Section FlagRewrites.
Context `{FlagLayout}.
Lemma getI_setI f on : fInitialized (setFlag f CGO_INITIALIZED on) = on.
Proof. apply flag_rw. Qed.
Lemma getR_setI f on : fInitOnCoreThread (setFlag f CGO_INITIALIZED on) = fInitOnCoreThread f.
Proof. apply flag_rw. Qed.
Lemma getS_setI f on : fScheduledForInit (setFlag f CGO_INITIALIZED on) = fScheduledForInit f.
Proof. apply flag_rw. Qed.
Lemma getD_setI f on : fScheduledForDelete (setFlag f CGO_INITIALIZED on) = fScheduledForDelete f.
Proof. apply flag_rw. Qed.
Lemma getI_setR f on : fInitialized (setFlag f CGO_INIT_ON_CORE_THREAD on) = fInitialized f.
Proof. apply flag_rw. Qed.
Lemma getR_setR f on : fInitOnCoreThread (setFlag f CGO_INIT_ON_CORE_THREAD on) = on.
Proof. apply flag_rw. Qed.
Lemma getS_setR f on : fScheduledForInit (setFlag f CGO_INIT_ON_CORE_THREAD on) = fScheduledForInit f.
Proof. apply flag_rw. Qed.
Lemma getD_setR f on : fScheduledForDelete (setFlag f CGO_INIT_ON_CORE_THREAD on) = fScheduledForDelete f.
Proof. apply flag_rw. Qed.
Lemma getI_setS f on : fInitialized (setFlag f CGO_SCHEDULED_FOR_INIT on) = fInitialized f.
Proof. apply flag_rw. Qed.
Lemma getR_setS f on : fInitOnCoreThread (setFlag f CGO_SCHEDULED_FOR_INIT on) = fInitOnCoreThread f.
Proof. apply flag_rw. Qed.
Lemma getS_setS f on : fScheduledForInit (setFlag f CGO_SCHEDULED_FOR_INIT on) = on.
Proof. apply flag_rw. Qed.
Lemma getD_setS f on : fScheduledForDelete (setFlag f CGO_SCHEDULED_FOR_INIT on) = fScheduledForDelete f.
Proof. apply flag_rw. Qed.
Lemma getI_setD f on : fInitialized (setFlag f CGO_SCHEDULED_FOR_DELETE on) = fInitialized f.
Proof. apply flag_rw. Qed.
Lemma getR_setD f on : fInitOnCoreThread (setFlag f CGO_SCHEDULED_FOR_DELETE on) = fInitOnCoreThread f.
Proof. apply flag_rw. Qed.
Lemma getS_setD f on : fScheduledForInit (setFlag f CGO_SCHEDULED_FOR_DELETE on) = fScheduledForInit f.
Proof. apply flag_rw. Qed.
Lemma getD_setD f on : fScheduledForDelete (setFlag f CGO_SCHEDULED_FOR_DELETE on) = on.
Proof. apply flag_rw. Qed.
End FlagRewrites.

Create Rewrite HintDb flags.
Hint Rewrite @getI_setI @getR_setI @getS_setI @getD_setI @getI_setR @getR_setR @getS_setR @getD_setR @getI_setS @getR_setS @getS_setS @getD_setS @getI_setD @getR_setD @getS_setD @getD_setD : flags.

(** ** Running a method alone *)

Lemma take_out_head x l : take_out x (x :: l) = Some l.
Proof. unfold take_out. by rewrite decide_True. Qed.

Lemma elem_head_true (x : positive) l : bool_decide (x ∈ x :: l) = true.
Proof. apply bool_decide_eq_true_2. left. Qed.

Section RunEquations.
Context `{FlagLayout}.
Variable CM_DEBUG_MODE : bool.

Lemma run_ret n t w h ow :
  run CM_DEBUG_MODE n t w (Thread Ret h ow) = Returned w (Thread Ret h ow).
Proof. by destruct n. Qed.

Lemma run_throw n t w m h ow :
  run CM_DEBUG_MODE n t w (Thread (Throw m) h ow)
  = Threw m w (Thread (Throw m) h ow).
Proof. by destruct n. Qed.

Lemma run_fault n t w h ow :
  run CM_DEBUG_MODE n t w (Thread Fault h ow) = Crashed w (Thread Fault h ow).
Proof. by destruct n. Qed.

Lemma run_act n t w a k h ow :
  run CM_DEBUG_MODE (S n) t w (Thread (Act a k) h ow)
  = match do_action CM_DEBUG_MODE t w h ow a with
    | Blocked => BlockedAt w (Thread (Act a k) h ow)
    | Faulted => Crashed w (Thread Fault h ow)
    | Done w' h' ow' r pre =>
        run CM_DEBUG_MODE n t w' (Thread (seq pre (k r)) h' ow')
    end.
Proof.
  cbn. unfold step. cbn.
  destruct (do_action CM_DEBUG_MODE t w h ow a); try done. by destruct n.
Qed.

Lemma run_while n t w o test body k h ow :
  run CM_DEBUG_MODE (S n) t w (Thread (While o test body k) h ow)
  = match heap w !! o with
    | Some ob =>
        run CM_DEBUG_MODE n t w
          (Thread (if test (mFlags ob)
                   then seq body (While o test body k) else k) h ow)
    | None => Crashed w (Thread Fault h ow)
    end.
Proof.
  cbn. unfold step. cbn. destruct (heap w !! o); try done. by destruct n.
Qed.

Lemma run_enqueue_some n t w cb call k h ow :
  run CM_DEBUG_MODE (S n) t w (Thread (Enqueue (Some cb) call k) h ow)
  = match take_out cb h with
    | Some h' =>
        run CM_DEBUG_MODE n t (push_command (Cmd (Some cb) call) w)
          (Thread k h' ow)
    | None => Crashed w (Thread Fault h ow)
    end.
Proof.
  cbn. unfold step. cbn. destruct (take_out cb h); try done. by destruct n.
Qed.

Lemma run_enqueue_none n t w call k h ow :
  run CM_DEBUG_MODE (S n) t w (Thread (Enqueue None call k) h ow)
  = run CM_DEBUG_MODE n t (push_command (Cmd None call) w) (Thread k h ow).
Proof. done. Qed.
End RunEquations.

Arguments run : simpl never.
Arguments act_unit a /.
Arguments act_bool a k /.
Arguments act_flags a k /.
Arguments act_ptr a k /.
Arguments act_sp a k /.
Arguments act_id a k /.
Arguments isCoreThread k /.
Arguments weak_lock o k /.
Arguments weak_expired o k /.
Arguments sp_get p k /.
Arguments sp_copy p /.
Arguments sp_release p /.
Arguments sp_adopt o d k /.
Arguments lock_mutex /.
Arguments unlock_mutex /.
Arguments notify_all /.
Arguments wait_cond /.
Arguments arrow p m /.
Arguments bind_member m raw /.
Arguments scoped c cleanup /.
Arguments debug_only CM_DEBUG_MODE c /.
Arguments isInitialized {H} this k /.
Arguments isScheduledToBeInitialized {H} this k /.
Arguments isScheduledToBeDeleted {H} this k /.
Arguments requiresInitOnCoreThread {H} this k /.
Arguments setIsInitialized {H} this b /.
Arguments setScheduledToBeInitialized {H} this b /.
Arguments setScheduledToBeDeleted {H} this b /.
Arguments _setThisPtr this ptrThis /.
Arguments initialize_internal {H} this /.
Arguments destroy_internal {H} CM_DEBUG_MODE this /.
Arguments initialize {H} CM_DEBUG_MODE this /.
Arguments destroy {H} CM_DEBUG_MODE this /.
Arguments synchronize {H} CM_DEBUG_MODE this /.
Arguments synchronize_loop {H} this /.
Arguments executeGpuCommand obj func /.
Arguments queueInitializeGpuCommand {H} obj /.
Arguments queueDestroyGpuCommand {H} CM_DEBUG_MODE obj /.
Arguments CoreObject_dtor {H} CM_DEBUG_MODE this /.
Arguments delete_object {H} CM_DEBUG_MODE this /.
Arguments assert_not_null NDEBUG obj /.
Arguments _deleteDelayedInternal {H} CM_DEBUG_MODE NDEBUG obj /.
Arguments _deleteDelayed {H} CM_DEBUG_MODE obj /.
Arguments run_deleter {H} CM_DEBUG_MODE d obj /.
Arguments run_command c /.
Arguments set_heap h !w /.
Arguments set_blocks b !w /.
Arguments set_queue q !w /.
Arguments set_mutex m !w /.
Arguments set_waiters s !w /.
Arguments set_broadcasts n !w /.
Arguments set_registry r n !w /.
Arguments set_mFlags f ob /.
Arguments set_mInternalID n ob /.
Arguments set_mThis p ob /.
Arguments push_command c !w /.
Arguments registerObject o !w /.
Arguments unregisterObject ob !w /.

(** Symbolic execution of [run]: unfold one step, then use what is known
    about the heap, the control blocks and the flags. *)
Ltac use_known :=
  match goal with
  | E : ?m !! ?i = _ |- context [?m !! ?i] => rewrite E
  | E : mutex ?w = _ |- context [mutex ?w] => rewrite E
  | E : mThis ?ob = _ |- context [mThis ?ob] => rewrite E
  | E : strong ?c = _ |- context [strong ?c] => rewrite E
  | E : managed ?c = _ |- context [managed ?c] => rewrite E
  | E : ctrl_deleter ?c = _ |- context [ctrl_deleter ?c] => rewrite E
  | E : ?i <> ?j |- context [<[?i:=_]> _ !! ?j] => rewrite (lookup_insert_ne _ i j) by exact E
  | E : fInitialized ?f = _ |- context [fInitialized ?f] => rewrite E
  | E : fInitOnCoreThread ?f = _ |- context [fInitOnCoreThread ?f] => rewrite E
  | E : fScheduledForInit ?f = _ |- context [fScheduledForInit ?f] => rewrite E
  | E : fScheduledForDelete ?f = _ |- context [fScheduledForDelete ?f] => rewrite E
  | |- context [<[?i:=_]> _ !! ?i] => rewrite lookup_insert_eq
  | |- context [bool_decide (?x = ?x)] => rewrite (bool_decide_eq_true_2 (x = x) eq_refl)
  | E : ?x <> ?y |- context [bool_decide (?x = ?y)] =>
      rewrite (bool_decide_eq_false_2 (x = y) E)
  | E : ?x = ?y |- context [bool_decide (?x = ?y)] =>
      rewrite (bool_decide_eq_true_2 (x = y) E)
  | |- context [take_out ?x (?x :: _)] => rewrite take_out_head
  | |- context [bool_decide (?x ∈ ?x :: _)] => rewrite elem_head_true
  end.

Ltac open_world w :=
  let hp := fresh "hp" in let bl := fresh "bl" in let q := fresh "q" in
  let mx := fresh "mx" in let wt := fresh "wt" in let bc := fresh "bc" in
  let core := fresh "core" in let rg := fresh "rg" in let nid := fresh "nid" in
  destruct w as [hp bl q mx wt bc core rg nid]; cbn in *;
  try match goal with E : mx = _ |- _ => subst mx end.

Ltac exec :=
  repeat first
    [ rewrite run_ret | rewrite run_throw | rewrite run_fault
    | rewrite run_act | rewrite run_while
    | rewrite run_enqueue_some | rewrite run_enqueue_none
    | progress cbn | use_known | progress autorewrite with flags ].

Section Sequential.
Context `{FlagLayout}.
Variable CM_DEBUG_MODE : bool.

(** C9: on an Initialized resource [synchronize] is one read of the
    flag word and a return: the world is the same afterwards, whoever
    owns the mutex and on whichever thread, the core thread included. *)
Theorem synchronize_initialized_returns t w o ob held owned :
  heap w !! o = Some ob ->
  fInitialized (mFlags ob) = true ->
  step CM_DEBUG_MODE t w (Thread (synchronize CM_DEBUG_MODE o) held owned)
    = Some (w, Thread Ret held owned)
  /\ forall n, run CM_DEBUG_MODE (S n) t w (Thread (synchronize CM_DEBUG_MODE o) held owned)
               = Returned w (Thread Ret held owned).
Proof.
  intros Ho Hi. split.
  - unfold step. exec. reflexivity.
  - intros n. unfold synchronize. exec. done.
Qed.

(** C3: without the core-thread flag, [initialize] and [destroy] run
    to their end on the calling thread: nothing is queued or locked,
    and the result differs from the start in the Initialized bit only.
    The debug build refuses a second [initialize] and a [destroy] of
    an object that is not initialized. *)
Theorem synchronous_initialize_destroy t w o ob held owned :
  heap w !! o = Some ob ->
  fInitOnCoreThread (mFlags ob) = false ->
  run CM_DEBUG_MODE 8 t w (Thread (initialize CM_DEBUG_MODE o) held owned)
    = (if CM_DEBUG_MODE &&
          (fInitialized (mFlags ob) || fScheduledForInit (mFlags ob))
       then Threw Msg.already_initialized w
              (Thread (Throw Msg.already_initialized) held owned)
       else Returned (upd_flags o (fun f => setFlag f CGO_INITIALIZED true) w)
              (Thread Ret held owned))
  /\ run CM_DEBUG_MODE 8 t w (Thread (destroy CM_DEBUG_MODE o) held owned)
    = (if CM_DEBUG_MODE && negb (fInitialized (mFlags ob))
       then Threw Msg.already_destroyed w
              (Thread (Throw Msg.already_destroyed) held owned)
       else Returned (upd_flags o (fun f => setFlag f CGO_INITIALIZED false) w)
              (Thread Ret held owned))
  /\ fInitialized <$> flags_of (upd_flags o (fun f => setFlag f CGO_INITIALIZED true) w) o
     = Some true
  /\ fInitialized <$> flags_of (upd_flags o (fun f => setFlag f CGO_INITIALIZED false) w) o
     = Some false.
Proof.
  intros Ho Hr. open_world w. unfold upd_flags, flags_of. cbn. rewrite Ho.
  split; [|split; [|split]].
  - unfold initialize, debug_only. destruct CM_DEBUG_MODE; exec.
    + destruct (fInitialized (mFlags ob)) eqn:Hi; exec; [done|].
      destruct (fScheduledForInit (mFlags ob)) eqn:Hs; exec; done.
    + done.
  - unfold destroy, destroy_internal, debug_only. destruct CM_DEBUG_MODE; exec.
    + destruct (fInitialized (mFlags ob)) eqn:Hi; exec; done.
    + done.
  - exec. done.
  - exec. done.
Qed.

(** C7, as the code has it: the check for the core thread is compiled
    in debug builds only and is reached only for a resource that needs
    the core thread and is not Initialized yet.  There the call raises
    before it takes the mutex; in a release build the same call, on a
    scheduled resource, parks the core thread. *)
Theorem synchronize_on_core_thread w o ob held owned :
  heap w !! o = Some ob ->
  fInitialized (mFlags ob) = false ->
  fInitOnCoreThread (mFlags ob) = true ->
  (CM_DEBUG_MODE = true ->
   run CM_DEBUG_MODE 8 (coreThreadId w) w
       (Thread (synchronize CM_DEBUG_MODE o) held owned)
     = Threw Msg.deadlock w (Thread (Throw Msg.deadlock) held owned))
  /\ (CM_DEBUG_MODE = false ->
      fScheduledForInit (mFlags ob) = true -> mutex w = None ->
      exists th',
        run CM_DEBUG_MODE 8 (coreThreadId w) w
            (Thread (synchronize CM_DEBUG_MODE o) held owned)
          = BlockedAt (set_waiters ({[coreThreadId w]} ∪ waiters w) w) th').
Proof.
  intros Ho Hi Hr. split.
  - intros ->. unfold synchronize, debug_only. exec. done.
  - intros -> Hs Hm. open_world w.
    unfold synchronize, synchronize_loop, debug_only. exec.
    rewrite bool_decide_eq_true_2 by set_solver. eauto.
Qed.

(** C5, as the code has it: the destructor raises exactly when the
    Initialized bit is set (so also while a destroy is scheduled and
    has not run yet) and, in a debug build, when the self reference
    still resolves; otherwise it unregisters the object and ends,
    whatever the two scheduling bits say. *)
Theorem destructor_check t w o ob held owned :
  heap w !! o = Some ob ->
  let live := negb (expired w (mThis ob)) in
  run CM_DEBUG_MODE 8 t w (Thread (CoreObject_dtor CM_DEBUG_MODE o) held owned)
    = if fInitialized (mFlags ob)
      then Threw Msg.not_destroyed w (Thread (Throw Msg.not_destroyed) held owned)
      else if CM_DEBUG_MODE && live
      then Threw Msg.still_referenced w
             (Thread (Throw Msg.still_referenced) held owned)
      else Returned (unregisterObject ob w) (Thread Ret held owned).
Proof.
  intros Ho live. subst live. unfold CoreObject_dtor, debug_only, expired, use_count.
  destruct (fInitialized (mFlags ob)) eqn:Hi; exec; [done|].
  destruct CM_DEBUG_MODE; exec; [|done].
  destruct (mThis ob) as [cb|] eqn:Ht; exec; [|done].
  destruct (blocks w !! cb) as [c|] eqn:Hc; exec.
  - case_bool_decide; exec; done.
  - done.
Qed.
End Sequential.

(** ** The deferred and the direct paths *)

Lemma set_strong_id c : set_strong (strong c) c = c.
Proof. by destruct c. Qed.

Lemma set_strong_twice n m c : set_strong n (set_strong m c) = set_strong n c.
Proof. done. Qed.

Lemma world_eta w :
  World (heap w) (blocks w) (queue w) (mutex w) (waiters w) (broadcasts w)
        (coreThreadId w) (registry w) (nextId w) = w.
Proof. by destruct w. Qed.

Lemma blocks_restore (m : gmap cbid ctrl) cb c n :
  m !! cb = Some c -> strong c = n -> <[cb := set_strong n c]> m = m.
Proof. intros Hc <-. rewrite set_strong_id. by apply insert_id. Qed.

Ltac same_world :=
  repeat first
    [ progress cbn
    | progress unfold upd_flags, upd_count, initialized_on_core,
        init_command, destroy_command
    | use_known
    | rewrite insert_insert_eq
    | rewrite set_strong_id
    | rewrite set_strong_twice
    | erewrite blocks_restore by eassumption ];
  try reflexivity.

Section Paths.
Context `{FlagLayout}.
Variable CM_DEBUG_MODE : bool.

(** [initialize] away from the core thread, self reference bound. *)
Lemma initialize_deferred t w o ob cb c held owned :
  heap w !! o = Some ob -> mThis ob = Some cb ->
  blocks w !! cb = Some c -> managed c = o -> (0 < strong c)%nat ->
  fInitOnCoreThread (mFlags ob) = true ->
  fInitialized (mFlags ob) = false ->
  fScheduledForInit (mFlags ob) = false ->
  t <> coreThreadId w ->
  run CM_DEBUG_MODE 12 t w (Thread (initialize CM_DEBUG_MODE o) held owned)
    = Returned
        (push_command (init_command (Some cb) (Some o))
           (upd_count cb S
              (upd_flags o (fun f => setFlag f CGO_SCHEDULED_FOR_INIT true) w)))
        (Thread Ret held owned).
Proof.
  intros Ho Ht Hc Hm Hs Hr Hi Hsc Hcore.
  open_world w.
  destruct (strong c) as [|n] eqn:Hn; [lia|].
  destruct CM_DEBUG_MODE; exec; same_world.
Qed.

(** [initialize] on the core thread, self reference bound. *)
Lemma initialize_direct w o ob cb c held owned :
  heap w !! o = Some ob -> mThis ob = Some cb ->
  blocks w !! cb = Some c -> managed c = o -> (0 < strong c)%nat ->
  fInitOnCoreThread (mFlags ob) = true ->
  fInitialized (mFlags ob) = false ->
  fScheduledForInit (mFlags ob) = false ->
  mutex w = None ->
  run CM_DEBUG_MODE 16 (coreThreadId w) w
      (Thread (initialize CM_DEBUG_MODE o) held owned)
    = Returned
        (initialized_on_core o
           (upd_flags o (fun f => setFlag f CGO_SCHEDULED_FOR_INIT true) w))
        (Thread Ret held owned).
Proof.
  intros Ho Ht Hc Hm Hs Hr Hi Hsc Hmx.
  open_world w.
  destruct (strong c) as [|n] eqn:Hn; [lia|].
  destruct CM_DEBUG_MODE; exec; same_world.
Qed.

(** The queued initialisation, run by the thread holding the functor. *)
Lemma init_command_call t w o ob cb c held owned :
  heap w !! o = Some ob ->
  blocks w !! cb = Some c -> (0 < strong c)%nat ->
  fInitOnCoreThread (mFlags ob) = true ->
  mutex w = None ->
  run CM_DEBUG_MODE 12 t w
      (Thread (cmd_call (init_command (Some cb) (Some o))) (cb :: held) owned)
    = Returned (initialized_on_core o w) (Thread Ret (cb :: held) owned).
Proof.
  intros Ho Hc Hs Hr Hmx.
  open_world w.
  destruct (strong c) as [|n] eqn:Hn; [lia|]. exec; same_world.
Qed.

(** [destroy] away from the core thread, self reference bound. *)
Lemma destroy_deferred t w o ob cb c held owned :
  heap w !! o = Some ob -> mThis ob = Some cb ->
  blocks w !! cb = Some c -> managed c = o -> (0 < strong c)%nat ->
  fInitOnCoreThread (mFlags ob) = true ->
  t <> coreThreadId w ->
  run CM_DEBUG_MODE 12 t w (Thread (destroy CM_DEBUG_MODE o) held owned)
    = Returned
        (push_command (destroy_command CM_DEBUG_MODE (Some cb) (Some o))
           (upd_count cb S
              (upd_flags o (fun f => setFlag f CGO_SCHEDULED_FOR_DELETE true) w)))
        (Thread Ret held owned).
Proof.
  intros Ho Ht Hc Hm Hs Hr Hcore.
  open_world w.
  destruct (strong c) as [|n] eqn:Hn; [lia|].
  exec; same_world.
Qed.

(** [destroy] on the core thread, self reference bound. *)
Lemma destroy_direct w o ob cb c held owned :
  heap w !! o = Some ob -> mThis ob = Some cb ->
  blocks w !! cb = Some c -> managed c = o -> (0 < strong c)%nat ->
  fInitOnCoreThread (mFlags ob) = true ->
  fInitialized (mFlags ob) = true ->
  run CM_DEBUG_MODE 12 (coreThreadId w) w
      (Thread (destroy CM_DEBUG_MODE o) held owned)
    = Returned
        (upd_flags o
           (fun f => setFlag (setFlag f CGO_SCHEDULED_FOR_DELETE true)
                             CGO_INITIALIZED false) w)
        (Thread Ret held owned).
Proof.
  intros Ho Ht Hc Hm Hs Hr Hi.
  open_world w.
  destruct (strong c) as [|n] eqn:Hn; [lia|].
  destruct CM_DEBUG_MODE; exec; same_world.
Qed.

(** The queued destruction, run by the thread holding the functor. *)
Lemma destroy_command_call t w o ob cb c held owned :
  heap w !! o = Some ob ->
  blocks w !! cb = Some c -> (0 < strong c)%nat ->
  fInitialized (mFlags ob) = true ->
  run CM_DEBUG_MODE 12 t w
      (Thread (cmd_call (destroy_command CM_DEBUG_MODE (Some cb) (Some o)))
              (cb :: held) owned)
    = Returned (upd_flags o (fun f => setFlag f CGO_INITIALIZED false) w)
        (Thread Ret (cb :: held) owned).
Proof.
  intros Ho Hc Hs Hi.
  open_world w.
  destruct (strong c) as [|n] eqn:Hn; [lia|].
  destruct CM_DEBUG_MODE; exec; same_world.
Qed.

Lemma initialize_unbound t w o ob held owned :
  heap w !! o = Some ob -> expired w (mThis ob) = true ->
  fInitOnCoreThread (mFlags ob) = true ->
  fInitialized (mFlags ob) = false ->
  fScheduledForInit (mFlags ob) = false ->
  run CM_DEBUG_MODE 12 t w (Thread (initialize CM_DEBUG_MODE o) held owned)
    = let w' := upd_flags o (fun f => setFlag f CGO_SCHEDULED_FOR_INIT true) w in
      if bool_decide (t = coreThreadId w)
      then Crashed w' (Thread Fault held owned)
      else Returned (push_command (init_command None None) w')
             (Thread Ret held owned).
Proof.
  intros Ho He Hr Hi Hs. unfold expired, use_count in He. open_world w.
  destruct (mThis ob) as [cb|] eqn:Ht;
    [destruct (bl !! cb) as [c|] eqn:Hc;
     [apply bool_decide_eq_true_1 in He|clear He]|clear He];
    destruct CM_DEBUG_MODE; exec; case_bool_decide; exec; same_world.
Qed.

Lemma destroy_unbound t w o ob held owned :
  heap w !! o = Some ob -> expired w (mThis ob) = true ->
  fInitOnCoreThread (mFlags ob) = true ->
  run CM_DEBUG_MODE 12 t w (Thread (destroy CM_DEBUG_MODE o) held owned)
    = let w' := upd_flags o (fun f => setFlag f CGO_SCHEDULED_FOR_DELETE true) w in
      if bool_decide (t = coreThreadId w)
      then Crashed w' (Thread Fault held owned)
      else Returned (push_command (destroy_command CM_DEBUG_MODE None None) w')
             (Thread Ret held owned).
Proof.
  intros Ho He Hr. unfold expired, use_count in He. open_world w.
  destruct (mThis ob) as [cb|] eqn:Ht;
    [destruct (bl !! cb) as [c|] eqn:Hc;
     [apply bool_decide_eq_true_1 in He|clear He]|clear He];
    exec; case_bool_decide; exec; same_world.
Qed.

(** A functor bound to a null pointer calls a member on null. *)
Lemma null_command_call t w held owned :
  run CM_DEBUG_MODE 4 t w (Thread (cmd_call (init_command None None)) held owned)
    = Crashed w (Thread Fault held owned)
  /\ run CM_DEBUG_MODE 4 t w
       (Thread (cmd_call (destroy_command CM_DEBUG_MODE None None)) held owned)
    = Crashed w (Thread Fault held owned).
Proof. split; exec; done. Qed.

(** C8: for a resource that needs the core thread, [initialize] and
    [destroy] lock the weak self reference and pass the handle on.
    Bound to a live handle of the object itself, the direct path runs
    the internal method on the object and the deferred path queues a
    functor that stores a copy of the handle (its count goes up by
    one).  Empty or expired, the lock is null: the direct path calls
    through a null pointer, the deferred path queues a functor bound
    to null, which does the same once it is called. *)
Theorem self_reference_precondition t w o ob held owned :
  heap w !! o = Some ob ->
  fInitOnCoreThread (mFlags ob) = true ->
  (forall cb c,
     mThis ob = Some cb -> blocks w !! cb = Some c -> managed c = o ->
     (0 < strong c)%nat ->
     (fInitialized (mFlags ob) = false ->
      fScheduledForInit (mFlags ob) = false ->
      (t <> coreThreadId w ->
       run CM_DEBUG_MODE 12 t w (Thread (initialize CM_DEBUG_MODE o) held owned)
       = Returned
           (push_command (init_command (Some cb) (Some o))
              (upd_count cb S
                 (upd_flags o (fun f => setFlag f CGO_SCHEDULED_FOR_INIT true) w)))
           (Thread Ret held owned)) /\
      (t = coreThreadId w -> mutex w = None ->
       run CM_DEBUG_MODE 16 t w (Thread (initialize CM_DEBUG_MODE o) held owned)
       = Returned
           (initialized_on_core o
              (upd_flags o (fun f => setFlag f CGO_SCHEDULED_FOR_INIT true) w))
           (Thread Ret held owned))) /\
     (t <> coreThreadId w ->
      run CM_DEBUG_MODE 12 t w (Thread (destroy CM_DEBUG_MODE o) held owned)
      = Returned
          (push_command (destroy_command CM_DEBUG_MODE (Some cb) (Some o))
             (upd_count cb S
                (upd_flags o (fun f => setFlag f CGO_SCHEDULED_FOR_DELETE true) w)))
          (Thread Ret held owned)) /\
     (t = coreThreadId w -> fInitialized (mFlags ob) = true ->
      run CM_DEBUG_MODE 12 t w (Thread (destroy CM_DEBUG_MODE o) held owned)
      = Returned
          (upd_flags o
             (fun f => setFlag (setFlag f CGO_SCHEDULED_FOR_DELETE true)
                               CGO_INITIALIZED false) w)
          (Thread Ret held owned)))
  /\ (expired w (mThis ob) = true ->
      (fInitialized (mFlags ob) = false ->
       fScheduledForInit (mFlags ob) = false ->
       run CM_DEBUG_MODE 12 t w (Thread (initialize CM_DEBUG_MODE o) held owned)
       = if bool_decide (t = coreThreadId w)
         then Crashed
                (upd_flags o (fun f => setFlag f CGO_SCHEDULED_FOR_INIT true) w)
                (Thread Fault held owned)
         else Returned
                (push_command (init_command None None)
                   (upd_flags o (fun f => setFlag f CGO_SCHEDULED_FOR_INIT true) w))
                (Thread Ret held owned)) /\
      run CM_DEBUG_MODE 12 t w (Thread (destroy CM_DEBUG_MODE o) held owned)
      = (if bool_decide (t = coreThreadId w)
         then Crashed
                (upd_flags o (fun f => setFlag f CGO_SCHEDULED_FOR_DELETE true) w)
                (Thread Fault held owned)
         else Returned
                (push_command (destroy_command CM_DEBUG_MODE None None)
                   (upd_flags o (fun f => setFlag f CGO_SCHEDULED_FOR_DELETE true) w))
                (Thread Ret held owned)) /\
      (forall t' w' held' owned',
         run CM_DEBUG_MODE 4 t' w'
             (Thread (cmd_call (init_command None None)) held' owned')
         = Crashed w' (Thread Fault held' owned') /\
         run CM_DEBUG_MODE 4 t' w'
             (Thread (cmd_call (destroy_command CM_DEBUG_MODE None None))
                     held' owned')
         = Crashed w' (Thread Fault held' owned'))).
Proof.
  intros Ho Hr. split.
  - intros cb c Ht Hc Hm Hs. repeat split.
    + intros; by eapply initialize_deferred.
    + intros -> ?; by eapply initialize_direct.
    + intros; by eapply destroy_deferred.
    + intros -> ?; by eapply destroy_direct.
  - intros He. repeat split.
    + intros; by eapply initialize_unbound.
    + by eapply destroy_unbound.
Qed.

(** ** The wait loop *)

Lemma synchronize_parks t w o ob held owned :
  heap w !! o = Some ob ->
  fInitialized (mFlags ob) = false ->
  fInitOnCoreThread (mFlags ob) = true ->
  fScheduledForInit (mFlags ob) = true ->
  mutex w = None ->
  (CM_DEBUG_MODE = true -> t <> coreThreadId w) ->
  run CM_DEBUG_MODE 8 t w (Thread (synchronize CM_DEBUG_MODE o) held owned)
    = BlockedAt (set_waiters ({[t]} ∪ waiters w) w)
        (Thread (synchronize_parked o) held owned).
Proof.
  intros Ho Hi Hr Hs Hm Hcore. open_world w.
  destruct CM_DEBUG_MODE; [specialize (Hcore eq_refl)|]; exec;
    rewrite bool_decide_eq_true_2 by set_solver; reflexivity.
Qed.

Lemma synchronize_wakes t w o ob held owned :
  heap w !! o = Some ob ->
  t ∉ waiters w -> mutex w = None ->
  run CM_DEBUG_MODE 8 t w (Thread (synchronize_parked o) held owned)
    = if fInitialized (mFlags ob)
      then Returned w (Thread Ret held owned)
      else if fScheduledForInit (mFlags ob)
      then BlockedAt (set_waiters ({[t]} ∪ waiters w) w)
             (Thread (synchronize_parked o) held owned)
      else Threw Msg.not_scheduled w
             (Thread (Throw Msg.not_scheduled) held owned).
Proof.
  intros Ho Hw Hm. open_world w. unfold synchronize_parked.
  rewrite run_act. cbn. rewrite bool_decide_eq_false_2 by done.
  destruct (fInitialized (mFlags ob)) eqn:Hi; exec; [done|].
  destruct (fScheduledForInit (mFlags ob)) eqn:Hs; exec; [|done].
  rewrite bool_decide_eq_true_2 by set_solver. reflexivity.
Qed.

Lemma synchronize_stays_parked t w o held owned :
  t ∈ waiters w \/ is_Some (mutex w) ->
  step CM_DEBUG_MODE t w (Thread (synchronize_parked o) held owned) = None.
Proof.
  intros [Hw|[t' Hm]]; unfold step; cbn.
  - by rewrite bool_decide_eq_true_2.
  - rewrite Hm. by case_bool_decide.
Qed.

(** C10: the thread parked in [synchronize] resumes at the head of the
    loop, so each wakeup reads the Initialized bit and, when that is
    clear, the scheduled bit: with both clear the call raises (the
    lock is released on the way out), with Initialized set it returns,
    and only with the scheduled bit set does it park again, as the
    same code. *)
Theorem synchronize_rechecks_on_wakeup t w o ob held owned :
  heap w !! o = Some ob ->
  (fInitialized (mFlags ob) = false ->
   fInitOnCoreThread (mFlags ob) = true ->
   fScheduledForInit (mFlags ob) = true ->
   mutex w = None ->
   (CM_DEBUG_MODE = true -> t <> coreThreadId w) ->
   run CM_DEBUG_MODE 8 t w (Thread (synchronize CM_DEBUG_MODE o) held owned)
     = BlockedAt (set_waiters ({[t]} ∪ waiters w) w)
         (Thread (synchronize_parked o) held owned))
  /\ (t ∈ waiters w \/ is_Some (mutex w) ->
      step CM_DEBUG_MODE t w (Thread (synchronize_parked o) held owned) = None)
  /\ (t ∉ waiters w -> mutex w = None ->
      run CM_DEBUG_MODE 8 t w (Thread (synchronize_parked o) held owned)
        = if fInitialized (mFlags ob)
          then Returned w (Thread Ret held owned)
          else if fScheduledForInit (mFlags ob)
          then BlockedAt (set_waiters ({[t]} ∪ waiters w) w)
                 (Thread (synchronize_parked o) held owned)
          else Threw Msg.not_scheduled w
                 (Thread (Throw Msg.not_scheduled) held owned)).
Proof.
  intros Ho. repeat split.
  - intros; by eapply synchronize_parks.
  - apply synchronize_stays_parked.
  - intros; by eapply synchronize_wakes.
Qed.
End Paths.

(** ** A call between the steps of other threads *)

Section Concurrent.
Context `{FlagLayout}.
Variable CM_DEBUG_MODE : bool.

Lemma guarded_seq quiet seen o b c k :
  guarded quiet seen o true c -> guarded quiet seen o b k ->
  guarded quiet seen o b (seq c k).
Proof.
  intros Hc Hk. remember true as b0 eqn:Eb.
  induction Hc; cbn; first [done | constructor; by auto].
Qed.

Lemma deleter_guarded quiet seen o d x :
  (forall a, no_wait a -> quiet a) ->
  guarded quiet seen o true (run_deleter CM_DEBUG_MODE d x).
Proof.
  intros Hq. destruct d;
    repeat first
      [ apply gd_ret | apply gd_throw | apply gd_fault | apply gd_enqueue
      | apply gd_act; [apply Hq; split; discriminate|intros ?]
      | progress cbn
      | match goal with
        | |- context [match ?r with _ => _ end] => destruct r
        end ].
Qed.

Lemma guarded_step quiet seen o b t w th w' th' :
  (forall a, no_wait a -> quiet a) ->
  guarded quiet seen o b (th_code th) ->
  step CM_DEBUG_MODE t w th = Some (w', th') ->
  observed seen w o \/ guarded quiet seen o b (th_code th').
Proof.
  destruct th as [c h ow]. cbn. intros Hq Ha Hs. unfold step in Hs. cbn in Hs.
  inversion Ha as [E1 E|b0 m E1 E|b0 E1 E|b0 a k Hqa Hk E1 E|b0 k Hk E1 E
                   |b0 test body k Hobs Hb E1 E
                   |b0 o' test body k Hb Hk E1 E|b0 p call k Hk E1 E];
    subst c; cbn in Hs; try done.
  - destruct (do_action _ _ _ _ _ _) as [| |w1 h1 ow1 r pre] eqn:Hd;
      simplify_eq; right; cbn; [constructor|].
    apply guarded_seq; [|done].
    assert (pre = Ret \/ exists d x, pre = run_deleter CM_DEBUG_MODE d x)
      as [->|(d & x & ->)]; [|constructor|by apply deleter_guarded].
    clear -Hd. destruct a; unfold do_action in Hd; repeat case_match;
      simplify_eq; eauto.
  - destruct (heap w !! o) as [ob|] eqn:Ho; simplify_eq; cbn.
    + destruct (seen (mFlags ob)) eqn:Hi.
      * left. unfold observed, flags_of. by rewrite Ho; cbn; rewrite Hi.
      * right. by apply Hk.
    + right. constructor.
  - destruct (heap w !! o) as [ob|] eqn:Ho; simplify_eq; cbn;
      [|right; constructor].
    destruct (test (mFlags ob)) eqn:Ht.
    + right. apply guarded_seq; [done|]. by constructor.
    + left. unfold observed, flags_of. rewrite Ho. cbn. by rewrite Hobs.
  - destruct (heap w !! o') as [ob|] eqn:Ho; simplify_eq; cbn;
      [|right; constructor].
    right. destruct (test (mFlags ob)); [|done].
    apply guarded_seq; [done|]. by apply gd_while.
  - right. destruct p as [cb|]; [destruct (take_out cb h)|];
      simplify_eq; cbn; by try constructor.
Qed.

(** Along an execution of a thread whose code is guarded, either one
    of its own steps was taken in a world where the flag word of [o]
    passes the test, or its code is still guarded. *)
Lemma guarded_trace quiet seen o b t rely w th tr w' th' :
  (forall a, no_wait a -> quiet a) ->
  interleaving CM_DEBUG_MODE t rely w th tr w' th' ->
  guarded quiet seen o b (th_code th) ->
  (exists w1 w2, (w1, w2) ∈ tr /\ observed seen w1 o)
  \/ guarded quiet seen o b (th_code th').
Proof.
  intros Hq.
  induction 1 as [w th|w th w1 th1 tr w' th' Hs _ IH|w th w1 tr w' th' _ _ IH];
    intros Ha.
  - by right.
  - destruct (guarded_step _ _ _ _ _ _ _ _ _ Hq Ha Hs) as [Hi|Ha'].
    + left. exists w, w1. split; [left|done].
    + destruct (IH Ha') as [(x & y & Hin & Hi)|Hg]; [|by right].
      left. exists x, y. split; [by right|done].
  - by apply IH.
Qed.

(** A thread whose code awaits [o] has not returned unless one of its
    own steps was taken in a world where [o] is Initialized. *)
Lemma awaits_returns o t rely w th tr w' th' :
  interleaving CM_DEBUG_MODE t rely w th tr w' th' ->
  awaits o (th_code th) ->
  th_code th' = Ret ->
  exists w1 w2, (w1, w2) ∈ tr /\ initialized_in w1 o.
Proof.
  intros Hil Ha Hret.
  destruct (guarded_trace _ _ _ _ _ _ _ _ _ _ _ (fun _ _ => I) Hil Ha)
    as [Hobs|Hg]; [done|].
  rewrite Hret in Hg. inversion Hg.
Qed.

(** A thread whose code gives up on [o] has neither returned nor
    parked unless one of its own steps was taken in a world where [o]
    is Initialized or scheduled. *)
Lemma gives_up_trace o t rely w th tr w' th' :
  interleaving CM_DEBUG_MODE t rely w th tr w' th' ->
  gives_up o (th_code th) ->
  (forall w1 w2, (w1, w2) ∈ tr -> ~ pending_or_initialized w1 o) ->
  th_code th' <> Ret /\ ~ parked (th_code th').
Proof.
  intros Hil Ha Hnot.
  destruct (guarded_trace _ _ _ _ _ _ _ _ _ _ _ (fun _ H => H) Hil Ha)
    as [(x & y & Hin & Hobs)|Hg]; [by destruct (Hnot _ _ Hin)|].
  split.
  - intros E. rewrite E in Hg. inversion Hg.
  - intros [k E]. rewrite E in Hg.
    inversion Hg as [| | |b0 a k0 [_ Hq] _ E1 E2| | | |]. by destruct Hq.
Qed.

Lemma synchronize_awaits o : awaits o (synchronize CM_DEBUG_MODE o).
Proof.
  cbn. apply gd_read. intros f Hi. rewrite Hi. cbn.
  apply gd_act; [done|]. intros [| |f'| | |]; try constructor.
  destruct (fInitOnCoreThread f'); [|constructor].
  apply guarded_seq.
  - destruct CM_DEBUG_MODE; cbn; [|constructor].
    apply gd_act; [done|]. intros [|[]| | | |]; constructor.
  - apply gd_act; [done|]. intros _. apply gd_loop.
    + intros f0. by destruct (fInitialized f0).
    + cbn. apply gd_act; [done|]. intros [| |f0| | |]; try constructor.
      destruct (fScheduledForInit f0); cbn; repeat (constructor; try done; intros).
Qed.

Lemma synchronize_gives_up o : gives_up o (synchronize CM_DEBUG_MODE o).
Proof.
  assert (forall a, a <> AWait -> a <> AWake -> no_wait a) as Hq by done.
  cbn. apply gd_read. intros f [Hi Hs]%orb_false_elim. rewrite Hi. cbn.
  apply gd_act; [by apply Hq|]. intros [| |f'| | |]; try constructor.
  destruct (fInitOnCoreThread f'); [|constructor].
  apply guarded_seq.
  - destruct CM_DEBUG_MODE; cbn; [|constructor].
    apply gd_act; [by apply Hq|]. intros [|[]| | | |]; constructor.
  - apply gd_act; [by apply Hq|]. intros _. apply gd_loop.
    + intros f0 E. apply negb_false_iff in E. by rewrite E.
    + cbn. apply gd_read. intros f0 [_ Hs0]%orb_false_elim. rewrite Hs0. cbn.
      apply gd_act; [by apply Hq|]. intros _. constructor.
Qed.

(** C6: a resource that is neither Initialized nor scheduled for
    initialisation: [synchronize] raises, on every thread and in both
    builds, and leaves the world as it was.  Between steps of other
    threads too, the call has neither returned nor parked on the
    condition as long as none of its steps found the resource
    Initialized or scheduled. *)
Theorem synchronize_unscheduled_throws t w o ob held owned :
  heap w !! o = Some ob ->
  fInitialized (mFlags ob) = false ->
  fScheduledForInit (mFlags ob) = false ->
  mutex w = None ->
  run CM_DEBUG_MODE 8 t w (Thread (synchronize CM_DEBUG_MODE o) held owned)
    = Threw
        (unscheduled_error CM_DEBUG_MODE (bool_decide (t = coreThreadId w))
           (mFlags ob))
        w
        (Thread
           (Throw (unscheduled_error CM_DEBUG_MODE
                     (bool_decide (t = coreThreadId w)) (mFlags ob)))
           held owned)
  /\ forall t' w0 held' owned' tr w' th',
       interleaving CM_DEBUG_MODE t' any_change w0
         (Thread (synchronize CM_DEBUG_MODE o) held' owned') tr w' th' ->
       (forall w1 w2, (w1, w2) ∈ tr -> ~ pending_or_initialized w1 o) ->
       th_code th' <> Ret /\ ~ parked (th_code th').
Proof.
  intros Ho Hi Hs Hm. split.
  - open_world w. unfold unscheduled_error.
    destruct (fInitOnCoreThread (mFlags ob)) eqn:Hr; exec; [|done].
    destruct CM_DEBUG_MODE; exec.
    + case_bool_decide; exec; done.
    + done.
  - intros t' w0 held' owned' tr w' th' Hil Hnot.
    eapply gives_up_trace; [exact Hil| |exact Hnot].
    apply synchronize_gives_up.
Qed.

Lemma never_initializes_seq b o c k :
  never_initializes b o c -> never_initializes b o k ->
  never_initializes b o (seq c k).
Proof.
  intros Hc Hk. induction Hc; cbn; first [done | by constructor].
Qed.

Ltac ni_generic :=
  repeat first
    [ apply ni_ret | apply ni_throw | apply ni_fault
    | apply ni_enqueue
    | apply ni_act; [cbn; tauto|intros ?]
    | progress cbn
    | match goal with
      | |- context [match ?r with _ => _ end] => destruct r
      end ].

Lemma deleter_never_initializes b o d x :
  never_initializes b o (run_deleter CM_DEBUG_MODE d x).
Proof. destruct d; ni_generic. Qed.

Lemma initialize_never_initializes o :
  never_initializes false o (initialize CM_DEBUG_MODE o).
Proof.
  cbn. apply never_initializes_seq.
  - destruct CM_DEBUG_MODE; ni_generic.
  - apply ni_read. intros f Hr. rewrite Hr. cbn.
    apply ni_act; [cbn; tauto|intros _].
    apply ni_core. ni_generic.
Qed.
Lemma passes_on_refl w : passes_on w w.
Proof. split; [done|]. intros o f' ?. by exists f'. Qed.

Lemma passes_on_same_flags w w' :
  coreThreadId w' = coreThreadId w ->
  (forall o, flags_of w' o = flags_of w o) -> passes_on w w'.
Proof. intros ? E. split; [done|]. intros o f'. rewrite E. by exists f'. Qed.

Lemma flags_of_insert w hp o ob o' :
  heap w = hp ->
  flags_of (set_heap (<[o := ob]> hp) w) o'
  = if decide (o = o') then Some (mFlags ob) else flags_of w o'.
Proof.
  intros <-. unfold flags_of. destruct w; cbn. rewrite lookup_insert.
  by case_decide.
Qed.

Lemma harmless_action t w h ow a w' h' ow' r pre :
  harmless a ->
  do_action CM_DEBUG_MODE t w h ow a = Done w' h' ow' r pre ->
  passes_on w w' /\
  (pre = Ret \/ exists d x, pre = run_deleter CM_DEBUG_MODE d x) /\
  (a = AIsCoreThread -> r = RBool (bool_decide (t = coreThreadId w))) /\
  (forall o, a = AReadFlags o -> exists f, flags_of w o = Some f /\ r = RFlags f).
Proof.
  intros Ha Hd.
  assert (forall o ob ob', heap w !! o = Some ob ->
            mFlags ob' = mFlags ob ->
            passes_on w (set_heap (<[o := ob']> (heap w)) w)) as same.
  { intros o ob ob' Ho E. apply passes_on_same_flags; [by destruct w|].
    intros o'. rewrite (flags_of_insert _ _ _ _ _ eq_refl).
    case_decide; [subst|done]. unfold flags_of. by rewrite Ho, E. }
  assert (forall b q m wt bc rg n,
            passes_on w (World (heap w) b q m wt bc (coreThreadId w) rg n)) as frame.
  { intros. by apply passes_on_same_flags. }
  destruct a; cbn in Ha; unfold do_action in Hd; repeat case_match; simplify_eq;
    (split; [|split; [|split]]);
    try (intros; discriminate); try (left; reflexivity);
    try (destruct w; cbn; apply frame);
    try apply passes_on_refl.
  all: try by (eapply same; eauto).
  all: try by (right; eauto).
  all: try by (intros o' E; simplify_eq; unfold flags_of;
               match goal with E : heap _ !! _ = Some _ |- _ => rewrite E end;
               eauto).
  all: try by (intros _; reflexivity).
  - split; [by destruct w|]. intros o' f'.
    rewrite (flags_of_insert _ _ _ _ _ eq_refl). case_decide; [subst o'|by eauto].
    intros [= <-]. exists (mFlags c). unfold flags_of.
    match goal with E : heap _ !! _ = Some _ |- _ => rewrite E end.
    cbn. destruct Ha as [->|[->|[-> ->]]]; autorewrite with flags; by eauto.
  - split; [by destruct w|]. intros o' f'. unfold flags_of. destruct w; cbn.
    rewrite lookup_delete. case_decide; [done|]. by eauto.
Qed.

Lemma never_initializes_step o t w th w' th' :
  never_initializes (bool_decide (t = coreThreadId w)) o (th_code th) ->
  core_object w o ->
  step CM_DEBUG_MODE t w th = Some (w', th') ->
  never_initializes (bool_decide (t = coreThreadId w)) o (th_code th') /\
  passes_on w w'.
Proof.
  destruct th as [c h ow]. cbn. intros Hn Hco Hs. unfold step in Hs. cbn in Hs.
  inversion Hn as [E|m E|E|a k Ha Hk E|k Hk E|k Hk E
                   |o' test body k Hb Hk E|p call k Hk E];
    subst c; cbn in Hs; try done.
  - destruct (do_action _ _ _ _ _ _) as [| |w1 h1 ow1 r pre] eqn:Hd;
      simplify_eq; cbn; [split; [constructor|apply passes_on_refl]|].
    destruct (harmless_action _ _ _ _ _ _ _ _ _ _ Ha Hd) as (Hp & Hpre & _).
    split; [|done]. apply never_initializes_seq; [|done].
    destruct Hpre as [->|(d & x & ->)];
      [constructor|apply deleter_never_initializes].
  - cbn in Hs. simplify_eq. cbn. split; [done|apply passes_on_refl].
  - destruct (heap w !! o) as [ob|] eqn:Ho; simplify_eq; cbn;
      (split; [|apply passes_on_refl]); [|constructor].
    apply Hk, Hco. unfold flags_of. by rewrite Ho.
  - destruct (heap w !! o') as [ob|] eqn:Ho; simplify_eq; cbn;
      (split; [|apply passes_on_refl]); [|constructor].
    destruct (test (mFlags ob)); [|done].
    apply never_initializes_seq; [done|by constructor].
  - destruct p as [cb|]; [destruct (take_out cb h)|]; simplify_eq; cbn;
      (split; [by try constructor|]);
      try apply passes_on_refl;
      (apply passes_on_same_flags; [by destruct w|by destruct w]).
Qed.

Lemma passes_on_core_object w w' o :
  passes_on w w' -> core_object w o -> core_object w' o.
Proof.
  intros [_ Hp] Hco f' Hf'. destruct (Hp _ _ Hf') as (f & Hf & -> & _). eauto.
Qed.

Lemma passes_on_initialized w w' o :
  passes_on w w' -> initialized_in w' o -> initialized_in w o.
Proof.
  unfold initialized_in. intros [_ Hp] Hi.
  destruct (flags_of w' o) as [f'|] eqn:Hf'; [|done].
  destruct (Hp _ _ Hf') as (f & -> & _ & Hm). cbn in *.
  f_equal. apply Hm. congruence.
Qed.

(** Whatever the other threads do, no step of a thread running code
    that never initializes sets an Initialized bit. *)
Lemma never_initializes_trace o t w th tr w' th' :
  interleaving CM_DEBUG_MODE t (keeps_core_object o) w th tr w' th' ->
  never_initializes (bool_decide (t = coreThreadId w)) o (th_code th) ->
  core_object w o ->
  forall w1 w2 o', (w1, w2) ∈ tr -> initialized_in w2 o' -> initialized_in w1 o'.
Proof.
  induction 1 as [w th|w th w1 th1 tr w' th' Hs _ IH|w th w1 tr w' th' Hr _ IH];
    intros Hn Hco x y o' Hin.
  - by apply elem_of_nil in Hin.
  - destruct (never_initializes_step _ _ _ _ _ _ Hn Hco Hs) as [Hn' Hp].
    apply elem_of_cons in Hin as [[= -> ->]|Hin].
    + by apply passes_on_initialized.
    + eapply IH; eauto.
      * destruct Hp as [-> _]. done.
      * by eapply passes_on_core_object.
  - destruct Hr as [Hc Hk]. eapply IH; eauto. by rewrite Hc.
Qed.

Lemma nsteps_reachable n t w th w' th' ths :
  ths !! t = Some th ->
  take_steps CM_DEBUG_MODE n t w th = Some (w', th') ->
  reachable CM_DEBUG_MODE (Sys w ths) (Sys w' (<[t := th']> ths)).
Proof.
  revert w th ths. induction n as [|n IH]; intros w th ths Ht; cbn.
  - intros [= <- <-]. rewrite list_insert_id by done. apply rtc_refl.
  - destruct (step CM_DEBUG_MODE t w th) as [[w1 th1]|] eqn:Hs; [|done].
    intros Hn. eapply rtc_l; [by eapply step_thread|].
    assert (<[t:=th1]> ths !! t = Some th1) as Ht1.
    { apply list_lookup_insert_eq. by eapply lookup_lt_Some. }
    specialize (IH _ _ _ Ht1 Hn). by rewrite list_insert_insert_eq in IH.
Qed.

Lemma sys_do_reachable e s s' :
  sys_do CM_DEBUG_MODE e s = Some s' -> reachable CM_DEBUG_MODE s s'.
Proof.
  destruct s as [w ths], e as [t n| |t]; cbn.
  - destruct (ths !! t) as [th|] eqn:Ht; cbn; [|done].
    destruct (take_steps _ _ _ _ _) as [[w' th']|] eqn:Hn; cbn; [|done].
    intros [= <-]. by eapply nsteps_reachable.
  - destruct (ths !! coreThreadId w) as [th|] eqn:Ht; cbn; [|done].
    destruct (th_code th) eqn:Hc; try done.
    destruct (queue w) as [|c q] eqn:Hq; [done|].
    intros [= <-]. apply rtc_once. by eapply step_dequeue.
  - case_bool_decide; [|done]. intros [= <-]. apply rtc_once.
    by apply step_spurious.
Qed.

Lemma sys_run_reachable es s s' :
  sys_run CM_DEBUG_MODE es s = Some s' -> reachable CM_DEBUG_MODE s s'.
Proof.
  revert s. induction es as [|e es IH]; intros s; cbn.
  - intros [= <-]. apply rtc_refl.
  - destruct (sys_do CM_DEBUG_MODE e s) as [s1|] eqn:Hd; cbn; [|done].
    intros Hr. eapply rtc_trans; [by eapply sys_do_reachable|by apply IH].
Qed.

Ltac stage_facts :=
  unfold initialized_in, stage, flags_of;
  repeat first
    [ progress cbn
    | progress unfold upd_flags, upd_count, initialized_on_core
    | use_known
    | progress autorewrite with flags ];
  try reflexivity.

(** C1: [initialize] of a resource that needs the core thread, called
    away from it: the call returns with the resource scheduled, not
    Initialized, and the functor queued; no step of the caller makes
    anything Initialized, whatever the other threads do meanwhile; the
    queued functor, run by the core thread, sets Initialized, clears
    the scheduled bit and broadcasts the condition; and a [synchronize]
    on the resource, on any thread and between any steps of the
    others, has not returned unless one of its reads saw the resource
    Initialized. *)
Theorem deferred_initialization t w o ob cb c held owned :
  heap w !! o = Some ob -> mThis ob = Some cb ->
  blocks w !! cb = Some c -> managed c = o -> (0 < strong c)%nat ->
  fInitOnCoreThread (mFlags ob) = true ->
  fInitialized (mFlags ob) = false ->
  fScheduledForInit (mFlags ob) = false ->
  t <> coreThreadId w ->
  let w1 :=
    push_command (init_command (Some cb) (Some o))
      (upd_count cb S
         (upd_flags o (fun f => setFlag f CGO_SCHEDULED_FOR_INIT true) w)) in
  (run CM_DEBUG_MODE 12 t w (Thread (initialize CM_DEBUG_MODE o) held owned)
     = Returned w1 (Thread Ret held owned)
   /\ stage w1 o = Some (false, true, fScheduledForDelete (mFlags ob)))
  /\ (forall tr w' th',
        interleaving CM_DEBUG_MODE t (keeps_core_object o) w
          (Thread (initialize CM_DEBUG_MODE o) held owned) tr w' th' ->
        forall x y o', (x, y) ∈ tr -> initialized_in y o' -> initialized_in x o')
  /\ (forall w2 ob2 c2 held2 owned2,
        heap w2 !! o = Some ob2 -> blocks w2 !! cb = Some c2 ->
        (0 < strong c2)%nat ->
        fInitOnCoreThread (mFlags ob2) = true -> mutex w2 = None ->
        let w3 := initialized_on_core o w2 in
        run CM_DEBUG_MODE 12 (coreThreadId w2) w2
            (Thread (cmd_call (init_command (Some cb) (Some o)))
                    (cb :: held2) owned2)
          = Returned w3 (Thread Ret (cb :: held2) owned2)
        /\ stage w3 o = Some (true, false, fScheduledForDelete (mFlags ob2))
        /\ broadcasts w3 = S (broadcasts w2) /\ waiters w3 = ∅)
  /\ (forall t' w0 held' owned' tr w' th',
        interleaving CM_DEBUG_MODE t' any_change w0
          (Thread (synchronize CM_DEBUG_MODE o) held' owned') tr w' th' ->
        th_code th' = Ret ->
        exists x y, (x, y) ∈ tr /\ initialized_in x o).
Proof.
  intros Ho Ht Hc Hm Hs Hr Hi Hsc Hcore w1. subst w1.
  split; [split|split; [|split]].
  - by eapply initialize_deferred.
  - clear Hcore. open_world w. stage_facts.
  - intros tr w' th' Hil. eapply never_initializes_trace; [exact Hil| |].
    + cbn. rewrite bool_decide_eq_false_2 by done.
      apply initialize_never_initializes.
    + intros f. unfold flags_of. rewrite Ho. by intros [= <-].
  - intros w2 ob2 c2 held2 owned2 Ho2 Hc2 Hs2 Hr2 Hm2 w3. subst w3.
    split; [by eapply init_command_call|].
    open_world w2. stage_facts. done.
  - intros t' w0 held' owned' tr w' th' Hil Hret.
    eapply awaits_returns; [exact Hil| |done]. apply synchronize_awaits.
Qed.

(** C4, as the code has it: the lifecycle is kept in three independent
    bits, and the Initialized bit overlaps its two neighbours.  Each
    operation of the deferred path moves the bits of a resource as
    follows: [initialize] sets the scheduled bit; the queued
    initialisation sets Initialized and then, two steps later, clears
    the scheduled bit; [destroy] sets the deletion bit and leaves
    Initialized set; the queued destruction clears Initialized and
    leaves the deletion bit set. *)
Theorem lifecycle_bits_by_operation t w o ob cb c held owned :
  heap w !! o = Some ob -> mThis ob = Some cb ->
  blocks w !! cb = Some c -> managed c = o -> (0 < strong c)%nat ->
  fInitOnCoreThread (mFlags ob) = true ->
  t <> coreThreadId w ->
  let d := fScheduledForDelete (mFlags ob) in
  let s := fScheduledForInit (mFlags ob) in
  let i := fInitialized (mFlags ob) in
  (i = false -> s = false ->
   exists w',
     run CM_DEBUG_MODE 12 t w (Thread (initialize CM_DEBUG_MODE o) held owned)
       = Returned w' (Thread Ret held owned)
     /\ stage w' o = Some (false, true, d))
  /\ (mutex w = None ->
      (exists w' th',
         take_steps CM_DEBUG_MODE 4 (coreThreadId w) w
           (Thread (cmd_call (init_command (Some cb) (Some o))) (cb :: held) owned)
           = Some (w', th')
         /\ stage w' o = Some (true, s, d))
      /\ exists w',
         run CM_DEBUG_MODE 12 (coreThreadId w) w
           (Thread (cmd_call (init_command (Some cb) (Some o))) (cb :: held) owned)
           = Returned w' (Thread Ret (cb :: held) owned)
         /\ stage w' o = Some (true, false, d))
  /\ (exists w',
        run CM_DEBUG_MODE 12 t w (Thread (destroy CM_DEBUG_MODE o) held owned)
          = Returned w' (Thread Ret held owned)
        /\ stage w' o = Some (i, s, true))
  /\ (i = true ->
      exists w',
        run CM_DEBUG_MODE 12 (coreThreadId w) w
          (Thread (cmd_call (destroy_command CM_DEBUG_MODE (Some cb) (Some o)))
                  (cb :: held) owned)
          = Returned w' (Thread Ret (cb :: held) owned)
        /\ stage w' o = Some (false, s, d)).
Proof.
  intros Ho Ht Hc Hm Hs Hr Hcore d s i. subst d s i.
  split; [|split; [|split]].
  - intros Hi Hsc. eexists. split; [by eapply initialize_deferred|].
    clear Hcore. open_world w. stage_facts.
  - intros Hmx. split.
    + clear Hcore. open_world w. unfold step.
      destruct (strong c) as [|n] eqn:Hn; [lia|].
      exec. do 2 eexists. split; [reflexivity|]. stage_facts.
    + eexists. split; [by eapply init_command_call|].
      clear Hcore. open_world w. stage_facts.
  - eexists. split; [by eapply destroy_deferred|].
    clear Hcore. open_world w. stage_facts.
  - intros Hi. eexists. split; [by eapply destroy_command_call|].
    clear Hcore. open_world w. stage_facts.
Qed.
End Concurrent.

(** ** Shared ownership *)

Lemma count_of_cons x y l :
  count_of x (y :: l) = ((if decide (x = y) then 1 else 0) + count_of x l)%nat.
Proof. done. Qed.

Lemma count_of_app x l1 l2 :
  count_of x (l1 ++ l2) = (count_of x l1 + count_of x l2)%nat.
Proof.
  induction l1 as [|y l1 IH]; [done|].
  cbn [app]. rewrite !count_of_cons, IH. lia.
Qed.

Lemma count_of_elem x l : x ∈ l <-> (0 < count_of x l)%nat.
Proof.
  induction l as [|y l IH].
  - split; [by intros ?%elem_of_nil|unfold count_of; lia].
  - rewrite elem_of_cons, count_of_cons, IH.
    case_decide; [subst; intuition lia|].
    split; [intros [?|?]; [done|lia]|intros; right; lia].
Qed.

Lemma take_out_count x l l' :
  take_out x l = Some l' ->
  count_of x l = S (count_of x l') /\
  forall y, y <> x -> count_of y l = count_of y l'.
Proof.
  revert l'. induction l as [|z l IH]; intros l'; unfold take_out; fold take_out.
  - done.
  - case_decide as E.
    + intros [= <-]. subst z. rewrite count_of_cons, decide_True by done.
      split; [lia|]. intros y Hy. by rewrite count_of_cons, decide_False.
    + destruct (take_out x l) as [r|]; [|done]. intros [= <-].
      destruct (IH r eq_refl) as [E1 E2]. rewrite !count_of_cons.
      rewrite decide_False by done. split; [lia|].
      intros y Hy. rewrite !count_of_cons, (E2 y Hy). done.
Qed.

Lemma total_insert f ths t th th' :
  ths !! t = Some th ->
  (total f (<[t := th']> ths) + f th = total f ths + f th')%nat.
Proof.
  revert t. induction ths as [|x ths IH]; intros [|t]; simpl; try done.
  - intros [= ->]. lia.
  - intros Ht. specialize (IH _ Ht). lia.
Qed.

Lemma total_zero f ths t th :
  ths !! t = Some th -> total f ths = O -> f th = O.
Proof.
  revert t. induction ths as [|x ths IH]; intros [|t]; cbn; try done.
  - intros [= ->]. lia.
  - intros Ht ?. apply (IH _ Ht). lia.
Qed.

Lemma total_le f ths t th :
  ths !! t = Some th -> (f th <= total f ths)%nat.
Proof.
  revert t. induction ths as [|x ths IH]; intros [|t]; cbn; try done.
  - intros [= ->]. lia.
  - intros Ht. specialize (IH _ Ht). lia.
Qed.

Lemma queued_handles_app cb q1 q2 :
  queued_handles cb (q1 ++ q2)
  = (queued_handles cb q1 + queued_handles cb q2)%nat.
Proof. induction q1 as [|c q1 IH]; cbn; [done|]. rewrite IH. lia. Qed.

Section StepOwnership.
Context `{FlagLayout}.
Variable CM_DEBUG_MODE : bool.

Lemma step_owner_step t w th w' th' :
  step CM_DEBUG_MODE t w th = Some (w', th') ->
  owner_step w (th_held th) (th_owned th) w' (th_held th') (th_owned th').
Proof.
  destruct th as [c h ow]. unfold step. cbn [th_code th_held th_owned].
  assert (forall hp,
            (forall o, is_Some (hp !! o) <-> is_Some (heap w !! o)) ->
            owner_step w h ow (set_heap hp w) h ow) as Hheap.
  { intros hp E. apply os_frame; [by destruct w|by destruct w|].
    intros o. by destruct w. }
  assert (forall o (ob ob' : CoreObject),
            heap w !! o = Some ob ->
            forall o', is_Some (<[o := ob']> (heap w) !! o')
                       <-> is_Some (heap w !! o')) as Hins.
  { intros o ob ob' Ho o'. rewrite lookup_insert. case_decide; [subst|done].
    rewrite Ho. split; eauto. }
  assert (forall w', heap w' = heap w -> blocks w' = blocks w ->
            queue w' = queue w -> owner_step w h ow w' h ow) as Hframe.
  { intros w1 E1 E2 E3. apply os_frame; [done|done|]. intros o. by rewrite E1. }
  destruct c as [|m| |a k|o test body k|p call k]; try done.
  - destruct a; unfold do_action; repeat case_match; intros; simplify_eq;
      cbn [th_held th_owned];
      try (apply os_frame; done);
      try (apply Hframe; by destruct w);
      try (eapply Hheap, Hins; eassumption).
    + match goal with E : strong ?c = S ?n |- _ => rewrite <- E end.
      eapply os_acquire; [done|left; lia].
    + eapply os_acquire; [done|right]. by eapply bool_decide_eq_true_1.
    + by eapply (os_release _ _ _ _ _ 0).
    + by eapply (os_release _ _ _ _ _ (S _)).
    + by apply os_adopt.
    + apply os_new.
    + by apply os_free.
  - intros; repeat case_match; simplify_eq; cbn [th_held th_owned];
      apply os_frame; done.
  - intros; repeat case_match; simplify_eq; cbn [th_held th_owned];
      try (apply os_frame; done); by apply os_enqueue.
Qed.
End StepOwnership.

Lemma use_count_insert w cb c cb' :
  use_count (set_blocks (<[cb := c]> (blocks w)) w) cb'
  = if decide (cb = cb') then strong c else use_count w cb'.
Proof.
  unfold use_count. destruct w; cbn. rewrite lookup_insert. by case_decide.
Qed.

Lemma manages_insert w cb c cb' o :
  manages (set_blocks (<[cb := c]> (blocks w)) w) cb' o
  <-> if decide (cb = cb') then managed c = o /\ (0 < strong c)%nat
      else manages w cb' o.
Proof.
  unfold manages. destruct w; cbn. rewrite lookup_insert.
  case_decide; [|done]. split; [by intros (? & [= <-] & ?)|eauto].
Qed.

Lemma manages_use_count w cb o : manages w cb o -> (0 < use_count w cb)%nat.
Proof. intros (c & Hc & _ & ?). unfold use_count. by rewrite Hc. Qed.

Section Consistency.
Context `{FlagLayout}.
Variable CM_DEBUG_MODE : bool.

Lemma owner_step_consistent w ths t th w' h' ow' c' :
  consistent w ths ->
  ths !! t = Some th ->
  owner_step w (th_held th) (th_owned th) w' h' ow' ->
  consistent w' (<[t := Thread c' h' ow']> ths).
Proof.
  intros [Hcnt Hone Hblk Hob Hml Hol] Ht Hstep.
  set (ths' := <[t := Thread c' h' ow']> ths).
  assert (forall x, (total (fun th => count_of x (th_held th)) ths'
                     + count_of x (th_held th)
                     = total (fun th => count_of x (th_held th)) ths
                       + count_of x h')%nat) as Eh.
  { intros x.
    apply (total_insert (fun th => count_of x (th_held th)) _ _ _
             (Thread c' h' ow') Ht). }
  assert (forall x, (owners ths' x + count_of x (th_owned th)
                     = owners ths x + count_of x ow')%nat) as Eo.
  { intros x.
    apply (total_insert (fun th => count_of x (th_owned th)) _ _ _
             (Thread c' h' ow') Ht). }
  assert (forall x, (count_of x (th_held th)
                     <= total (fun th => count_of x (th_held th)) ths)%nat) as Lh.
  { intros x. apply (total_le (fun th => count_of x (th_held th)) _ _ _ Ht). }
  assert (forall x, (count_of x (th_owned th) <= owners ths x)%nat) as Lo.
  { intros x. apply (total_le (fun th => count_of x (th_owned th)) _ _ _ Ht). }
  unfold handles in *. clearbody ths'.
  destruct Hstep as [w' Eb Eq Ehp|cb c Hc Hpos|cb c n held' Hc Hn Hto
                     |o d owned' Hto| |o owned' Hto|p call held' Hto].
  - (* nothing owned changes *)
    assert (forall cb o, manages w' cb o <-> manages w cb o) as Em.
    { intros. unfold manages. by rewrite Eb. }
    assert (forall cb, use_count w' cb = use_count w cb) as Eu.
    { intros. unfold use_count. by rewrite Eb. }
    split.
    + intros cb. unfold handles. rewrite Eu, Eq. specialize (Eh cb). specialize (Hcnt cb). lia.
    + intros o. specialize (Eo o). specialize (Hone o). lia.
    + intros cb1 cb2 o. rewrite !Em. apply Hblk.
    + intros cb o. rewrite Em. intros Hm. specialize (Eo o).
      specialize (Hob _ _ Hm). lia.
    + intros cb o. rewrite Em, Ehp. apply Hml.
    + intros o Ho. rewrite Ehp. apply Hol. specialize (Eo o). lia.
  - (* one more copy of [cb] *)
    assert ((0 < strong c)%nat) as Hpos'.
    { destruct Hpos as [?|Hin]; [done|].
      apply count_of_elem in Hin. specialize (Hcnt cb). specialize (Lh cb).
      unfold use_count in Hcnt. rewrite Hc in Hcnt. lia. }
    assert (forall x o, manages (set_blocks (<[cb:=set_strong (S (strong c)) c]> (blocks w)) w) x o
                        <-> manages w x o) as Em.
    { intros x o. rewrite manages_insert. case_decide; [subst x|done]. cbn.
      unfold manages. rewrite Hc. split; [intros [? ?]; eauto|].
      intros (c0 & ? & ? & ?); simplify_eq. split; [done|lia]. }
    split.
    + intros x. unfold handles. rewrite use_count_insert.
      specialize (Eh x). specialize (Hcnt x). rewrite count_of_cons in Eh.
      replace (queue (set_blocks _ w)) with (queue w) by by destruct w.
      destruct (decide (x = cb)) as [->|Hne].
      * rewrite decide_True by done. rewrite ?decide_True in Eh by done.
        unfold use_count in Hcnt. rewrite Hc in Hcnt. cbn. lia.
      * rewrite decide_False by done. rewrite ?decide_False in Eh by done. lia.
    + intros o. specialize (Eo o). specialize (Hone o). lia.
    + intros x1 x2 o. rewrite !Em. apply Hblk.
    + intros x o. rewrite Em. intros Hm. specialize (Eo o).
      specialize (Hob _ _ Hm). lia.
    + intros x o. rewrite Em. replace (heap (set_blocks _ w)) with (heap w)
        by by destruct w. apply Hml.
    + intros o Ho. replace (heap (set_blocks _ w)) with (heap w)
        by by destruct w. apply Hol. specialize (Eo o). lia.
  - (* one copy of [cb] less *)
    destruct (take_out_count _ _ _ Hto) as [Ecb Eother].
    assert (forall x o,
              manages (set_blocks (<[cb:=set_strong n c]> (blocks w)) w) x o
              <-> manages w x o /\ (n = O -> x <> cb)) as Em.
    { intros x o. rewrite manages_insert. case_decide; [subst x|].
      - cbn. unfold manages. split.
        + intros [? ?]. split; [exists c; split; [done|split; [done|lia]]|lia].
        + intros [(c0 & Hc0 & Hm0 & Hs0) Hn0]. rewrite Hc in Hc0.
          injection Hc0 as <-. split; [done|].
          destruct n; [by destruct Hn0|lia].
      - split; [intros ?; split; [done|congruence]|by intros [? _]]. }
    assert (manages w cb (managed c)) as Hm.
    { exists c. split; [done|split; [done|lia]]. }
    assert (forall o, (owners ths' o + count_of o (th_owned th)
                       = owners ths o
                         + (match n with O => if decide (o = managed c) then 1 else 0
                                       | S _ => 0 end)
                         + count_of o (th_owned th))%nat) as Eo'.
    { intros o. specialize (Eo o). destruct n; [|lia].
      rewrite count_of_cons in Eo. lia. }
    clear Eo.
    assert (forall b, heap (set_blocks b w) = heap w) as Ehp by by destruct w.
    assert (forall b, queue (set_blocks b w) = queue w) as Eq by by destruct w.
    split.
    + intros x. unfold handles. rewrite use_count_insert, Eq.
      specialize (Eh x). specialize (Hcnt x). unfold handles in Hcnt.
      destruct (decide (x = cb)) as [->|Hne].
      * rewrite decide_True by done. unfold use_count in Hcnt.
        rewrite Hc, Hn in Hcnt. cbn. lia.
      * rewrite decide_False by done. rewrite (Eother x Hne) in Eh. lia.
    + intros o. specialize (Eo' o). specialize (Hone o).
      destruct n; [|lia]. case_decide; [subst o|lia].
      specialize (Hob _ _ Hm). lia.
    + intros x1 x2 o [H1 _]%Em [H2 _]%Em. by eapply Hblk.
    + intros x o [Hx Hn0]%Em. specialize (Eo' o). specialize (Hob _ _ Hx).
      destruct n; [|lia]. case_decide; [subst o|lia].
      destruct (Hn0 eq_refl). by eapply Hblk.
    + intros x o [Hx _]%Em. rewrite Ehp. by eapply Hml.
    + intros o Ho. rewrite Ehp. specialize (Eo' o).
      destruct n; [|apply Hol; lia].
      case_decide; [subst o; by eapply Hml|apply Hol; lia].
  - (* a raw object gets a control block *)
    destruct (take_out_count _ _ _ Hto) as [Eo1 Eother].
    set (cb := fresh (dom (blocks w))) in *.
    assert (blocks w !! cb = None) as Hfresh.
    { apply not_elem_of_dom. apply is_fresh. }
    assert (forall x o',
              manages (set_blocks (<[cb:=Ctrl o 1 d]> (blocks w)) w) x o'
              <-> (x = cb /\ o' = o) \/ manages w x o') as Em.
    { intros x o'. rewrite manages_insert. case_decide; [subst x|].
      - cbn. split; [intros [-> _]; by left|].
        intros [[_ ->]|(c0 & Hc0 & _)]; [split; [done|lia]|congruence].
      - split; [by right|]. intros [[? _]|?]; [congruence|done]. }
    assert (forall b, heap (set_blocks b w) = heap w) as Ehp by by destruct w.
    assert (forall b, queue (set_blocks b w) = queue w) as Eq by by destruct w.
    assert ((0 < owners ths o)%nat) as Hown.
    { specialize (Lo o). lia. }
    split.
    + intros x. unfold handles. rewrite use_count_insert, Eq.
      specialize (Eh x). specialize (Hcnt x). unfold handles in Hcnt.
      rewrite count_of_cons in Eh.
      destruct (decide (x = cb)) as [->|Hne].
      * rewrite decide_True by done. rewrite ?decide_True in Eh by done.
        unfold use_count in Hcnt. rewrite Hfresh in Hcnt. cbn.
        specialize (Lh cb). lia.
      * rewrite decide_False by done. rewrite ?decide_False in Eh by done. lia.
    + intros o'. specialize (Eo o'). specialize (Hone o').
      destruct (decide (o' = o)) as [->|Hne]; [lia|].
      rewrite (Eother _ Hne) in Eo. lia.
    + intros x1 x2 o' [[-> ->]|H1]%Em [[-> E]|H2]%Em; try done.
      * specialize (Hob _ _ H2). lia.
      * subst o'. specialize (Hob _ _ H1). lia.
      * by eapply Hblk.
    + intros x o' [[-> ->]|Hx]%Em.
      * specialize (Eo o). specialize (Hone o). lia.
      * specialize (Hob _ _ Hx). specialize (Eo o').
        destruct (decide (o' = o)) as [->|Hne]; [lia|].
        rewrite (Eother _ Hne) in Eo. lia.
    + intros x o' [[-> ->]|Hx]%Em; rewrite Ehp; [by apply Hol|by eapply Hml].
    + intros o' Ho. rewrite Ehp. apply Hol. specialize (Eo o').
      destruct (decide (o' = o)) as [->|Hne]; [lia|].
      rewrite (Eother _ Hne) in Eo. lia.
  - (* a new object *)
    set (o := fresh (dom (heap w))) in *.
    assert (heap w !! o = None) as Hfresh.
    { apply not_elem_of_dom. apply is_fresh. }
    assert (owners ths o = O) as Hno.
    { destruct (owners ths o) eqn:E; [done|].
      destruct (Hol o) as [? ?]; [lia|congruence]. }
    assert (forall hp x o', manages (set_heap hp w) x o' <-> manages w x o') as Em
      by by destruct w.
    assert (forall hp x, use_count (set_heap hp w) x = use_count w x) as Eu
      by by destruct w.
    assert (forall hp, queue (set_heap hp w) = queue w) as Eq by by destruct w.
    assert (forall o', is_Some (heap w !! o') ->
              is_Some (heap (set_heap (<[o:=Obj 0 0 None]> (heap w)) w) !! o')) as Ehp.
    { intros o' ?. destruct w; cbn in *. rewrite lookup_insert. by case_decide. }
    split.
    + intros x. unfold handles. rewrite Eu, Eq. specialize (Eh x).
      specialize (Hcnt x). unfold handles in Hcnt. lia.
    + intros o'. specialize (Eo o'). specialize (Hone o').
      rewrite count_of_cons in Eo. case_decide; [subst o'|]; lia.
    + intros x1 x2 o'. rewrite !Em. apply Hblk.
    + intros x o' Hx%Em. specialize (Eo o'). specialize (Hob _ _ Hx).
      rewrite count_of_cons in Eo. case_decide; [subst o'|lia].
      destruct (Hml _ _ Hx). congruence.
    + intros x o' Hx%Em. apply Ehp. by eapply Hml.
    + intros o' Ho. specialize (Eo o'). rewrite count_of_cons in Eo.
      destruct (decide (o' = o)) as [->|Hne].
      * destruct w; cbn. rewrite lookup_insert_eq. eauto.
      * apply Ehp, Hol. lia.
  - (* an object is freed *)
    destruct (take_out_count _ _ _ Hto) as [Eo1 Eother].
    assert (forall hp x o', manages (set_heap hp w) x o' <-> manages w x o') as Em
      by by destruct w.
    assert (forall hp x, use_count (set_heap hp w) x = use_count w x) as Eu
      by by destruct w.
    assert (forall hp, queue (set_heap hp w) = queue w) as Eq by by destruct w.
    assert (forall o', o' <> o -> is_Some (heap w !! o') ->
              is_Some (heap (set_heap (delete o (heap w)) w) !! o')) as Ehp.
    { intros o' ? ?. destruct w; cbn in *. by rewrite lookup_delete_ne. }
    assert ((0 < owners ths o)%nat) as Hown.
    { specialize (Lo o). lia. }
    split.
    + intros x. unfold handles. rewrite Eu, Eq. specialize (Eh x).
      specialize (Hcnt x). unfold handles in Hcnt. lia.
    + intros o'. specialize (Eo o'). specialize (Hone o').
      destruct (decide (o' = o)) as [->|Hne]; [lia|].
      rewrite (Eother _ Hne) in Eo. lia.
    + intros x1 x2 o'. rewrite !Em. apply Hblk.
    + intros x o' Hx%Em. specialize (Eo o'). specialize (Hob _ _ Hx).
      destruct (decide (o' = o)) as [->|Hne]; [lia|].
      rewrite (Eother _ Hne) in Eo. lia.
    + intros x o' Hx%Em. apply Ehp; [|by eapply Hml].
      intros ->. specialize (Hob _ _ Hx). lia.
    + intros o' Ho. specialize (Eo o'). specialize (Hone o').
      destruct (decide (o' = o)) as [->|Hne]; [lia|].
      rewrite (Eother _ Hne) in Eo. apply Ehp; [done|]. apply Hol. lia.
  - (* a functor is queued, with the handle bound in it *)
    assert (forall q x o', manages (set_queue q w) x o' <-> manages w x o') as Em
      by by destruct w.
    assert (forall q x, use_count (set_queue q w) x = use_count w x) as Eu
      by by destruct w.
    assert (forall q, queue (set_queue q w) = q) as Eq by by destruct w.
    assert (forall q, heap (set_queue q w) = heap w) as Ehp by by destruct w.
    split.
    + intros x. unfold handles. rewrite Eu, Eq, queued_handles_app. cbn.
      specialize (Eh x). specialize (Hcnt x). unfold handles in Hcnt.
      destruct p as [cb|]; cbn.
      * destruct (take_out_count _ _ _ Hto) as [Ecb Eother].
        rewrite count_of_cons. change (count_of x []) with O.
        destruct (decide (x = cb)) as [->|Hne]; [lia|].
        rewrite (Eother _ Hne) in Eh. lia.
      * subst held'. change (count_of x []) with O. lia.
    + intros o. specialize (Eo o). specialize (Hone o). lia.
    + intros x1 x2 o. rewrite !Em. apply Hblk.
    + intros x o Hx%Em. specialize (Eo o). specialize (Hob _ _ Hx). lia.
    + intros x o Hx%Em. rewrite Ehp. by eapply Hml.
    + intros o Ho. rewrite Ehp. apply Hol. specialize (Eo o). lia.
Qed.

Lemma sys_step_consistent s s' :
  consistent (sys_world s) (sys_threads s) ->
  sys_step CM_DEBUG_MODE s s' ->
  consistent (sys_world s') (sys_threads s').
Proof.
  intros Hc Hs. destruct Hs as [w ths t th w' th' Ht Hst|w ths th c q Ht Hret Hq
                                |w ths t Hw]; cbn [sys_world sys_threads] in *.
  - destruct th' as [c' h' ow'].
    eapply owner_step_consistent; [done|done|].
    by apply (step_owner_step _ _ _ _ _ _ Hst).
  - destruct Hc as [Hcnt Hone Hblk Hob Hml Hol].
    set (th' := Thread (run_command c)
                  (bound_handles (cmd_bound c) ++ th_held th) (th_owned th)).
    pose proof (fun x => total_insert (fun th => count_of x (th_held th))
                           _ _ _ th' Ht) as Eh.
    pose proof (fun x => total_insert (fun th => count_of x (th_owned th))
                           _ _ _ th' Ht) as Eo.
    cbn [th_held th_owned th'] in Eh, Eo. fold th'.
    assert (forall x o', manages (set_queue q w) x o' <-> manages w x o') as Em
      by by destruct w.
    assert (forall x, use_count (set_queue q w) x = use_count w x) as Eu
      by by destruct w.
    assert (queue (set_queue q w) = q) as Eq by by destruct w.
    assert (heap (set_queue q w) = heap w) as Ehp by by destruct w.
    assert (coreThreadId (set_queue q w) = coreThreadId w) as Ec by by destruct w.
    split.
    + intros x. unfold handles. rewrite Eu, Eq. specialize (Eh x).
      specialize (Hcnt x). unfold handles in Hcnt. rewrite Hq in Hcnt.
      cbn in Hcnt. rewrite count_of_app in Eh. lia.
    + intros o. specialize (Eo o). specialize (Hone o). unfold owners in *. lia.
    + intros x1 x2 o. rewrite !Em. apply Hblk.
    + intros x o Hx%Em. specialize (Eo o). specialize (Hob _ _ Hx).
      unfold owners in *. lia.
    + intros x o Hx%Em. rewrite Ehp. by eapply Hml.
    + intros o Ho. rewrite Ehp. apply Hol. specialize (Eo o).
      unfold owners in *. lia.
  - destruct Hc as [Hcnt Hone Hblk Hob Hml Hol].
    split; try done; by destruct w.
Qed.

Lemma reachable_consistent s s' :
  consistent (sys_world s) (sys_threads s) ->
  reachable CM_DEBUG_MODE s s' ->
  consistent (sys_world s') (sys_threads s').
Proof.
  intros Hc Hr. induction Hr as [|s1 s2 s3 Hs _ IH]; [done|].
  apply IH. by eapply sys_step_consistent.
Qed.

Lemma queued_handles_elem cb c q :
  c ∈ q -> cmd_bound c = Some cb -> (0 < queued_handles cb q)%nat.
Proof.
  intros Hin Hb. induction Hin as [c q|c c' q _ IH]; cbn.
  - rewrite Hb. cbn. rewrite count_of_cons, decide_True by done. lia.
  - specialize (IH Hb). lia.
Qed.

(** A counted handle has a control block with a positive count, whose
    object is live. *)
Lemma counted_handle_live w ths cb :
  consistent w ths -> (0 < handles w ths cb)%nat ->
  exists o, manages w cb o /\ is_Some (heap w !! o).
Proof.
  intros Hc Hh. pose proof (counted _ _ Hc cb) as Hle.
  unfold use_count in Hle. destruct (blocks w !! cb) as [c|] eqn:Hb; [|lia].
  assert (manages w cb (managed c)) as Hm.
  { exists c. split; [done|split; [done|lia]]. }
  exists (managed c). split; [done|]. by eapply managed_live.
Qed.

(** The last external handle of an Initialized resource is dropped,
    away from the core thread: the deleter gives the object a new
    handle, binds it as the self reference and calls [destroy], which
    queues the functor with a copy of the new handle.  The object stays
    live and Initialized. *)
Lemma last_release_resurrects t w o ob cb c held owned :
  heap w !! o = Some ob ->
  blocks w !! cb = Some c -> managed c = o -> strong c = 1%nat ->
  ctrl_deleter c = DeleteDelayed ->
  fInitOnCoreThread (mFlags ob) = true ->
  fInitialized (mFlags ob) = true ->
  fScheduledForInit (mFlags ob) = false ->
  t <> coreThreadId w ->
  let cb' := fresh (dom (blocks w)) in
  exists w1 ob1,
    run CM_DEBUG_MODE 24 t w (Thread (sp_release (Some cb)) (cb :: held) owned)
      = Returned w1 (Thread Ret held owned)
    /\ queue w1 = queue w ++ [destroy_command CM_DEBUG_MODE (Some cb') (Some o)]
    /\ heap w1 !! o = Some ob1 /\ mThis ob1 = Some cb'
    /\ blocks w1 !! cb' = Some (Ctrl o 1 DefaultDelete)
    /\ use_count w1 cb = O
    /\ mFlags ob1 = setFlag (mFlags ob) CGO_SCHEDULED_FOR_DELETE true
    /\ coreThreadId w1 = coreThreadId w.
Proof.
  intros Ho Hc Hm Hs Hd Hr Hi Hsc Hcore cb'.
  assert (cb' <> cb) as Hne.
  { intros E. pose proof (is_fresh (dom (blocks w))) as Hf. fold cb' in Hf.
    rewrite E in Hf. apply Hf, elem_of_dom. eauto. }
  open_world w. fold cb' in Hne |- *.
  assert (forall x, dom (<[cb:=x]> bl) = dom bl) as Edom.
  { intros x. apply dom_insert_lookup_L. eauto. }
  destruct CM_DEBUG_MODE; exec; rewrite !Edom; fold cb';
    (do 2 eexists; split; [reflexivity|]);
    unfold use_count; cbn;
    rewrite ?lookup_insert_eq, ?(lookup_insert_ne _ cb' cb) by done;
    rewrite ?lookup_insert_eq; cbn;
    repeat split.
Qed.

(** The last handle of a resource that is not Initialized is dropped,
    the control block having the plain deleter: the destructor passes
    and the storage is given back. *)
Lemma last_release_frees t w o ob cb c held owned :
  heap w !! o = Some ob -> mThis ob = Some cb ->
  blocks w !! cb = Some c -> managed c = o -> strong c = 1%nat ->
  ctrl_deleter c = DefaultDelete ->
  fInitialized (mFlags ob) = false ->
  run CM_DEBUG_MODE 12 t w (Thread (sp_release (Some cb)) (cb :: held) owned)
    = Returned (freed o cb w) (Thread Ret held owned)
  /\ heap (freed o cb w) !! o = None.
Proof.
  intros Ho Ht Hc Hm Hs Hd Hi. unfold freed. rewrite Ho, Hc. open_world w.
  split; [|by rewrite lookup_delete_eq].
  destruct CM_DEBUG_MODE; exec; reflexivity.
Qed.

Lemma upd_flags_lookup w o ob g :
  heap w !! o = Some ob ->
  heap (upd_flags o g w) !! o = Some (set_mFlags (g (mFlags ob)) ob)
  /\ blocks (upd_flags o g w) = blocks w.
Proof.
  intros Ho. unfold upd_flags. rewrite Ho. destruct w; cbn.
  by rewrite lookup_insert_eq.
Qed.
End Consistency.

(** * Concrete runs *)


Lemma sample_lookup f : heap (sample_world f) !! 1%positive = Some (sample_object f).
Proof. reflexivity. Qed.

Lemma sample_block f :
  blocks (sample_world f) !! 1%positive = Some (Ctrl 1 1 DeleteDelayed).
Proof. reflexivity. Qed.

(** C9 on the core thread, debug build. *)
Lemma synchronize_initialized_returns_witness :
  (heap (sample_world 3) !! 1%positive = Some (sample_object 3) /\
   fInitialized (mFlags (sample_object 3)) = true) /\
  run true 1 0%nat (sample_world 3) (Thread (synchronize true 1) [] [])
  = Returned (sample_world 3) (Thread Ret [] []).
Proof.
  assert (heap (sample_world 3) !! 1%positive = Some (sample_object 3)) as H1
    by reflexivity.
  assert (fInitialized (mFlags (sample_object 3)) = true) as H2 by reflexivity.
  split; [by split|].
  apply (proj2 (synchronize_initialized_returns true 0%nat (sample_world 3)
                  1%positive (sample_object 3) [] [] H1 H2) 0%nat).
Defined.

(** C3 on a resource without the core-thread flag, release build. *)
Lemma synchronous_initialize_destroy_witness :
  (heap (sample_world 0) !! 1%positive = Some (sample_object 0) /\
   fInitOnCoreThread (mFlags (sample_object 0)) = false) /\
  run false 8 1%nat (sample_world 0) (Thread (initialize false 1) [] [])
  = Returned (sample_world 1) (Thread Ret [] []).
Proof.
  assert (heap (sample_world 0) !! 1%positive = Some (sample_object 0)) as H1
    by reflexivity.
  assert (fInitOnCoreThread (mFlags (sample_object 0)) = false) as H2
    by reflexivity.
  split; [by split|].
  rewrite (proj1 (synchronous_initialize_destroy false 1%nat (sample_world 0)
                    1%positive (sample_object 0) [] [] H1 H2)).
  vm_compute. reflexivity.
Defined.

(** C6 on a caller thread, debug build. *)
Lemma synchronize_unscheduled_throws_witness :
  (heap (sample_world 2) !! 1%positive = Some (sample_object 2) /\
   fInitialized (mFlags (sample_object 2)) = false /\
   fScheduledForInit (mFlags (sample_object 2)) = false /\
   mutex (sample_world 2) = None) /\
  run true 8 1%nat (sample_world 2) (Thread (synchronize true 1) [] [])
  = Threw Msg.not_scheduled (sample_world 2)
      (Thread (Throw Msg.not_scheduled) [] []).
Proof.
  assert (heap (sample_world 2) !! 1%positive = Some (sample_object 2)) as H1
    by reflexivity.
  assert (fInitialized (mFlags (sample_object 2)) = false) as H2 by reflexivity.
  assert (fScheduledForInit (mFlags (sample_object 2)) = false) as H3
    by reflexivity.
  assert (mutex (sample_world 2) = None) as H4 by reflexivity.
  split; [done|].
  rewrite (proj1 (synchronize_unscheduled_throws true 1%nat (sample_world 2)
                    1%positive (sample_object 2) [] [] H1 H2 H3 H4)).
  reflexivity.
Defined.

(** C7: on the core thread, an Initialized resource, debug build: the
    call returns. *)
Lemma core_thread_synchronize_returns_counterexample :
  coreThreadId (sample_world 3) = 0%nat /\
  run true 8 0%nat (sample_world 3) (Thread (synchronize true 1) [] [])
  = Returned (sample_world 3) (Thread Ret [] []).
Proof. split; reflexivity. Qed.

Lemma synchronize_on_core_thread_witness :
  (heap (sample_world 6) !! 1%positive = Some (sample_object 6) /\
   fInitialized (mFlags (sample_object 6)) = false /\
   fInitOnCoreThread (mFlags (sample_object 6)) = true) /\
  run true 8 0%nat (sample_world 6) (Thread (synchronize true 1) [] [])
  = Threw Msg.deadlock (sample_world 6) (Thread (Throw Msg.deadlock) [] []).
Proof.
  assert (heap (sample_world 6) !! 1%positive = Some (sample_object 6)) as H1
    by reflexivity.
  assert (fInitialized (mFlags (sample_object 6)) = false) as H2 by reflexivity.
  assert (fInitOnCoreThread (mFlags (sample_object 6)) = true) as H3
    by reflexivity.
  split; [done|].
  apply (proj1 (synchronize_on_core_thread true (sample_world 6) 1%positive
                  (sample_object 6) [] [] H1 H2 H3) eq_refl).
Defined.

(** C5: a raw object that needs the core thread is initialised away from
    it, which leaves it scheduled and not Initialized, and then deleted:
    the destructor passes, in the debug build, and the storage is given
    back while the functor is still queued. *)
Lemma destructor_while_scheduled_counterexample :
  (exists w th,
     take_steps true 12 1%nat empty_world (Thread raw_client [] []) = Some (w, th)
     /\ stage w 1%positive = Some (false, true, false)
     /\ run true 8 1%nat w (Thread (CoreObject_dtor true 1) [] [])
        = Returned (set_registry ∅ 1 w) (Thread Ret [] []))
  /\ exists w,
       run true 40 1%nat empty_world (Thread raw_client [] [])
       = Returned w (Thread Ret [] [])
       /\ heap w !! 1%positive = None /\ length (queue w) = 1%nat.
Proof.
  split.
  - do 2 eexists. split; [vm_compute; reflexivity|].
    split; vm_compute; reflexivity.
  - eexists. split; [vm_compute; reflexivity|]. split; reflexivity.
Qed.

Lemma destructor_check_witness :
  heap (sample_world 11) !! 1%positive = Some (sample_object 11) /\
  run true 8 0%nat (sample_world 11) (Thread (CoreObject_dtor true 1) [] [])
  = Threw Msg.not_destroyed (sample_world 11)
      (Thread (Throw Msg.not_destroyed) [] []).
Proof.
  assert (heap (sample_world 11) !! 1%positive = Some (sample_object 11)) as H1
    by reflexivity.
  split; [done|].
  rewrite (destructor_check true 0%nat (sample_world 11) 1%positive
             (sample_object 11) [] [] H1).
  reflexivity.
Defined.

(** C8 on a caller thread: the functor is queued with the handle. *)
Lemma self_reference_precondition_witness :
  (heap (sample_world 2) !! 1%positive = Some (sample_object 2) /\
   fInitOnCoreThread (mFlags (sample_object 2)) = true) /\
  run true 12 1%nat (sample_world 2) (Thread (initialize true 1) [] [])
  = Returned
      (push_command (init_command (Some 1%positive) (Some 1%positive))
         (upd_count 1 S
            (upd_flags 1 (fun f => setFlag f CGO_SCHEDULED_FOR_INIT true)
               (sample_world 2))))
      (Thread Ret [] []).
Proof.
  assert (heap (sample_world 2) !! 1%positive = Some (sample_object 2)) as H1
    by reflexivity.
  assert (fInitOnCoreThread (mFlags (sample_object 2)) = true) as H2
    by reflexivity.
  split; [done|].
  refine (proj1 (proj1 (proj1 (self_reference_precondition true 1%nat
            (sample_world 2) 1%positive (sample_object 2) [] [] H1 H2)
            1%positive (Ctrl 1 1 DeleteDelayed) eq_refl eq_refl eq_refl _)
            eq_refl eq_refl) _).
  - cbn. lia.
  - discriminate.
Defined.

(** C10: a waiter woken after the resource was initialised and
    destroyed again. *)
Lemma synchronize_rechecks_on_wakeup_witness :
  heap (sample_world 10) !! 1%positive = Some (sample_object 10) /\
  run true 8 1%nat (sample_world 10) (Thread (synchronize_parked 1) [] [])
  = Threw Msg.not_scheduled (sample_world 10)
      (Thread (Throw Msg.not_scheduled) [] []).
Proof.
  assert (heap (sample_world 10) !! 1%positive = Some (sample_object 10)) as H1
    by reflexivity.
  split; [done|].
  rewrite (proj2 (proj2 (synchronize_rechecks_on_wakeup true 1%nat
             (sample_world 10) 1%positive (sample_object 10) [] [] H1))).
  - reflexivity.
  - vm_compute. set_solver.
  - reflexivity.
Defined.

(** C1 on the sample world, debug build. *)
Lemma deferred_initialization_witness :
  (heap (sample_world 2) !! 1%positive = Some (sample_object 2) /\
   mThis (sample_object 2) = Some 1%positive /\
   blocks (sample_world 2) !! 1%positive = Some (Ctrl 1 1 DeleteDelayed) /\
   (0 < strong (Ctrl 1 1 DeleteDelayed))%nat /\
   fInitOnCoreThread (mFlags (sample_object 2)) = true /\
   fInitialized (mFlags (sample_object 2)) = false /\
   fScheduledForInit (mFlags (sample_object 2)) = false /\
   1%nat <> coreThreadId (sample_world 2)) /\
  exists w1,
    run true 12 1%nat (sample_world 2) (Thread (initialize true 1) [] [])
    = Returned w1 (Thread Ret [] [])
    /\ stage w1 1%positive = Some (false, true, false).
Proof.
  assert (heap (sample_world 2) !! 1%positive = Some (sample_object 2)) as H1
    by reflexivity.
  assert (blocks (sample_world 2) !! 1%positive = Some (Ctrl 1 1 DeleteDelayed))
    as H2 by reflexivity.
  assert ((0 < strong (Ctrl 1 1 DeleteDelayed))%nat) as H3 by (cbn; lia).
  assert (1%nat <> coreThreadId (sample_world 2)) as H4 by discriminate.
  split; [done|].
  eexists.
  exact (proj1 (deferred_initialization true 1%nat (sample_world 2) 1%positive
                  (sample_object 2) 1%positive (Ctrl 1 1 DeleteDelayed) [] []
                  H1 eq_refl H2 eq_refl H3 eq_refl eq_refl eq_refl H4)).
Defined.

(** C4: the lifecycle of the sample client, replayed up to the return of
    [destroy]: the resource is Initialized and scheduled for deletion. *)
Lemma lifecycle_states_overlap_counterexample :
  ~ (forall s o st,
       reachable true lifecycle_system s ->
       stage (sys_world s) o = Some st -> exclusive_stage st).
Proof.
  intros Hex.
  destruct (sys_run true lifecycle_schedule lifecycle_system) as [s|] eqn:Hs;
    [|by vm_compute in Hs].
  pose proof (sys_run_reachable true _ _ _ Hs) as Hr.
  assert (stage (sys_world s) 1%positive = Some (true, false, true)) as Hst.
  { vm_compute in Hs. injection Hs as <-. vm_compute. reflexivity. }
  specialize (Hex s 1%positive _ Hr Hst). unfold exclusive_stage in Hex.
  cbn in Hex. lia.
Qed.

Lemma lifecycle_bits_by_operation_witness :
  (heap (sample_world 3) !! 1%positive = Some (sample_object 3) /\
   blocks (sample_world 3) !! 1%positive = Some (Ctrl 1 1 DeleteDelayed) /\
   (0 < strong (Ctrl 1 1 DeleteDelayed))%nat /\
   fInitOnCoreThread (mFlags (sample_object 3)) = true /\
   1%nat <> coreThreadId (sample_world 3)) /\
  exists w',
    run true 12 1%nat (sample_world 3) (Thread (destroy true 1) [] [])
    = Returned w' (Thread Ret [] [])
    /\ stage w' 1%positive = Some (true, false, true).
Proof.
  assert (heap (sample_world 3) !! 1%positive = Some (sample_object 3)) as H1
    by reflexivity.
  assert (blocks (sample_world 3) !! 1%positive = Some (Ctrl 1 1 DeleteDelayed))
    as H2 by reflexivity.
  assert ((0 < strong (Ctrl 1 1 DeleteDelayed))%nat) as H3 by (cbn; lia).
  assert (1%nat <> coreThreadId (sample_world 3)) as H4 by discriminate.
  split; [done|].
  exact (proj1 (proj2 (proj2 (lifecycle_bits_by_operation true 1%nat
           (sample_world 3) 1%positive (sample_object 3) 1%positive
           (Ctrl 1 1 DeleteDelayed) [] [] H1 eq_refl H2 eq_refl H3 eq_refl H4)))).
Defined.

Lemma replay_reachable es s : reachable true s (replay es s).
Proof.
  unfold replay. destruct (sys_run true es s) as [s'|] eqn:E; cbn.
  - by eapply sys_run_reachable.
  - apply rtc_refl.
Qed.

Lemma lifecycle_system_consistent :
  consistent (sys_world lifecycle_system) (sys_threads lifecycle_system).
Proof.
  assert (forall cb o, ~ manages empty_world cb o) as Hno.
  { intros cb o (c & Hc & _). cbn in Hc. by rewrite lookup_empty in Hc. }
  split; cbn.
  - intros cb. vm_compute. lia.
  - intros o. vm_compute. lia.
  - intros cb1 cb2 o H1. by destruct (Hno _ _ H1).
  - intros cb o H1. by destruct (Hno _ _ H1).
  - intros cb o H1. by destruct (Hno _ _ H1).
  - intros o. vm_compute. lia.
Qed.

(** The case named by C10, replayed: the resource is initialised and
    destroyed while the waiter is parked; woken by the broadcast, the
    waiter finds it neither Initialized nor scheduled, and raises. *)
Lemma waiter_outlived_by_resource :
  exists s th,
    reachable true waiter_system s
    /\ stage (sys_world s) 1%positive = Some (false, false, true)
    /\ sys_threads s !! 2%nat = Some th
    /\ th_code th = Throw Msg.not_scheduled
    /\ mutex (sys_world s) = None.
Proof.
  destruct (sys_run true waiter_schedule waiter_system) as [s|] eqn:Hs;
    [|by vm_compute in Hs].
  pose proof (sys_run_reachable true _ _ _ Hs) as Hr.
  vm_compute in Hs. injection Hs as <-.
  do 2 eexists. split; [exact Hr|]. repeat split; vm_compute; reflexivity.
Qed.

(** * Construction, commands and the wait protocol *)

(** ** Construction and the debug guards *)

Lemma hasFlag_zero m : hasFlag 0 m = false.
Proof. unfold hasFlag. by rewrite Z.land_0_l. Qed.

Section ConstructionFacts.
Context `{FlagLayout}.
Variable CM_DEBUG_MODE : bool.

Lemma flags_zero :
  fInitialized 0 = false /\ fInitOnCoreThread 0 = false /\
  fScheduledForInit 0 = false /\ fScheduledForDelete 0 = false.
Proof. repeat split; apply hasFlag_zero. Qed.

(** The constructor: whatever follows it, [new CoreObject(b)] takes the
    next free address, registers the object and stores the identity it
    was given; the new object is neither Initialized nor scheduled, its
    self reference is empty, and it needs the core thread exactly when
    [b] is set.  No other object is touched. *)
Theorem constructor_state (b : bool) t w held owned k :
  let o := fresh (dom (heap w)) in
  let w' := constructed b w in
  take_steps CM_DEBUG_MODE (if b then 4 else 3) t w
      (Thread (CoreObject_new b k) held owned)
    = Some (w', Thread (k o) held (o :: owned))
  /\ heap w !! o = None
  /\ (exists ob,
        heap w' !! o = Some ob /\ mThis ob = None
        /\ registry w' !! mInternalID ob = Some o
        /\ fInitOnCoreThread (mFlags ob) = b
        /\ stage w' o = Some (false, false, false))
  /\ (forall o', o' <> o -> heap w' !! o' = heap w !! o')
  /\ blocks w' = blocks w /\ queue w' = queue w.
Proof.
  intros o w'. subst w'. unfold constructed. fold o.
  assert (heap w !! o = None) as Hfresh.
  { apply not_elem_of_dom. apply is_fresh. }
  destruct flags_zero as (Zi & Zr & Zs & Zd).
  open_world w. fold o in Hfresh |- *.
  split; [|split; [done|split; [|split]]].
  - destruct b; unfold step; cbn; fold o; rewrite ?lookup_insert_eq; cbn;
      rewrite ?lookup_insert_eq; cbn; rewrite ?insert_insert_eq; reflexivity.
  - eexists. split; [apply lookup_insert_eq|]. cbn.
    split; [done|]. split; [apply lookup_insert_eq|].
    unfold stage, flags_of. cbn. rewrite lookup_insert_eq. cbn.
    destruct b; autorewrite with flags; rewrite ?Zi, ?Zr, ?Zs, ?Zd; done.
  - intros o' Hne. by rewrite lookup_insert_ne.
  - done.
Qed.

(** The constructor and the destructor: an object that was never initialised
    can be deleted as it is.  [new] followed by [delete] returns in both
    builds; the heap and the registry are what they were, and only the
    next identity has moved on. *)
Theorem construct_then_delete (b : bool) t w held owned :
  registry w !! nextId w = None ->
  run CM_DEBUG_MODE 12 t w
      (Thread (CoreObject_new b (delete_object CM_DEBUG_MODE)) held owned)
    = Returned (set_registry (registry w) (nextId w + 1) w)
        (Thread Ret held owned).
Proof.
  intros Hreg.
  assert (heap w !! fresh (dom (heap w)) = None) as Hfresh.
  { apply not_elem_of_dom. apply is_fresh. }
  destruct flags_zero as (Zi & Zr & Zs & Zd).
  open_world w. set (o := fresh (dom hp)) in *.
  unfold CoreObject_new.
  destruct b, CM_DEBUG_MODE; exec; fold o; exec; rewrite ?Zi; exec.
  all: rewrite ?insert_insert_eq, ?delete_insert_eq, ?delete_id by done;
    reflexivity.
Qed.

(** [initialize], the debug guard: in a debug build a second
    [initialize] is refused on every thread and for both kinds of
    resource, before anything is written.  A release build has no such
    guard: away from the core thread the call schedules the resource
    and queues the functor again. *)
Theorem initialize_again t w o ob held owned :
  heap w !! o = Some ob ->
  fInitialized (mFlags ob) || fScheduledForInit (mFlags ob) = true ->
  run true 4 t w (Thread (initialize true o) held owned)
    = Threw Msg.already_initialized w
        (Thread (Throw Msg.already_initialized) held owned)
  /\ forall cb c,
       mThis ob = Some cb -> blocks w !! cb = Some c -> managed c = o ->
       (0 < strong c)%nat ->
       fInitOnCoreThread (mFlags ob) = true -> t <> coreThreadId w ->
       run false 12 t w (Thread (initialize false o) held owned)
         = Returned
             (push_command (init_command (Some cb) (Some o))
                (upd_count cb S
                   (upd_flags o (fun f => setFlag f CGO_SCHEDULED_FOR_INIT true) w)))
             (Thread Ret held owned).
Proof.
  intros Ho Hf. split.
  - destruct (fInitialized (mFlags ob)) eqn:Hi; exec; [done|].
    cbn in Hf. exec. done.
  - intros cb c Ht Hc Hm Hs Hr Hcore. clear Hf.
    open_world w. destruct (strong c) as [|n] eqn:Hn; [lia|].
    exec; same_world.
Qed.

(** [destroy_internal], the debug guard: [destroy] of a resource
    that is not Initialized.  In a debug build the direct path on the
    core thread raises after the deletion bit has been set, and the
    queued functor raises and leaves the world as it was: the copy of
    the handle made by [executeGpuCommand] is released on the way out.
    A release build clears the bit that is already clear. *)
Theorem destroy_uninitialized w o ob cb c held owned :
  heap w !! o = Some ob -> mThis ob = Some cb ->
  blocks w !! cb = Some c -> managed c = o -> (0 < strong c)%nat ->
  fInitOnCoreThread (mFlags ob) = true ->
  fInitialized (mFlags ob) = false ->
  run true 12 (coreThreadId w) w (Thread (destroy true o) held owned)
    = Threw Msg.already_destroyed
        (upd_flags o (fun f => setFlag f CGO_SCHEDULED_FOR_DELETE true) w)
        (Thread (Throw Msg.already_destroyed) held owned)
  /\ (forall t,
        run true 12 t w
            (Thread (cmd_call (destroy_command true (Some cb) (Some o)))
                    (cb :: held) owned)
          = Threw Msg.already_destroyed w
              (Thread (Throw Msg.already_destroyed) (cb :: held) owned))
  /\ (forall t,
        run false 12 t w
            (Thread (cmd_call (destroy_command false (Some cb) (Some o)))
                    (cb :: held) owned)
          = Returned (upd_flags o (fun f => setFlag f CGO_INITIALIZED false) w)
              (Thread Ret (cb :: held) owned))
  /\ stage (upd_flags o (fun f => setFlag f CGO_INITIALIZED false) w) o
     = stage w o.
Proof.
  intros Ho Ht Hc Hm Hs Hr Hi.
  open_world w. destruct (strong c) as [|n] eqn:Hn; [lia|].
  split; [|split; [|split]].
  - exec; same_world.
  - intros t. exec; same_world.
  - intros t. exec; same_world.
  - unfold stage, flags_of, upd_flags. cbn. rewrite Ho. cbn.
    rewrite lookup_insert_eq. cbn. autorewrite with flags. by rewrite Hi.
Qed.

(** [_deleteDelayedInternal]: the hook of the deleter writes
    nothing.  In a debug build it raises when the object is scheduled
    for initialisation, whatever its other bits; in a release build it
    is empty. *)
Theorem deleter_hook_check NDEBUG t w o ob held owned :
  heap w !! o = Some ob ->
  run CM_DEBUG_MODE 4 t w
      (Thread (_deleteDelayedInternal CM_DEBUG_MODE NDEBUG (Some o)) held owned)
    = if CM_DEBUG_MODE && fScheduledForInit (mFlags ob)
      then Threw Msg.deleted_while_scheduled w
             (Thread (Throw Msg.deleted_while_scheduled) held owned)
      else Returned w (Thread Ret held owned).
Proof.
  intros Ho. destruct CM_DEBUG_MODE; exec; [|done].
  destruct (fScheduledForInit (mFlags ob)); exec; done.
Qed.

(** On a null argument the hook returns only in a build that has
    neither the [assert] nor the debug check. *)
Lemma deleter_hook_null NDEBUG t w held owned :
  run CM_DEBUG_MODE 4 t w
      (Thread (_deleteDelayedInternal CM_DEBUG_MODE NDEBUG None) held owned)
    = if NDEBUG && negb CM_DEBUG_MODE
      then Returned w (Thread Ret held owned)
      else Crashed w (Thread Fault held owned).
Proof. destruct NDEBUG, CM_DEBUG_MODE; exec; done. Qed.

(** [queueGpuCommand], [queueReturnGpuCommand]: on every thread,
    the core thread included, the call runs nothing of [func]: it puts
    one functor at the back of the queue, behind what was queued
    before, and the handle stored in the functor is a new copy, so the
    count goes up by one and the caller keeps what it held. *)
Theorem queueGpuCommand_enqueues t w cb c func held owned :
  blocks w !! cb = Some c -> cb ∈ held ->
  let queued f := push_command (Cmd (Some cb) f) (upd_count cb S w) in
  run CM_DEBUG_MODE 4 t w
      (Thread (queueGpuCommand (Some cb) func) held owned)
    = Returned (queued (executeGpuCommand (Some cb) func)) (Thread Ret held owned)
  /\ run CM_DEBUG_MODE 4 t w
       (Thread (queueReturnGpuCommand (Some cb) func) held owned)
    = Returned (queued (executeReturnGpuCommand (Some cb) func))
        (Thread Ret held owned)
  /\ (forall f, queue (queued f) = queue w ++ [Cmd (Some cb) f]
                /\ use_count (queued f) cb = S (use_count w cb)
                /\ heap (queued f) = heap w).
Proof.
  intros Hc Hin queued. subst queued.
  apply (bool_decide_eq_true_2 (cb ∈ held)) in Hin.
  open_world w. unfold queueGpuCommand, queueReturnGpuCommand, upd_count, use_count.
  cbn. rewrite Hc. cbn.
  split; [|split].
  - exec. rewrite Hin. exec. reflexivity.
  - exec. rewrite Hin. exec. reflexivity.
  - intros f. rewrite lookup_insert_eq. done.
Qed.
End ConstructionFacts.

(** ** Composition of runs *)

Lemma follows_seq c2 c : follows c2 (seq c c2) c.
Proof. induction c; cbn; by constructor. Qed.

Lemma follows_prefix c2 p u c :
  follows c2 u c -> follows c2 (seq p u) (seq p c).
Proof. intros F. induction p; cbn; try by constructor. done. Qed.

Lemma protects_refl c : protects c c.
Proof. induction c; by constructor. Qed.

Lemma protects_unwind c cleanup : protects (unwind c cleanup) c.
Proof. induction c; cbn; by constructor. Qed.

Lemma protects_seq u1 c1 u2 c2 :
  protects u1 c1 -> protects u2 c2 -> protects (seq u1 u2) (seq c1 c2).
Proof.
  intros P1 P2. induction P1; cbn; try by constructor. done.
Qed.

Section Composition.
Context `{FlagLayout}.
Variable CM_DEBUG_MODE : bool.

Lemma follows_step c2 t w u c h ow w1 c1 h1 ow1 :
  follows c2 u c ->
  step CM_DEBUG_MODE t w (Thread c h ow) = Some (w1, Thread c1 h1 ow1) ->
  exists u1, step CM_DEBUG_MODE t w (Thread u h ow) = Some (w1, Thread u1 h1 ow1)
             /\ follows c2 u1 c1.
Proof.
  intros F. unfold step. cbn.
  destruct F as [|m| |a k k' Hk|o te b k k' Hk|p f k k' Hk]; cbn; try done.
  - destruct (do_action CM_DEBUG_MODE t w h ow a) as [| |w' h' ow' r pre];
      [done| |]; intros [= <- <- <- <-]; eexists; (split; [reflexivity|]).
    + constructor.
    + by apply follows_prefix.
  - destruct (heap w !! o) as [ob|]; intros [= <- <- <- <-];
      eexists; (split; [reflexivity|]); [|constructor].
    destruct (te (mFlags ob)); [|done].
    apply follows_prefix. by constructor.
  - destruct p as [cb|].
    + destruct (take_out cb h); intros [= <- <- <- <-];
        eexists; (split; [reflexivity|]); [done|constructor].
    + intros [= <- <- <- <-]. eexists; (split; [reflexivity|]). done.
Qed.

Lemma protects_step t w u c h ow w1 c1 h1 ow1 :
  protects u c ->
  step CM_DEBUG_MODE t w (Thread c h ow) = Some (w1, Thread c1 h1 ow1) ->
  exists u1, step CM_DEBUG_MODE t w (Thread u h ow) = Some (w1, Thread u1 h1 ow1)
             /\ protects u1 c1.
Proof.
  intros P. unfold step. cbn.
  destruct P as [|u m| |a k k' Hk|o te b b' k k' Hb Hk|p f k k' Hk]; cbn; try done.
  - destruct (do_action CM_DEBUG_MODE t w h ow a) as [| |w' h' ow' r pre];
      [done| |]; intros [= <- <- <- <-]; eexists; (split; [reflexivity|]).
    + constructor.
    + apply protects_seq; [apply protects_refl|done].
  - destruct (heap w !! o) as [ob|]; intros [= <- <- <- <-];
      eexists; (split; [reflexivity|]); [|constructor].
    destruct (te (mFlags ob)); [|done].
    apply protects_seq; [done|]. by constructor.
  - destruct p as [cb|].
    + destruct (take_out cb h); intros [= <- <- <- <-];
        eexists; (split; [reflexivity|]); [done|constructor].
    + intros [= <- <- <- <-]. eexists; (split; [reflexivity|]). done.
Qed.

Lemma follows_take_steps c2 n : forall t w u c h ow w1 c1 h1 ow1,
  follows c2 u c ->
  take_steps CM_DEBUG_MODE n t w (Thread c h ow) = Some (w1, Thread c1 h1 ow1) ->
  exists u1, take_steps CM_DEBUG_MODE n t w (Thread u h ow)
               = Some (w1, Thread u1 h1 ow1)
             /\ follows c2 u1 c1.
Proof.
  induction n as [|n IH]; intros t w u c h ow w1 c1 h1 ow1 F; cbn.
  - intros [= <- <- <- <-]. eauto.
  - destruct (step CM_DEBUG_MODE t w (Thread c h ow)) as [[w2 [c2' h2 ow2]]|] eqn:E;
      [|done].
    destruct (follows_step _ _ _ _ _ _ _ _ _ _ _ F E) as (u2 & -> & F2).
    by apply IH.
Qed.

Lemma protects_take_steps n : forall t w u c h ow w1 c1 h1 ow1,
  protects u c ->
  take_steps CM_DEBUG_MODE n t w (Thread c h ow) = Some (w1, Thread c1 h1 ow1) ->
  exists u1, take_steps CM_DEBUG_MODE n t w (Thread u h ow)
               = Some (w1, Thread u1 h1 ow1)
             /\ protects u1 c1.
Proof.
  induction n as [|n IH]; intros t w u c h ow w1 c1 h1 ow1 P; cbn.
  - intros [= <- <- <- <-]. eauto.
  - destruct (step CM_DEBUG_MODE t w (Thread c h ow)) as [[w2 [c2' h2 ow2]]|] eqn:E;
      [|done].
    destruct (protects_step _ _ _ _ _ _ _ _ _ _ P E) as (u2 & -> & P2).
    by apply IH.
Qed.

Lemma run_step n t w th w' th' :
  step CM_DEBUG_MODE t w th = Some (w', th') ->
  run CM_DEBUG_MODE (S n) t w th = run CM_DEBUG_MODE n t w' th'.
Proof.
  destruct th as [c h ow]. unfold step. cbn. destruct c; try done.
  - rewrite run_act.
    destruct (do_action CM_DEBUG_MODE t w h ow a); [done| |];
      intros [= <- <-]; [by rewrite run_fault|done].
  - rewrite run_while.
    destruct (heap w !! o); intros [= <- <-]; [done|by rewrite run_fault].
  - destruct bound as [cb|].
    + rewrite run_enqueue_some.
      destruct (take_out cb h); intros [= <- <-]; [done|by rewrite run_fault].
    + rewrite run_enqueue_none. by intros [= <- <-].
Qed.

(** [run] follows the steps. *)
Lemma run_take_steps n : forall m t w th w1 th1,
  take_steps CM_DEBUG_MODE n t w th = Some (w1, th1) ->
  run CM_DEBUG_MODE (n + m) t w th = run CM_DEBUG_MODE m t w1 th1.
Proof.
  induction n as [|n IH]; intros m t w th w1 th1; cbn.
  - by intros [= <- <-].
  - destruct (step CM_DEBUG_MODE t w th) as [[w2 th2]|] eqn:E; [|done].
    intros Hn. rewrite (run_step _ _ _ _ _ _ E). by apply IH.
Qed.

Lemma returned_step n t w th w1 th1 :
  run CM_DEBUG_MODE n t w th = Returned w1 th1 ->
  (th_code th = Ret /\ w1 = w /\ th1 = th)
  \/ exists n' w2 th2, n = S n' /\ step CM_DEBUG_MODE t w th = Some (w2, th2)
        /\ run CM_DEBUG_MODE n' t w2 th2 = Returned w1 th1.
Proof.
  destruct th as [c h ow]. destruct c.
  - rewrite run_ret. intros [= <- <-]. by left.
  - by rewrite run_throw.
  - by rewrite run_fault.
  - destruct n as [|n]; [done|]. intros Hr. right.
    destruct (step CM_DEBUG_MODE t w (Thread (Act a k) h ow)) as [[w2 th2]|] eqn:E.
    + rewrite (run_step _ _ _ _ _ _ E) in Hr. by exists n, w2, th2.
    + revert Hr. rewrite run_act. unfold step in E. cbn in E.
      by destruct (do_action CM_DEBUG_MODE t w h ow a).
  - destruct n as [|n]; [done|]. intros Hr. right.
    destruct (step CM_DEBUG_MODE t w (Thread (While o test c1 c2) h ow))
      as [[w2 th2]|] eqn:E.
    + rewrite (run_step _ _ _ _ _ _ E) in Hr. by exists n, w2, th2.
    + unfold step in E. cbn in E. by destruct (heap w !! o).
  - destruct n as [|n]; [done|]. intros Hr. right.
    destruct (step CM_DEBUG_MODE t w (Thread (Enqueue bound c1 c2) h ow))
      as [[w2 th2]|] eqn:E.
    + rewrite (run_step _ _ _ _ _ _ E) in Hr. by exists n, w2, th2.
    + unfold step in E. cbn in E. destruct bound as [cb|]; [|done].
      by destruct (take_out cb h).
Qed.

Lemma returned_take_steps n : forall t w th w1 th1,
  run CM_DEBUG_MODE n t w th = Returned w1 th1 ->
  exists k, (k <= n)%nat /\ th_code th1 = Ret
            /\ take_steps CM_DEBUG_MODE k t w th = Some (w1, th1).
Proof.
  induction n as [|n IH]; intros t w th w1 th1 Hr;
    destruct (returned_step _ _ _ _ _ _ Hr)
      as [(Hc & -> & ->)|(n' & w2 & th2 & Hn & Hs & Hr')].
  - by exists 0%nat.
  - done.
  - exists 0%nat. split; [lia|done].
  - injection Hn as <-. destruct (IH _ _ _ _ _ Hr') as (k & Hk & Hret & Ht).
    exists (S k). split; [lia|split; [done|]]. cbn. by rewrite Hs.
Qed.

(** Sequencing: when [c1] returns, [c1 >> c2] goes on with [c2] in the
    world [c1] has left. *)
Lemma run_seq n t w c1 c2 h ow w1 h1 ow1 :
  run CM_DEBUG_MODE n t w (Thread c1 h ow) = Returned w1 (Thread Ret h1 ow1) ->
  exists k, (k <= n)%nat /\ forall m,
    run CM_DEBUG_MODE (k + m) t w (Thread (seq c1 c2) h ow)
      = run CM_DEBUG_MODE m t w1 (Thread c2 h1 ow1).
Proof.
  intros Hr. destruct (returned_take_steps _ _ _ _ _ _ Hr) as (k & Hk & _ & Hs).
  exists k. split; [done|]. intros m.
  destruct (follows_take_steps c2 _ _ _ _ _ _ _ _ _ _ _ (follows_seq c2 c1) Hs)
    as (u1 & Hu & F).
  inversion F; subst. by apply run_take_steps.
Qed.

(** A scope: when [c] returns, [scoped c cleanup] goes on with the
    destructor of the automatic object. *)
Lemma run_scoped n t w c cleanup h ow w1 h1 ow1 :
  run CM_DEBUG_MODE n t w (Thread c h ow) = Returned w1 (Thread Ret h1 ow1) ->
  exists k, (k <= n)%nat /\ forall m,
    run CM_DEBUG_MODE (k + m) t w (Thread (scoped c cleanup) h ow)
      = run CM_DEBUG_MODE m t w1 (Thread cleanup h1 ow1).
Proof.
  intros Hr. destruct (returned_take_steps _ _ _ _ _ _ Hr) as (k & Hk & _ & Hs).
  exists k. split; [done|]. intros m.
  destruct (protects_take_steps _ _ _ _ _ _ _ _ _ _ _
              (protects_unwind c cleanup) Hs) as (u1 & Hu & P).
  inversion P; subst.
  destruct (follows_take_steps cleanup _ _ _ _ _ _ _ _ _ _ _
              (follows_seq cleanup (unwind c cleanup)) Hu) as (u2 & Hu2 & F).
  inversion F; subst. by apply run_take_steps.
Qed.

(** [executeGpuCommand], [executeReturnGpuCommand]: for every
    [func] that returns, the call holds one more copy of the handle
    while [func] runs and gives it up afterwards.  The world is the one
    [func] has left, with one count less on the handle; a [func] that
    leaves the count alone leaves it, in the end, as it was before the
    call. *)
Theorem executeGpuCommand_balanced n t w cb c func held owned w1 held1 held2 owned1 :
  blocks w !! cb = Some c -> cb ∈ held ->
  run CM_DEBUG_MODE n t (upd_count cb S w) (Thread func (cb :: held) owned)
    = Returned w1 (Thread Ret held1 owned1) ->
  take_out cb held1 = Some held2 ->
  (1 < use_count w1 cb)%nat ->
  run CM_DEBUG_MODE (n + 2) t w
      (Thread (executeGpuCommand (Some cb) func) held owned)
    = Returned (upd_count cb pred w1) (Thread Ret held2 owned1)
  /\ run CM_DEBUG_MODE (n + 2) t w
       (Thread (executeReturnGpuCommand (Some cb) func) held owned)
     = Returned (upd_count cb pred w1) (Thread Ret held2 owned1)
  /\ (use_count w1 cb = use_count (upd_count cb S w) cb ->
      use_count (upd_count cb pred w1) cb = use_count w cb).
Proof.
  intros Hc Hin Hr Hto Hcount.
  apply (bool_decide_eq_true_2 (cb ∈ held)) in Hin.
  destruct (run_scoped _ _ _ _ (sp_release (Some cb)) _ _ _ _ _ Hr)
    as (k & Hk & Hrun).
  assert (run CM_DEBUG_MODE (n + 2) t w
            (Thread (executeGpuCommand (Some cb) func) held owned)
          = Returned (upd_count cb pred w1) (Thread Ret held2 owned1)) as E.
  { replace (n + 2)%nat with (S (k + S (n - k)))%nat by lia.
    unfold executeGpuCommand. cbn [sp_copy act_unit seq].
    rewrite run_act. cbn [do_action]. rewrite Hc, Hin. cbn [seq].
    replace (set_blocks (<[cb:=set_strong (S (strong c)) c]> (blocks w)) w)
      with (upd_count cb S w) by (unfold upd_count; by rewrite Hc).
    rewrite Hrun. cbn [sp_release act_unit]. rewrite run_act. cbn [do_action].
    unfold use_count in Hcount. unfold upd_count.
    destruct (blocks w1 !! cb) as [c1|] eqn:Hc1; [|lia].
    rewrite Hto. destruct (strong c1) as [|[|j]] eqn:Hs1; [lia|lia|].
    cbn [seq Nat.pred]. by rewrite run_ret. }
  split; [exact E|split; [exact E|]].
  unfold use_count, upd_count. rewrite Hc.
  destruct (blocks w1 !! cb) as [c1|] eqn:Hc1.
  - destruct w, w1; cbn in *. rewrite !lookup_insert_eq. cbn. lia.
  - destruct w; cbn in *. rewrite lookup_insert_eq. cbn. lia.
Qed.
End Composition.

(** ** The target of a queued command *)

Lemma owner_step_target w h ow w' h' ow' cb c :
  owner_step w h ow w' h' ow' -> blocks w !! cb = Some c ->
  exists c', blocks w' !! cb = Some c' /\ managed c' = managed c.
Proof.
  intros Hs Hc. destruct Hs as [w' Eb _ _|cb0 c0 Hc0 _|cb0 c0 n h' Hc0 _ _
                                |o d ow' _| |o ow' _|p call h' _].
  - rewrite Eb. eauto.
  - destruct w; cbn in *. destruct (decide (cb0 = cb)) as [->|Hne].
    + rewrite lookup_insert_eq. simplify_eq. eauto.
    + rewrite lookup_insert_ne by done. eauto.
  - destruct w; cbn in *. destruct (decide (cb0 = cb)) as [->|Hne].
    + rewrite lookup_insert_eq. simplify_eq. eauto.
    + rewrite lookup_insert_ne by done. eauto.
  - assert (fresh (dom (blocks w)) <> cb) as Hne.
    { intros E. pose proof (is_fresh (dom (blocks w))) as Hf. rewrite E in Hf.
      apply Hf, elem_of_dom. eauto. }
    destruct w; cbn in *. rewrite lookup_insert_ne by done. eauto.
  - destruct w; cbn in *. eauto.
  - destruct w; cbn in *. eauto.
  - destruct w; cbn in *. eauto.
Qed.

Lemma handle_free_action `{FlagLayout} dbg t w h ow a :
  handle_free a ->
  match do_action dbg t w h ow a with
  | Done _ h' _ _ pre => h' = h /\ pre = Ret
  | _ => True
  end.
Proof.
  destruct a; cbn; try done; intros _; repeat case_match; simplify_eq; try done; try (split; done).
Qed.

Section Targets.
Context `{FlagLayout}.
Variable CM_DEBUG_MODE : bool.

Lemma sys_step_target s s' cb c :
  sys_step CM_DEBUG_MODE s s' -> blocks (sys_world s) !! cb = Some c ->
  exists c', blocks (sys_world s') !! cb = Some c' /\ managed c' = managed c.
Proof.
  intros Hs Hc. destruct Hs as [w ths t th w' th' Ht Hst|w ths th c0 q Ht Hret Hq
                                |w ths t Hw]; cbn [sys_world] in *.
  - eapply owner_step_target; [|done]. by eapply step_owner_step.
  - destruct w; cbn in *. eauto.
  - destruct w; cbn in *. eauto.
Qed.

Lemma reachable_target s s' cb c :
  reachable CM_DEBUG_MODE s s' -> blocks (sys_world s) !! cb = Some c ->
  exists c', blocks (sys_world s') !! cb = Some c' /\ managed c' = managed c.
Proof.
  intros Hr. revert c. induction Hr as [|s1 s2 s3 Hs _ IH]; intros c Hc; [eauto|].
  destruct (sys_step_target _ _ _ _ Hs Hc) as (c1 & Hc1 & E1).
  destruct (IH _ Hc1) as (c2 & Hc2 & E2). exists c2. split; [done|congruence].
Qed.

(** A handle that managed [o] when it was captured manages [o], with a
    positive count, in every later state in which a copy of it exists,
    and [o] is live there. *)
Lemma counted_target s1 s2 cb o :
  consistent (sys_world s1) (sys_threads s1) ->
  reachable CM_DEBUG_MODE s1 s2 ->
  manages (sys_world s1) cb o ->
  (0 < handles (sys_world s2) (sys_threads s2) cb)%nat ->
  manages (sys_world s2) cb o /\ is_Some (heap (sys_world s2) !! o).
Proof.
  intros Hc Hr (c & Hb & Hm & _) Hh.
  pose proof (reachable_consistent _ _ _ Hc Hr) as Hc2.
  destruct (counted_handle_live _ _ _ Hc2 Hh) as (o' & Hm' & Hl).
  destruct (reachable_target _ _ _ _ Hr Hb) as (c2 & Hb2 & E).
  destruct Hm' as (c' & Hb' & E' & Hs).
  assert (o' = o) as -> by congruence.
  split; [by exists c'|done].
Qed.

Lemma queued_target s1 s2 cb o c :
  consistent (sys_world s1) (sys_threads s1) ->
  reachable CM_DEBUG_MODE s1 s2 ->
  manages (sys_world s1) cb o ->
  c ∈ queue (sys_world s2) -> cmd_bound c = Some cb ->
  manages (sys_world s2) cb o /\ is_Some (heap (sys_world s2) !! o).
Proof.
  intros Hc Hr Hm Hin Hb. eapply counted_target; [done..|].
  unfold handles. pose proof (queued_handles_elem _ _ _ Hin Hb). lia.
Qed.

Lemma held_count ths t th w cb :
  consistent w ths -> ths !! t = Some th ->
  (count_of cb (th_held th) <= use_count w cb)%nat.
Proof.
  intros Hc Ht. pose proof (counted _ _ Hc cb) as Hle. unfold handles in Hle.
  pose proof (total_le (fun th => count_of cb (th_held th)) _ _ _ Ht) as L.
  cbn in L. lia.
Qed.

Lemma held_target s1 s2 cb o t th :
  consistent (sys_world s1) (sys_threads s1) ->
  reachable CM_DEBUG_MODE s1 s2 ->
  manages (sys_world s1) cb o ->
  sys_threads s2 !! t = Some th -> (0 < count_of cb (th_held th))%nat ->
  manages (sys_world s2) cb o /\ is_Some (heap (sys_world s2) !! o).
Proof.
  intros Hc Hr Hm Ht Hin. eapply counted_target; [done..|].
  unfold handles.
  pose proof (total_le (fun th => count_of cb (th_held th)) _ _ _ Ht) as L.
  cbn in L. lia.
Qed.

Lemma plain_initialize_internal o : plain (initialize_internal o).
Proof.
  unfold initialize_internal, requiresInitOnCoreThread, act_flags.
  constructor; [done|]. intros r. destruct r; try constructor.
  destruct (fInitOnCoreThread f); cbn;
    repeat (constructor; [done|intros ?]); constructor.
Qed.

Lemma plain_destroy_internal o : plain (destroy_internal CM_DEBUG_MODE o).
Proof.
  unfold destroy_internal, debug_only, isInitialized, act_flags.
  destruct CM_DEBUG_MODE; cbn.
  - constructor; [done|]. intros r. destruct r; try constructor.
    destruct (fInitialized f); cbn; repeat (constructor; [done|intros ?]);
      constructor.
  - repeat (constructor; [done|intros ?]); constructor.
Qed.

Lemma in_command_held cb th : in_command cb th -> cb ∈ th_held th.
Proof.
  intros I. apply count_of_elem. destruct I; cbn; lia.
Qed.

Lemma in_command_busy cb th : in_command cb th -> th_code th <> Ret.
Proof.
  intros I. destruct I as [func h ow P _|func h ow P _|h ow _|m h ow _|h ow _];
    cbn; try done.
  destruct P; cbn; done.
Qed.

(** One step of a thread inside a command: it stays inside, holding the
    handle, unless the step is the destruction of the functor. *)
Lemma in_command_step t w th w' th' cb :
  in_command cb th ->
  (count_of cb (th_held th) <= use_count w cb)%nat ->
  step CM_DEBUG_MODE t w th = Some (w', th') ->
  in_command cb th' \/ th_code th = sp_release (Some cb).
Proof.
  intros I Hle Hst. destruct I as [func h ow P Hn|func h ow P Hn|h ow Hn|m h ow Hn|h ow Hn];
    cbn [th_held th_code] in *.
  - (* the copy made by executeGpuCommand *)
    left. revert Hst. unfold step. cbn.
    unfold use_count in Hle.
    destruct (blocks w !! cb) as [c|] eqn:Hb.
    + case_bool_decide as Hin.
      * intros [= <- <-]. cbn.
        apply (ic_func cb func); [done|]. rewrite count_of_cons, decide_True by done. lia.
      * intros [= <- <-]. by constructor.
    + intros [= <- <-]. by constructor.
  - (* inside func, or at the end of its scope *)
    left. revert Hst. unfold step. destruct P as [|m| |a k Ha Hk]; cbn.
    + (* func has returned: objParam is destroyed *)
      unfold use_count in Hle.
      destruct (blocks w !! cb) as [c|] eqn:Hb; [|lia].
      assert (cb ∈ h) as Hin by (apply count_of_elem; lia).
      destruct (take_out cb h) as [h'|] eqn:Hto.
      2:{ exfalso. clear -Hin Hto. induction h as [|y h IH];
            [by apply elem_of_nil in Hin|].
          unfold take_out in Hto; fold take_out in Hto.
          case_decide; [done|]. apply elem_of_cons in Hin as [->|Hin]; [done|].
          destruct (take_out cb h); [done|]. by apply IH. }
      destruct (take_out_count _ _ _ Hto) as [Ec _].
      destruct (strong c) as [|[|n]] eqn:Hs; [lia|lia|].
      intros [= <- <-]. cbn. apply ic_called. lia.
    + (* func has raised: objParam is destroyed on the way out *)
      unfold use_count in Hle.
      destruct (blocks w !! cb) as [c|] eqn:Hb; [|lia].
      assert (cb ∈ h) as Hin by (apply count_of_elem; lia).
      destruct (take_out cb h) as [h'|] eqn:Hto.
      2:{ exfalso. clear -Hin Hto. induction h as [|y h IH];
            [by apply elem_of_nil in Hin|].
          unfold take_out in Hto; fold take_out in Hto.
          case_decide; [done|]. apply elem_of_cons in Hin as [->|Hin]; [done|].
          destruct (take_out cb h); [done|]. by apply IH. }
      destruct (take_out_count _ _ _ Hto) as [Ec _].
      destruct (strong c) as [|[|n]] eqn:Hs; [lia|lia|].
      intros [= <- <-]. cbn. apply ic_threw. lia.
    + done.
    + pose proof (handle_free_action CM_DEBUG_MODE t w h ow a Ha) as Hf.
      destruct (do_action CM_DEBUG_MODE t w h ow a) as [| |w1 h1 ow1 r pre].
      * done.
      * intros [= <- <-]. constructor. lia.
      * destruct Hf as [-> ->]. intros [= <- <-]. cbn.
        by apply (ic_func cb (k r)).
  - by right.
  - done.
  - done.
Qed.

(** A step of the system and a thread inside a command. *)
Lemma in_command_sys_step s s' t th th' cb :
  consistent (sys_world s) (sys_threads s) ->
  sys_step CM_DEBUG_MODE s s' ->
  sys_threads s !! t = Some th -> in_command cb th ->
  sys_threads s' !! t = Some th' ->
  in_command cb th' \/ th_code th = sp_release (Some cb).
Proof.
  intros Hc Hs Ht I Ht'.
  destruct Hs as [w ths t0 th0 w' th0' Ht0 Hst|w ths th0 c0 q Ht0 Hret Hq
                  |w ths t0 Hw]; cbn [sys_world sys_threads] in *.
  - destruct (decide (t0 = t)) as [->|Hne].
    + rewrite list_lookup_insert_eq in Ht' by (by eapply lookup_lt_Some).
      simplify_eq. eapply in_command_step; [done| |done].
      by eapply held_count.
    + rewrite list_lookup_insert_ne in Ht' by done. simplify_eq. by left.
  - destruct (decide (coreThreadId w = t)) as [<-|Hne].
    + simplify_eq. by destruct (in_command_busy _ _ I).
    + rewrite list_lookup_insert_ne in Ht' by done. simplify_eq. by left.
  - simplify_eq. by left.
Qed.

Lemma sys_step_thread s s' t th :
  sys_step CM_DEBUG_MODE s s' -> sys_threads s !! t = Some th ->
  is_Some (sys_threads s' !! t).
Proof.
  intros Hs Ht. apply lookup_lt_is_Some. apply lookup_lt_Some in Ht.
  destruct Hs; cbn [sys_threads] in *; by rewrite ?length_insert.
Qed.

(** From the start of a command to the destruction of its functor. *)
Lemma in_command_until_release s t th cb s2 :
  consistent (sys_world s) (sys_threads s) ->
  sys_threads s !! t = Some th -> in_command cb th ->
  rtc (before_release CM_DEBUG_MODE t cb) s s2 ->
  reachable CM_DEBUG_MODE s s2
  /\ exists th2, sys_threads s2 !! t = Some th2 /\ in_command cb th2.
Proof.
  intros Hc Ht I Hr.
  eapply (rtc_ind_r
            (fun z => reachable CM_DEBUG_MODE s z
                      /\ exists th2, sys_threads z !! t = Some th2
                                      /\ in_command cb th2) s);
    [| |exact Hr].
  - split; [apply rtc_refl|]. eauto.
  - clear s2 Hr. intros s1 s2 _ [Hs Hstay] (Hr1 & th1 & Ht1 & I1).
    split; [by eapply rtc_r|].
    destruct (sys_step_thread _ _ _ _ Hs Ht1) as [th2 Ht2].
    exists th2. split; [done|].
    destruct (in_command_sys_step s1 s2 t th1 th2 cb) as [I2|E]; try done.
    + by apply (reachable_consistent _ _ _ Hc Hr1).
    + rewrite (Hstay _ Ht1 E) in Ht2. by simplify_eq.
Qed.

(** The run of a call between the threads of a system. *)
Lemma call_reachable n t w ths c k held owned w1 held1 owned1 :
  ths !! t = Some (Thread (seq c k) held owned) ->
  run CM_DEBUG_MODE n t w (Thread c held owned)
    = Returned w1 (Thread Ret held1 owned1) ->
  reachable CM_DEBUG_MODE (Sys w ths)
    (Sys w1 (<[t := Thread k held1 owned1]> ths)).
Proof.
  intros Ht Hr.
  destruct (returned_take_steps _ _ _ _ _ _ _ Hr) as (j & _ & _ & Hs).
  destruct (follows_take_steps _ k _ _ _ _ _ _ _ _ _ _ _ (follows_seq k c) Hs)
    as (u1 & Hu & F).
  inversion F; subst. by eapply nsteps_reachable.
Qed.

(** C2: a deferred command and its target.

    Capture: [initialize] and [destroy], called away from the core
    thread on an object whose self reference is bound, and whatever
    the caller does next, leave at the back of the queue a functor
    that is bound to a new copy of the handle of the object (the count
    is one higher) and calls the internal method on that object.
    Pending: from then on, whatever the threads do, the
    object is live and managed by that handle, with a positive count,
    in every state in which the functor is in the queue.  Running:
    when the core thread takes such a functor from the queue, then in
    every state the system reaches before that thread destroys the
    functor, after the call, the thread is inside the functor and
    holds the handle bound in it, and the object is live and managed
    by that handle.  In particular, when the last external handle of
    an Initialized resource is dropped away from the core thread, the
    object gets a new handle of which the queued destroy functor
    stores a copy; the object is still live, and no longer
    Initialized, when the call of that functor has returned, and it is
    freed when the functor, the last holder, is destroyed. *)
Theorem queued_commands_keep_their_target s0 s :
  consistent (sys_world s0) (sys_threads s0) ->
  reachable CM_DEBUG_MODE s0 s ->
  let w := sys_world s in
  let ths := sys_threads s in
  (forall t o ob cb c held owned k,
     ths !! t = Some (Thread (seq (initialize CM_DEBUG_MODE o) k) held owned) ->
     heap w !! o = Some ob -> mThis ob = Some cb ->
     blocks w !! cb = Some c -> managed c = o -> (0 < strong c)%nat ->
     fInitOnCoreThread (mFlags ob) = true ->
     fInitialized (mFlags ob) = false ->
     fScheduledForInit (mFlags ob) = false ->
     t <> coreThreadId w ->
     exists w1,
       let s1 := Sys w1 (<[t := Thread k held owned]> ths) in
       reachable CM_DEBUG_MODE s s1
       /\ queue w1 = queue w ++ [init_command (Some cb) (Some o)]
       /\ manages w1 cb o /\ use_count w1 cb = S (use_count w cb)
       /\ forall s2,
            reachable CM_DEBUG_MODE s1 s2 ->
            init_command (Some cb) (Some o) ∈ queue (sys_world s2) ->
            manages (sys_world s2) cb o
            /\ is_Some (heap (sys_world s2) !! o))
  /\ (forall t o ob cb c held owned k,
        ths !! t = Some (Thread (seq (destroy CM_DEBUG_MODE o) k) held owned) ->
        heap w !! o = Some ob -> mThis ob = Some cb ->
        blocks w !! cb = Some c -> managed c = o -> (0 < strong c)%nat ->
        fInitOnCoreThread (mFlags ob) = true ->
        t <> coreThreadId w ->
        exists w1,
          let s1 := Sys w1 (<[t := Thread k held owned]> ths) in
          reachable CM_DEBUG_MODE s s1
          /\ queue w1
             = queue w ++ [destroy_command CM_DEBUG_MODE (Some cb) (Some o)]
          /\ manages w1 cb o /\ use_count w1 cb = S (use_count w cb)
          /\ forall s2,
               reachable CM_DEBUG_MODE s1 s2 ->
               destroy_command CM_DEBUG_MODE (Some cb) (Some o)
                 ∈ queue (sys_world s2) ->
               manages (sys_world s2) cb o
               /\ is_Some (heap (sys_world s2) !! o))
  /\ (forall cb o c th q,
        deferred_command CM_DEBUG_MODE cb o c -> manages w cb o ->
        ths !! coreThreadId w = Some th -> th_code th = Ret ->
        queue w = c :: q ->
        let th' := Thread (run_command c)
                     (bound_handles (cmd_bound c) ++ th_held th)
                     (th_owned th) in
        let s' := Sys (set_queue q w) (<[coreThreadId w := th']> ths) in
        sys_step CM_DEBUG_MODE s s'
        /\ forall s2,
             rtc (before_release CM_DEBUG_MODE (coreThreadId w) cb) s' s2 ->
             exists th2,
               sys_threads s2 !! coreThreadId w = Some th2
               /\ in_command cb th2 /\ cb ∈ th_held th2
               /\ manages (sys_world s2) cb o
               /\ is_Some (heap (sys_world s2) !! o))
  /\ (forall t o ob cb c held owned,
        heap w !! o = Some ob ->
        blocks w !! cb = Some c -> managed c = o -> strong c = 1%nat ->
        ctrl_deleter c = DeleteDelayed ->
        fInitOnCoreThread (mFlags ob) = true ->
        fInitialized (mFlags ob) = true ->
        fScheduledForInit (mFlags ob) = false ->
        t <> coreThreadId w ->
        let cb' := fresh (dom (blocks w)) in
        exists w1 w2 w3,
          run CM_DEBUG_MODE 24 t w
              (Thread (sp_release (Some cb)) (cb :: held) owned)
            = Returned w1 (Thread Ret held owned)
          /\ queue w1
             = queue w ++ [destroy_command CM_DEBUG_MODE (Some cb') (Some o)]
          /\ manages w1 cb' o /\ use_count w1 cb' = 1%nat
          /\ use_count w1 cb = O
          /\ (fInitialized <$> flags_of w1 o) = Some true
          /\ (forall held2 owned2,
                run CM_DEBUG_MODE 12 (coreThreadId w1) w1
                    (Thread (cmd_call (destroy_command CM_DEBUG_MODE
                                         (Some cb') (Some o)))
                            (cb' :: held2) owned2)
                  = Returned w2 (Thread Ret (cb' :: held2) owned2)
                /\ run CM_DEBUG_MODE 12 (coreThreadId w1) w2
                     (Thread (sp_release (Some cb')) (cb' :: held2) owned2)
                   = Returned w3 (Thread Ret held2 owned2))
          /\ (fInitialized <$> flags_of w2 o) = Some false
          /\ heap w3 !! o = None).
Proof.
  intros Hc0 Hr w ths. pose proof (reachable_consistent _ _ _ Hc0 Hr) as Hc.
  assert (s = Sys w ths) as Es by (by destruct s).
  split; [|split; [|split]].
  - intros t o ob cb c held owned k Ht Ho Hth Hb Hm Hs Hrq Hi Hsc Hcore.
    pose proof (initialize_deferred CM_DEBUG_MODE t w o ob cb c held owned
                  Ho Hth Hb Hm Hs Hrq Hi Hsc Hcore) as Hrun.
    eexists. cbn zeta.
    assert (reachable CM_DEBUG_MODE s
              (Sys (push_command (init_command (Some cb) (Some o))
                      (upd_count cb S
                         (upd_flags o
                            (fun f => setFlag f CGO_SCHEDULED_FOR_INIT true) w)))
                   (<[t := Thread k held owned]> ths))) as Hr1.
    { rewrite Es. by eapply call_reachable. }
    split; [exact Hr1|].
    assert (blocks (upd_flags o (fun f => setFlag f CGO_SCHEDULED_FOR_INIT true) w)
              !! cb = Some c) as Hb1.
    { unfold upd_flags. rewrite Ho. by destruct w. }
    assert (manages
              (push_command (init_command (Some cb) (Some o))
                 (upd_count cb S
                    (upd_flags o
                       (fun f => setFlag f CGO_SCHEDULED_FOR_INIT true) w)))
              cb o) as Hm1.
    { unfold upd_count. rewrite Hb1. unfold manages, push_command.
      destruct (upd_flags _ _ w); cbn in *.
      rewrite lookup_insert_eq. eexists. split; [done|]. cbn. split; [done|lia]. }
    split; [|split; [exact Hm1|split]].
    + unfold upd_flags. rewrite Ho. unfold upd_count. destruct w; cbn in *.
      by rewrite Hb.
    + unfold upd_count. rewrite Hb1. unfold use_count, push_command.
      destruct (upd_flags _ _ w) eqn:E; cbn in *.
      rewrite lookup_insert_eq. cbn.
      unfold upd_flags in E. rewrite Ho in E. destruct w; cbn in *.
      injection E as <- <- <- <- <- <- <- <- <-. by rewrite Hb.
    + intros s2 Hr2 Hin.
      eapply (queued_target _ s2 cb o); [|exact Hr2|exact Hm1|exact Hin|done].
      apply (reachable_consistent _ _ _ Hc Hr1).
  - intros t o ob cb c held owned k Ht Ho Hth Hb Hm Hs Hrq Hcore.
    pose proof (destroy_deferred CM_DEBUG_MODE t w o ob cb c held owned
                  Ho Hth Hb Hm Hs Hrq Hcore) as Hrun.
    eexists. cbn zeta.
    assert (reachable CM_DEBUG_MODE s
              (Sys (push_command (destroy_command CM_DEBUG_MODE (Some cb) (Some o))
                      (upd_count cb S
                         (upd_flags o
                            (fun f => setFlag f CGO_SCHEDULED_FOR_DELETE true) w)))
                   (<[t := Thread k held owned]> ths))) as Hr1.
    { rewrite Es. by eapply call_reachable. }
    split; [exact Hr1|].
    assert (blocks (upd_flags o (fun f => setFlag f CGO_SCHEDULED_FOR_DELETE true) w)
              !! cb = Some c) as Hb1.
    { unfold upd_flags. rewrite Ho. by destruct w. }
    assert (manages
              (push_command (destroy_command CM_DEBUG_MODE (Some cb) (Some o))
                 (upd_count cb S
                    (upd_flags o
                       (fun f => setFlag f CGO_SCHEDULED_FOR_DELETE true) w)))
              cb o) as Hm1.
    { unfold upd_count. rewrite Hb1. unfold manages, push_command.
      destruct (upd_flags _ _ w); cbn in *.
      rewrite lookup_insert_eq. eexists. split; [done|]. cbn. split; [done|lia]. }
    split; [|split; [exact Hm1|split]].
    + unfold upd_flags. rewrite Ho. unfold upd_count. destruct w; cbn in *.
      by rewrite Hb.
    + unfold upd_count. rewrite Hb1. unfold use_count, push_command.
      destruct (upd_flags _ _ w) eqn:E; cbn in *.
      rewrite lookup_insert_eq. cbn.
      unfold upd_flags in E. rewrite Ho in E. destruct w; cbn in *.
      injection E as <- <- <- <- <- <- <- <- <-. by rewrite Hb.
    + intros s2 Hr2 Hin.
      eapply (queued_target _ s2 cb o); [|exact Hr2|exact Hm1|exact Hin|done].
      apply (reachable_consistent _ _ _ Hc Hr1).
  - intros cb o c th q Hd Hm Ht Hret Hq th' s'.
    assert (sys_step CM_DEBUG_MODE s s') as Hstep.
    { rewrite Es. by apply step_dequeue. }
    split; [exact Hstep|]. intros s2 Hr2.
    assert (in_command cb th') as I.
    { subst th'. destruct Hd as [-> | ->]; cbn.
      - apply (ic_start cb (initialize_internal o));
          [apply plain_initialize_internal|].
        rewrite count_of_cons, decide_True by done. lia.
      - apply (ic_start cb (destroy_internal CM_DEBUG_MODE o));
          [apply plain_destroy_internal|].
        rewrite count_of_cons, decide_True by done. lia. }
    assert (reachable CM_DEBUG_MODE s s') as Hr1 by (by apply rtc_once).
    pose proof (reachable_consistent _ _ _ Hc Hr1) as Hc'.
    assert (sys_threads s' !! coreThreadId w = Some th') as Ht'.
    { subst s'. cbn. apply list_lookup_insert_eq. by eapply lookup_lt_Some. }
    destruct (in_command_until_release s' (coreThreadId w) th' cb s2 Hc' Ht' I Hr2)
      as (Hr3 & th2 & Ht2 & I2).
    exists th2. split; [done|]. split; [done|].
    pose proof (in_command_held _ _ I2) as Hin. split; [done|].
    apply (held_target s s2 cb o (coreThreadId w) th2); try done.
    + unfold reachable in *. by etrans.
    + by apply count_of_elem.
  - intros t o ob cb c held owned Ho Hb Hm Hs Hd Hrq Hi Hsc Hcore cb'.
    destruct (last_release_resurrects CM_DEBUG_MODE t w o ob cb c held owned
                Ho Hb Hm Hs Hd Hrq Hi Hsc Hcore)
      as (w1 & ob1 & Hrun & Hq & Ho1 & Ht1 & Hb1 & Hu & Hf1 & Hcore1).
    fold cb' in Hq, Ht1, Hb1.
    assert (fInitialized (mFlags ob1) = true) as Hi1.
    { rewrite Hf1. by autorewrite with flags. }
    pose (w2 := upd_flags o (fun f => setFlag f CGO_INITIALIZED false) w1).
    destruct (upd_flags_lookup w1 o ob1
                (fun f => setFlag f CGO_INITIALIZED false) Ho1) as [Ho2 Hb2].
    fold w2 in Ho2, Hb2.
    assert (blocks w2 !! cb' = Some (Ctrl o 1 DefaultDelete)) as Hb2'
      by by rewrite Hb2.
    assert (fInitialized (mFlags (set_mFlags
              (setFlag (mFlags ob1) CGO_INITIALIZED false) ob1)) = false) as Hi2.
    { cbn. by autorewrite with flags. }
    pose proof (fun h ow => last_release_frees CM_DEBUG_MODE (coreThreadId w1) w2 o _ cb'
                  (Ctrl o 1 DefaultDelete) h ow Ho2 Ht1 Hb2' eq_refl eq_refl
                  eq_refl Hi2) as Hfree.
    set (w3 := freed o cb' w2) in *.
    exists w1, w2, w3. split; [done|]. split; [done|].
    split; [exists (Ctrl o 1 DefaultDelete); split; [done|split; [done|cbn; lia]]|].
    split; [unfold use_count; by rewrite Hb1|].
    split; [done|].
    split; [unfold flags_of; rewrite Ho1; cbn; by rewrite Hi1|].
    split; [|split].
    + intros held2 owned2. split.
      * eapply destroy_command_call; [done|done|cbn; lia|done].
      * apply Hfree.
    + unfold flags_of. rewrite Ho2. cbn. by autorewrite with flags.
    + apply (Hfree [] []).
Qed.
End Targets.

(** C2 on the sample client.  Stopped where it calls [initialize]: the
    call leaves the functor in the queue, and from then on the object
    at address 1 is live and managed by the handle bound in the
    functor for as long as the functor is queued.  Stopped when
    [initialize] has returned: the core thread takes the functor, is
    inside it and holds the handle, and the object is live. *)
Lemma queued_commands_keep_their_target_witness :
  let s := replay [EvStep 1 7] lifecycle_system in
  let s' := replay [EvStep 1 17] lifecycle_system in
  let k := seq (arrow (Some 1%positive) (synchronize true))
               (arrow (Some 1%positive) (destroy true)) in
  (consistent (sys_world lifecycle_system) (sys_threads lifecycle_system) /\
   reachable true lifecycle_system s /\ reachable true lifecycle_system s') /\
  (exists w1,
     queue w1 = [init_command (Some 1%positive) (Some 1%positive)]
     /\ use_count w1 1 = 2%nat
     /\ forall s2,
          reachable true
            (Sys w1 (<[1%nat := Thread k [1%positive] []]> (sys_threads s))) s2 ->
          init_command (Some 1%positive) (Some 1%positive)
            ∈ queue (sys_world s2) ->
          manages (sys_world s2) 1 1
          /\ is_Some (heap (sys_world s2) !! 1%positive)) /\
  (exists s2 th2,
     sys_step true s' s2 /\ sys_threads s2 !! 0%nat = Some th2
     /\ in_command 1 th2 /\ 1%positive ∈ th_held th2
     /\ is_Some (heap (sys_world s2) !! 1%positive)).
Proof.
  intros s s' k.
  pose proof lifecycle_system_consistent as H1.
  pose proof (replay_reachable [EvStep 1 7] lifecycle_system) as H2.
  pose proof (replay_reachable [EvStep 1 17] lifecycle_system) as H2'.
  fold s in H2. fold s' in H2'. split; [done|]. split.
  - assert (sys_threads s !! 1%nat
            = Some (Thread (seq (initialize true 1) k) [1%positive] [])) as Ht
      by (vm_compute; reflexivity).
    assert (heap (sys_world s) !! 1%positive = Some (Obj 2 0 (Some 1%positive)))
      as Ho by (vm_compute; reflexivity).
    assert (blocks (sys_world s) !! 1%positive = Some (Ctrl 1 1 DeleteDelayed))
      as Hb by (vm_compute; reflexivity).
    assert ((0 < strong (Ctrl 1 1 DeleteDelayed))%nat) as Hs by (cbn; lia).
    assert (1%nat <> coreThreadId (sys_world s)) as Hcore by (vm_compute; lia).
    assert (queue (sys_world s) = []) as Eq by (vm_compute; reflexivity).
    assert (use_count (sys_world s) 1 = 1%nat) as Eu by (vm_compute; reflexivity).
    destruct (proj1 (queued_commands_keep_their_target true lifecycle_system s
                       H1 H2)
                1%nat 1%positive (Obj 2 0 (Some 1%positive)) 1%positive
                (Ctrl 1 1 DeleteDelayed) [1%positive] [] k
                Ht Ho eq_refl Hb eq_refl Hs eq_refl eq_refl eq_refl Hcore)
      as (w1 & _ & Hq & _ & Hu & Hkeep).
    exists w1. rewrite Eq in Hq. rewrite Eu in Hu.
    split; [exact Hq|]. split; [exact Hu|exact Hkeep].
  - assert (deferred_command true 1 1
              (init_command (Some 1%positive) (Some 1%positive))) as Hd
      by (by left).
    assert (manages (sys_world s') 1 1) as Hm.
    { exists (Ctrl 1 2 DeleteDelayed). split; [vm_compute; reflexivity|].
      split; [reflexivity|cbn; lia]. }
    assert (sys_threads s' !! coreThreadId (sys_world s')
            = Some (Thread Ret [] [])) as Ht by (vm_compute; reflexivity).
    assert (queue (sys_world s')
            = [init_command (Some 1%positive) (Some 1%positive)]) as Hq
      by (vm_compute; reflexivity).
    destruct (proj1 (proj2 (proj2 (queued_commands_keep_their_target true
                                     lifecycle_system s' H1 H2')))
                1%positive 1%positive _ (Thread Ret [] []) [] Hd Hm Ht eq_refl Hq)
      as [Hstep Hrun].
    destruct (Hrun _ (rtc_refl _ _)) as (th2 & Ht2 & I & Hin & _ & Hl).
    eexists _, th2. split; [exact Hstep|]. split; [exact Ht2|]. done.
Defined.

(** ** [synchronize] and [initialize_internal] between other threads *)

Section ProtocolFacts.
Context `{FlagLayout}.
Variable CM_DEBUG_MODE : bool.

Lemma waits_safely_seq o a b c c1 c2 :
  waits_safely o a b c1 -> waits_safely o b c c2 ->
  waits_safely o a c (seq c1 c2).
Proof.
  intros W1 W2. induction W1; cbn; try (constructor; by eauto).
  done.
Qed.

Lemma waiting_at_weaken t o w : waiting_at t o Checked w -> waiting_at t o Locked w.
Proof. intros (? & ? & ? & ?). by repeat split. Qed.

Lemma deadlock_not_unscheduled : Msg.deadlock <> Msg.not_scheduled.
Proof. done. Qed.

Lemma synchronize_waits_safely o :
  waits_safely o Unlocked Unlocked (synchronize CM_DEBUG_MODE o).
Proof.
  assert (waits_safely o Locked Unlocked (synchronize_loop o)) as Hloop.
  { cbn. apply ws_loop.
    - done.
    - intros f E. by apply negb_true_iff in E.
    - apply ws_read. intros f _ Hc. destruct (Hc eq_refl) as [_ ->]. cbn.
      apply ws_wait. intros _. apply ws_wake. intros _. constructor.
    - apply ws_unlock. intros _. constructor. }
  cbn. apply ws_read. intros f Hr _.
  destruct (fInitialized f); cbn; [constructor|].
  apply ws_read. intros f' Hr' _. rewrite Hr'.
  destruct CM_DEBUG_MODE; cbn.
  - apply ws_core. intros [| [|] | | | |]; try constructor; cbn.
    + apply deadlock_not_unscheduled.
    + intros _. exact Hloop.
  - apply ws_lock. intros _. exact Hloop.
Qed.

Lemma waits_safely_step t o md md' w c h ow w1 c1 h1 ow1 :
  waits_safely o md md' c -> waiting_at t o md w ->
  step CM_DEBUG_MODE t w (Thread c h ow) = Some (w1, Thread c1 h1 ow1) ->
  exists md1, waits_safely o md1 md' c1 /\ waiting_at t o md1 w1.
Proof.
  intros W (Hp & Hco & Hm). unfold step. cbn.
  destruct W as [md|md' m Hne|md md'|md md' k Hk|md md' k Hk|md' k Hk
                |md md' k Hk|md md' k Hk|md' k Hk|md md' test body k Hmd Ht Hb Hk];
    cbn; try done.
  - (* read *)
    destruct (heap w !! o) as [ob|] eqn:Ho; intros [= <- <- <- <-].
    + exists md. split; [|done]. apply Hk.
      * apply Hco. unfold flags_of. by rewrite Ho.
      * intros ->. destruct Hm as [_ Hni].
        unfold pending_or_initialized, initialized_in, flags_of in *.
        rewrite Ho in *. cbn in *.
        destruct (fInitialized (mFlags ob)); [done|]. cbn in Hp.
        split; [done|]. by injection Hp.
    + exists md. split; [constructor|done].
  - (* core thread test *)
    intros [= <- <- <- <-]. exists md. split; [apply Hk|done].
  - (* lock *)
    destruct (mutex w) eqn:Hmx; [done|]. intros [= <- <- <- <-].
    exists Locked. split; [apply Hk|]. destruct w; by repeat split.
  - (* unlock *)
    case_bool_decide as Hmx; intros [= <- <- <- <-].
    + exists Unlocked. split; [apply Hk|]. destruct w; by repeat split.
    + exists md. split; [constructor|done].
  - (* wait *)
    case_bool_decide as Hmx; intros [= <- <- <- <-].
    + exists Unlocked. split; [apply Hk|]. destruct w; by repeat split.
    + exists md. split; [constructor|done].
  - (* wake *)
    case_bool_decide as Hw; [done|].
    destruct (mutex w) eqn:Hmx; [done|]. intros [= <- <- <- <-].
    exists Locked. split; [apply Hk|]. destruct w; by repeat split.
  - (* the loop *)
    destruct (heap w !! o) as [ob|] eqn:Ho; intros [= <- <- <- <-].
    + destruct (test (mFlags ob)) eqn:Et.
      * exists Checked. split.
        -- eapply waits_safely_seq; [exact Hb|]. by apply ws_loop.
        -- split; [done|split; [done|]].
           assert (mutex w = Some t) as Hmx by (destruct md; tauto).
           split; [done|]. unfold initialized_in, flags_of. rewrite Ho. cbn.
           rewrite (Ht _ Et). done.
      * exists Locked. split; [done|]. split; [done|split; [done|]].
        destruct md; tauto.
    + exists md. split; [constructor|done].
Qed.

Lemma waits_safely_trace t o md' w th tr w' th' :
  interleaving CM_DEBUG_MODE t (sync_rely t o) w th tr w' th' ->
  forall md, waits_safely o md md' (th_code th) -> waiting_at t o md w ->
  exists md1, waits_safely o md1 md' (th_code th') /\ waiting_at t o md1 w'.
Proof.
  induction 1 as [w th|w th w1 th1 tr w' th' Hs _ IH|w th w1 tr w' th' Hr _ IH];
    intros md W I.
  - eauto.
  - destruct th as [c h ow], th1 as [c1 h1 ow1].
    destruct (waits_safely_step _ _ _ _ _ _ _ _ _ _ _ _ W I Hs) as (md1 & W1 & I1).
    by eapply IH.
  - apply (IH md W). destruct I as (Hp & Hco & Hm).
    destruct Hr as (R1 & R2 & R3 & R4).
    split; [by apply R1|split; [by apply R2|]].
    destruct md.
    + by apply R4.
    + by apply R3.
    + destruct Hm as [Hmx Hni]. destruct (R3 Hmx) as [? Hback].
      split; [done|]. intros Hi. by apply Hni, Hback.
Qed.

(** [synchronize], no spurious failure: a resource that needs the
    core thread and is Initialized or scheduled, and other threads that
    keep it so and set its Initialized bit only with the mutex.  Then
    [synchronize], between any steps of the others, never raises the
    error of an unscheduled resource, and whenever it has ended, by
    returning or by the error of the core-thread test, the calling
    thread does not hold the mutex. *)
Theorem synchronize_never_gives_up_pending t o w held owned tr w' th' :
  interleaving CM_DEBUG_MODE t (sync_rely t o) w
    (Thread (synchronize CM_DEBUG_MODE o) held owned) tr w' th' ->
  pending_or_initialized w o -> core_object w o -> mutex w <> Some t ->
  th_code th' <> Throw Msg.not_scheduled
  /\ (th_code th' = Ret \/ (exists m, th_code th' = Throw m) ->
      mutex w' <> Some t)
  /\ pending_or_initialized w' o.
Proof.
  intros Hil Hp Hco Hm.
  destruct (waits_safely_trace _ _ _ _ _ _ _ _ Hil Unlocked
              (synchronize_waits_safely o)) as (md1 & W & I); [done|].
  destruct I as (Hp' & _ & Hm').
  split; [|split; [|done]].
  - intros E. rewrite E in W. by inversion W.
  - intros [E|[m E]]; rewrite E in W; inversion W; subst; done.
Qed.

Lemma initialize_internal_initializes o :
  initializes o false false (initialize_internal o).
Proof.
  cbn. apply in_read. intros f ->. cbn.
  apply in_lock. intros _. apply in_set. intros _. apply in_unlock. intros _.
  apply in_clear. intros _. apply in_notify. intros _. constructor.
Qed.

Lemma flags_of_set_heap w o ob' :
  flags_of (set_heap (<[o := ob']> (heap w)) w) o = Some (mFlags ob').
Proof. unfold flags_of. destruct w; cbn. by rewrite lookup_insert_eq. Qed.

Lemma initializes_step t o l s w c h ow w1 c1 h1 ow1 :
  initializes o l s c -> initializing_at t o l s w ->
  step CM_DEBUG_MODE t w (Thread c h ow) = Some (w1, Thread c1 h1 ow1) ->
  (exists l1 s1, initializes o l1 s1 c1 /\ initializing_at t o l1 s1 w1)
  /\ forall t', t' <> t -> sync_rely t' o w w1.
Proof.
  assert (forall t' x, sync_rely t' o x x) as Hrefl.
  { intros t' x. repeat split; done. }
  intros W (Hco & Hl & Hs). unfold step. cbn.
  destruct W as [l s|l s m|l s|l s k Hk|s k Hk|l s k Hk|s k Hk|l k Hk|l s k Hk];
    cbn; try done.
  - (* read *)
    destruct (heap w !! o) as [ob|] eqn:Ho; intros [= <- <- <- <-];
      (split; [|intros; apply Hrefl]); exists l, s.
    + split; [|done]. apply Hk. apply Hco. unfold flags_of. by rewrite Ho.
    + split; [constructor|done].
  - (* lock *)
    destruct (mutex w) eqn:Hmx; [done|]. intros [= <- <- <- <-]. split.
    + exists true, s. split; [apply Hk|]. destruct w; by repeat split.
    + intros t' Hne. destruct w; cbn in *. subst. repeat split; try done;
        cbn in *; congruence.
  - (* unlock *)
    case_bool_decide as Hmx; intros [= <- <- <- <-].
    + split.
      * exists false, s. split; [apply Hk|]. destruct w; by repeat split.
      * intros t' Hne. destruct w; cbn in *. subst. repeat split; try done;
          cbn in *; congruence.
    + split; [|intros; apply Hrefl]. exists l, s. split; [constructor|done].
  - (* Initialized is set *)
    destruct (heap w !! o) as [ob|] eqn:Ho; intros [= <- <- <- <-].
    + assert (forall P : Prop, mutex w = Some t -> P -> P) as _ by done.
      assert (initialized_in
                (set_heap (<[o:=set_mFlags (setFlag (mFlags ob) CGO_INITIALIZED true) ob]>
                             (heap w)) w) o) as Hnow.
      { unfold initialized_in. rewrite flags_of_set_heap. cbn.
        by autorewrite with flags. }
      assert (core_object
                (set_heap (<[o:=set_mFlags (setFlag (mFlags ob) CGO_INITIALIZED true) ob]>
                             (heap w)) w) o) as Hco'.
      { intros f. rewrite flags_of_set_heap. cbn. intros [= <-].
        autorewrite with flags. apply Hco. unfold flags_of. by rewrite Ho. }
      split.
      * exists true, true. split; [apply Hk|]. split; [done|].
        split; [|done]. intros _. specialize (Hl eq_refl). by destruct w.
      * intros t' Hne. specialize (Hl eq_refl).
        split; [|split; [done|split]].
        -- intros _. unfold pending_or_initialized.
           unfold initialized_in in Hnow.
           destruct (flags_of _ o) as [f|]; [|done]. cbn in *.
           injection Hnow as ->. done.
        -- intros Hmx. rewrite Hl in Hmx. congruence.
        -- destruct w; cbn in *. done.
    + split; [|intros; apply Hrefl]. exists true, s. split; [constructor|done].
  - (* the scheduled bit is cleared *)
    destruct (heap w !! o) as [ob|] eqn:Ho; intros [= <- <- <- <-].
    + specialize (Hs eq_refl).
      assert (fInitialized (mFlags ob) = true) as Hi.
      { unfold initialized_in, flags_of in Hs. rewrite Ho in Hs. cbn in Hs.
        by injection Hs. }
      assert (initialized_in
                (set_heap (<[o:=set_mFlags (setFlag (mFlags ob) CGO_SCHEDULED_FOR_INIT false) ob]>
                             (heap w)) w) o) as Hnow.
      { unfold initialized_in. rewrite flags_of_set_heap. cbn.
        autorewrite with flags. by rewrite Hi. }
      assert (core_object
                (set_heap (<[o:=set_mFlags (setFlag (mFlags ob) CGO_SCHEDULED_FOR_INIT false) ob]>
                             (heap w)) w) o) as Hco'.
      { intros f. rewrite flags_of_set_heap. cbn. intros [= <-].
        autorewrite with flags. apply Hco. unfold flags_of. by rewrite Ho. }
      split.
      * exists l, true. split; [apply Hk|]. split; [done|].
        split; [|done]. intros E. specialize (Hl E). by destruct w.
      * intros t' Hne. split; [|split; [done|split]].
        -- intros _. unfold pending_or_initialized.
           unfold initialized_in in Hnow.
           destruct (flags_of _ o) as [f|]; [|done]. cbn in *.
           injection Hnow as ->. done.
        -- intros Hmx. split; [by destruct w|]. done.
        -- by destruct w.
    + split; [|intros; apply Hrefl]. exists l, true. split; [constructor|done].
  - (* broadcast *)
    intros [= <- <- <- <-]. split.
    + exists l, s. split; [apply Hk|]. destruct w; by repeat split.
    + intros t' Hne. destruct w; by repeat split.
Qed.

(** [initialize_internal], its part of the protocol: on a resource
    that needs the core thread, and as long as the other threads leave
    the Initialized bit set and the mutex with its owner, every step of
    [initialize_internal] is one that a thread in [synchronize] allows
    for: the resource stays Initialized or scheduled at each step
    (Initialized is set before the scheduled bit is cleared), and the
    Initialized bit is set while the initialising thread has the mutex,
    so not while a waiting thread has it. *)
Theorem initialize_internal_keeps_protocol t o w held owned tr w' th' :
  interleaving CM_DEBUG_MODE t (init_rely t o) w
    (Thread (initialize_internal o) held owned) tr w' th' ->
  core_object w o ->
  forall x y t', (x, y) ∈ tr -> t' <> t -> sync_rely t' o x y.
Proof.
  intros Hil Hco.
  assert (initializing_at t o false false w) as I by (by repeat split).
  pose proof (initialize_internal_initializes o) as W.
  change (initialize_internal o) with
    (th_code (Thread (initialize_internal o) held owned)) in W.
  revert W I. generalize false at 1 3 as l. generalize false as s.
  clear Hco.
  induction Hil as [w th|w th w1 th1 tr w' th' Hs _ IH|w th w1 tr w' th' Hr _ IH];
    intros s l W I x y t' Hin Hne.
  - by apply elem_of_nil in Hin.
  - destruct th as [c h ow], th1 as [c1 h1 ow1].
    destruct (initializes_step _ _ _ _ _ _ _ _ _ _ _ _ W I Hs)
      as [(l1 & s1 & W1 & I1) G].
    apply elem_of_cons in Hin as [[= -> ->]|Hin]; [by apply G|].
    by eapply IH.
  - eapply (IH s l W); [|done|done].
    destruct I as (Hco & Hl & Hset). destruct Hr as (R1 & R2 & R3).
    split; [by apply R2|split]; eauto.
Qed.

Lemma read_only_seq c1 c2 : read_only c1 -> read_only c2 -> read_only (seq c1 c2).
Proof. intros R1 R2. induction R1; cbn; try by constructor. done. Qed.

Lemma read_only_unwind c cleanup :
  read_only c -> read_only cleanup -> read_only (unwind c cleanup).
Proof.
  intros R1 R2. induction R1; cbn; try by constructor.
  apply read_only_seq; [done|constructor].
Qed.

Lemma synchronize_read_only o : read_only (synchronize CM_DEBUG_MODE o).
Proof.
  assert (read_only (Act AUnlock (fun _ => Ret))) as Hu.
  { constructor; [done|]. intros _. constructor. }
  assert (read_only (synchronize_loop o)) as Hloop.
  { unfold synchronize_loop, scoped.
    apply read_only_seq; [|exact Hu]. apply read_only_unwind; [|exact Hu].
    constructor; [|constructor].
    apply read_only_seq.
    - constructor; [done|]. intros [| |f| | |]; try constructor.
      destruct (negb _); constructor.
    - constructor; [done|]. intros _. constructor; [done|]. intros _. constructor. }
  unfold synchronize. constructor; [done|].
  intros [| |f| | |]; try constructor.
  destruct (negb _); [|constructor].
  constructor; [done|]. intros [| |f'| | |]; try constructor.
  destruct (fInitOnCoreThread f'); [|constructor].
  apply read_only_seq; [|apply read_only_seq; [|exact Hloop]].
  - unfold debug_only. destruct CM_DEBUG_MODE; [|constructor].
    constructor; [done|]. intros [|[|]| | | |]; constructor.
  - constructor; [done|]. intros _. constructor.
Qed.

Lemma read_only_step t w c h ow w1 c1 h1 ow1 :
  read_only c ->
  step CM_DEBUG_MODE t w (Thread c h ow) = Some (w1, Thread c1 h1 ow1) ->
  read_only c1
  /\ heap w1 = heap w /\ blocks w1 = blocks w /\ queue w1 = queue w
  /\ registry w1 = registry w /\ h1 = h /\ ow1 = ow
  /\ (forall t', t' <> t -> mutex w = Some t' -> mutex w1 = Some t').
Proof.
  intros R. unfold step. cbn.
  destruct R as [|m| |a k Ha Hk|o test body k Hb Hk]; cbn; try done.
  - destruct a; try done; cbn.
    + destruct (heap w !! o); intros [= <- <- <- <-];
        (split; [first [apply Hk|constructor]|done]).
    + intros [= <- <- <- <-]. split; [apply Hk|done].
    + destruct (mutex w) eqn:Hm; [done|]. intros [= <- <- <- <-].
      split; [apply Hk|]. destruct w; cbn in *. by subst.
    + case_bool_decide as Hm; intros [= <- <- <- <-].
      * split; [apply Hk|]. destruct w; cbn in *. repeat split; try done.
        intros t' Hne. congruence.
      * split; [constructor|done].
    + case_bool_decide as Hm; intros [= <- <- <- <-].
      * split; [apply Hk|]. destruct w; cbn in *. repeat split; try done.
        intros t' Hne. congruence.
      * split; [constructor|done].
    + case_bool_decide as Hw; [done|].
      destruct (mutex w) eqn:Hm; [done|]. intros [= <- <- <- <-].
      split; [apply Hk|]. destruct w; cbn in *. by subst.
  - destruct (heap w !! o) as [ob|]; intros [= <- <- <- <-].
    + split; [|done]. destruct (test (mFlags ob)); [|done].
      apply read_only_seq; [done|by constructor].
    + split; [constructor|done].
Qed.

(** [synchronize], what it never does: whatever the other
    threads do, no step of [synchronize] writes to an object, a control
    block, the queue or the registry, and none takes the mutex from
    another thread; the handles of the caller are not touched.  All it
    changes is the mutex, when that is free or its own, and the set of
    waiting threads. *)
Theorem synchronize_writes_nothing t o w held owned tr w' th' :
  interleaving CM_DEBUG_MODE t any_change w
    (Thread (synchronize CM_DEBUG_MODE o) held owned) tr w' th' ->
  (forall x y, (x, y) ∈ tr ->
     heap y = heap x /\ blocks y = blocks x /\ queue y = queue x
     /\ registry y = registry x
     /\ forall t', t' <> t -> mutex x = Some t' -> mutex y = Some t')
  /\ th_held th' = held /\ th_owned th' = owned.
Proof.
  intros Hil. pose proof (synchronize_read_only o) as R.
  remember (Thread (synchronize CM_DEBUG_MODE o) held owned) as th eqn:Eth.
  assert (read_only (th_code th) /\ th_held th = held /\ th_owned th = owned) as I
    by (by subst).
  clear R Eth.
  induction Hil as [w th|w th w1 th1 tr w' th' Hs _ IH|w th w1 tr w' th' Hr _ IH].
  - split; [|tauto]. intros x y Hin. by apply elem_of_nil in Hin.
  - destruct th as [c h ow], th1 as [c1 h1 ow1]. destruct I as (R & <- & <-).
    destruct (read_only_step _ _ _ _ _ _ _ _ _ R Hs)
      as (R1 & E1 & E2 & E3 & E4 & -> & -> & Hm).
    destruct IH as [IH1 IH2]; [done|]. split; [|done].
    intros x y [[= -> ->]|Hin]%elem_of_cons; [done|]. by apply IH1.
  - by apply IH.
Qed.
End ProtocolFacts.

(** ** The Initialized bit, set and cleared *)

Lemma setFlag_restore (f b : Z) (on : bool) :
  0 <= b -> hasFlag f (flag_mask b) = negb on ->
  setFlag (setFlag f (flag_mask b) on) (flag_mask b) (negb on) = f.
Proof.
  intros Hb Hf. apply Z.bits_inj'. intros n Hn.
  rewrite !testbit_setFlag by done. case_bool_decide as E; [|done].
  subst n. by rewrite <- Hf, hasFlag_mask.
Qed.

Section RoundTrip.
Context `{FlagLayout}.
Variable CM_DEBUG_MODE : bool.

(** [initialize] and [destroy], the synchronous path: on a resource
    without the core-thread flag that is neither Initialized nor
    scheduled, [initialize] followed by [destroy] returns, in both
    builds and on every thread, and the world is exactly what it was:
    the second call clears the one bit that the first has set. *)
Theorem initialize_destroy_round_trip t w o ob held owned :
  heap w !! o = Some ob ->
  fInitOnCoreThread (mFlags ob) = false ->
  fInitialized (mFlags ob) = false ->
  fScheduledForInit (mFlags ob) = false ->
  run CM_DEBUG_MODE 12 t w
      (Thread (seq (initialize CM_DEBUG_MODE o) (destroy CM_DEBUG_MODE o))
              held owned)
    = Returned w (Thread Ret held owned).
Proof.
  intros Ho Hr Hi Hs.
  assert (setFlag (setFlag (mFlags ob) CGO_INITIALIZED true) CGO_INITIALIZED false
          = mFlags ob) as Eback.
  { apply (setFlag_restore _ _ true); [apply bits_nonneg|exact Hi]. }
  open_world w.
  destruct CM_DEBUG_MODE; exec; rewrite ?insert_insert_eq, Eback;
    (assert ({| mFlags := mFlags ob; mInternalID := mInternalID ob;
                mThis := mThis ob |} = ob) as -> by (by destruct ob));
    by rewrite insert_id.
Qed.
End RoundTrip.

(** ** Concrete runs *)

Lemma construct_then_delete_witness :
  registry empty_world !! nextId empty_world = None /\
  run true 12 1%nat empty_world
      (Thread (CoreObject_new true (delete_object true)) [] [])
  = Returned (set_registry (registry empty_world) (nextId empty_world + 1)
                empty_world)
      (Thread Ret [] []).
Proof.
  split; [reflexivity|].
  apply (construct_then_delete true true 1%nat empty_world [] []). reflexivity.
Defined.

Lemma initialize_again_witness :
  (heap (sample_world 6) !! 1%positive = Some (sample_object 6) /\
   fInitialized (mFlags (sample_object 6))
   || fScheduledForInit (mFlags (sample_object 6)) = true) /\
  run true 4 1%nat (sample_world 6) (Thread (initialize true 1) [] [])
  = Threw Msg.already_initialized (sample_world 6)
      (Thread (Throw Msg.already_initialized) [] []) /\
  run false 12 1%nat (sample_world 6) (Thread (initialize false 1) [] [])
  = Returned
      (push_command (init_command (Some 1%positive) (Some 1%positive))
         (upd_count 1 S
            (upd_flags 1 (fun f => setFlag f CGO_SCHEDULED_FOR_INIT true)
               (sample_world 6))))
      (Thread Ret [] []).
Proof.
  assert (heap (sample_world 6) !! 1%positive = Some (sample_object 6)) as H1
    by reflexivity.
  assert (fInitialized (mFlags (sample_object 6))
          || fScheduledForInit (mFlags (sample_object 6)) = true) as H2
    by reflexivity.
  assert ((0 < strong (Ctrl 1 1 DeleteDelayed))%nat) as H3 by (cbn; lia).
  assert (1%nat <> coreThreadId (sample_world 6)) as H4 by (cbn; lia).
  destruct (initialize_again 1%nat (sample_world 6) 1%positive
              (sample_object 6) [] [] H1 H2) as [A B].
  split; [done|]. split; [exact A|].
  exact (B 1%positive (Ctrl 1 1 DeleteDelayed) eq_refl eq_refl eq_refl H3
           eq_refl H4).
Defined.

Lemma destroy_uninitialized_witness :
  (heap (sample_world 2) !! 1%positive = Some (sample_object 2) /\
   blocks (sample_world 2) !! 1%positive = Some (Ctrl 1 1 DeleteDelayed) /\
   fInitOnCoreThread (mFlags (sample_object 2)) = true /\
   fInitialized (mFlags (sample_object 2)) = false) /\
  run true 12 (coreThreadId (sample_world 2)) (sample_world 2)
      (Thread (destroy true 1) [] [])
  = Threw Msg.already_destroyed
      (upd_flags 1 (fun f => setFlag f CGO_SCHEDULED_FOR_DELETE true)
         (sample_world 2))
      (Thread (Throw Msg.already_destroyed) [] []).
Proof.
  assert (heap (sample_world 2) !! 1%positive = Some (sample_object 2)) as H1
    by reflexivity.
  assert (blocks (sample_world 2) !! 1%positive = Some (Ctrl 1 1 DeleteDelayed))
    as H2 by reflexivity.
  assert ((0 < strong (Ctrl 1 1 DeleteDelayed))%nat) as H3 by (cbn; lia).
  split; [done|].
  exact (proj1 (destroy_uninitialized (sample_world 2) 1%positive
                  (sample_object 2) 1%positive (Ctrl 1 1 DeleteDelayed) [] []
                  H1 eq_refl H2 eq_refl H3 eq_refl eq_refl)).
Defined.

Lemma deleter_hook_check_witness :
  heap (sample_world 6) !! 1%positive = Some (sample_object 6) /\
  run true 4 1%nat (sample_world 6)
      (Thread (_deleteDelayedInternal true true (Some 1%positive)) [] [])
  = Threw Msg.deleted_while_scheduled (sample_world 6)
      (Thread (Throw Msg.deleted_while_scheduled) [] []).
Proof.
  assert (heap (sample_world 6) !! 1%positive = Some (sample_object 6)) as H1
    by reflexivity.
  split; [done|].
  rewrite (deleter_hook_check true true 1%nat (sample_world 6) 1%positive
             (sample_object 6) [] [] H1).
  reflexivity.
Defined.

Lemma queueGpuCommand_enqueues_witness :
  (blocks (sample_world 2) !! 1%positive = Some (Ctrl 1 1 DeleteDelayed) /\
   1%positive ∈ [1%positive]) /\
  run true 4 0%nat (sample_world 2)
      (Thread (queueGpuCommand (Some 1%positive) Ret) [1%positive] [])
  = Returned
      (push_command (Cmd (Some 1%positive) (executeGpuCommand (Some 1%positive) Ret))
         (upd_count 1 S (sample_world 2)))
      (Thread Ret [1%positive] []).
Proof.
  assert (blocks (sample_world 2) !! 1%positive = Some (Ctrl 1 1 DeleteDelayed))
    as H1 by reflexivity.
  assert (1%positive ∈ [1%positive]) as H2 by (apply list_elem_of_here).
  split; [done|].
  exact (proj1 (queueGpuCommand_enqueues true 0%nat (sample_world 2) 1%positive
                  (Ctrl 1 1 DeleteDelayed) Ret [1%positive] [] H1 H2)).
Defined.

(** The queued destruction as [func]: [executeGpuCommand] leaves the
    world that [destroy_internal] has left, and the count as it was. *)
Lemma executeGpuCommand_balanced_witness :
  let w := sample_world 3 in
  let func := bind_member (destroy_internal true) (Some 1%positive) in
  let w1 := upd_flags 1 (fun f => setFlag f CGO_INITIALIZED false)
              (upd_count 1 S w) in
  run true 4 0%nat (upd_count 1 S w) (Thread func [1; 1]%positive [])
    = Returned w1 (Thread Ret [1; 1]%positive [])
  /\ run true 6 0%nat w
       (Thread (executeGpuCommand (Some 1%positive) func) [1%positive] [])
     = Returned (upd_count 1 pred w1) (Thread Ret [1%positive] [])
  /\ use_count (upd_count 1 pred w1) 1 = use_count w 1.
Proof.
  intros w func w1.
  assert (blocks w !! 1%positive = Some (Ctrl 1 1 DeleteDelayed)) as H1
    by reflexivity.
  assert (1%positive ∈ [1%positive]) as H2 by (apply list_elem_of_here).
  assert (run true 4 0%nat (upd_count 1 S w) (Thread func [1; 1]%positive [])
          = Returned w1 (Thread Ret [1; 1]%positive [])) as H3
    by (vm_compute; reflexivity).
  assert (take_out 1%positive [1; 1]%positive = Some [1%positive]) as H4
    by reflexivity.
  assert ((1 < use_count w1 1)%nat) as H5 by (vm_compute; lia).
  split; [exact H3|].
  destruct (executeGpuCommand_balanced true 4 0%nat w 1%positive
              (Ctrl 1 1 DeleteDelayed) func [1%positive] [] w1 [1; 1]%positive
              [1%positive] [] H1 H2 H3 H4 H5) as (E1 & _ & E2).
  split; [exact E1|]. apply E2. reflexivity.
Defined.

Lemma initialize_destroy_round_trip_witness :
  (heap (sample_world 0) !! 1%positive = Some (sample_object 0) /\
   fInitOnCoreThread (mFlags (sample_object 0)) = false /\
   fInitialized (mFlags (sample_object 0)) = false /\
   fScheduledForInit (mFlags (sample_object 0)) = false) /\
  run false 12 1%nat (sample_world 0)
      (Thread (seq (initialize false 1) (destroy false 1)) [] [])
  = Returned (sample_world 0) (Thread Ret [] []).
Proof.
  assert (heap (sample_world 0) !! 1%positive = Some (sample_object 0)) as H1
    by reflexivity.
  split; [done|].
  exact (initialize_destroy_round_trip false 1%nat (sample_world 0) 1%positive
           (sample_object 0) [] [] H1 eq_refl eq_refl eq_refl).
Defined.

Lemma sample_pending :
  pending_or_initialized (sample_world 6) 1 /\ core_object (sample_world 6) 1.
Proof. split; [reflexivity|]. intros f [= <-]. reflexivity. Qed.

(** [synchronize] on a scheduled resource, up to the wait: four steps
    of the caller, with the mutex taken on the way. *)
Lemma synchronize_never_gives_up_pending_witness :
  exists tr w' th',
    interleaving true 1%nat (sync_rely 1%nat 1) (sample_world 6)
      (Thread (synchronize true 1) [] []) tr w' th'
    /\ length tr = 4%nat /\ mutex w' = Some 1%nat
    /\ th_code th' <> Throw Msg.not_scheduled.
Proof.
  assert (exists tr w' th',
            interleaving true 1%nat (sync_rely 1%nat 1) (sample_world 6)
              (Thread (synchronize true 1) [] []) tr w' th'
            /\ length tr = 4%nat /\ mutex w' = Some 1%nat) as (tr & w' & th' & Hil & Hl & Hm).
  { do 3 eexists. split.
    - do 4 (eapply il_own; [vm_compute; reflexivity|]). apply il_stop.
    - split; reflexivity. }
  exists tr, w', th'. split; [exact Hil|]. split; [exact Hl|]. split; [exact Hm|].
  apply (synchronize_never_gives_up_pending true 1%nat 1%positive (sample_world 6)
           [] [] tr w' th' Hil (proj1 sample_pending) (proj2 sample_pending)).
  discriminate.
Defined.

(** The whole of [initialize_internal] on the core thread. *)
Lemma initialize_internal_keeps_protocol_witness :
  exists tr w' th',
    interleaving true 0%nat (init_rely 0%nat 1) (sample_world 6)
      (Thread (initialize_internal 1) [] []) tr w' th'
    /\ th_code th' = Ret /\ length tr = 6%nat
    /\ forall x y, (x, y) ∈ tr -> sync_rely 1%nat 1 x y.
Proof.
  assert (exists tr w' th',
            interleaving true 0%nat (init_rely 0%nat 1) (sample_world 6)
              (Thread (initialize_internal 1) [] []) tr w' th'
            /\ th_code th' = Ret /\ length tr = 6%nat) as (tr & w' & th' & Hil & Hc & Hl).
  { do 3 eexists. split.
    - do 6 (eapply il_own; [vm_compute; reflexivity|]). apply il_stop.
    - split; reflexivity. }
  exists tr, w', th'. split; [exact Hil|]. split; [exact Hc|]. split; [exact Hl|].
  intros x y Hin.
  apply (initialize_internal_keeps_protocol true 0%nat 1%positive (sample_world 6)
           [] [] tr w' th' Hil (proj2 sample_pending) x y 1%nat Hin).
  discriminate.
Defined.

(** [synchronize] on a scheduled resource, up to the wait. *)
Lemma synchronize_writes_nothing_witness :
  exists tr w' th',
    interleaving true 1%nat any_change (sample_world 6)
      (Thread (synchronize true 1) [] []) tr w' th'
    /\ length tr = 7%nat /\ parked (th_code th')
    /\ forall x y, (x, y) ∈ tr -> heap y = heap x /\ blocks y = blocks x.
Proof.
  assert (exists tr w' th',
            interleaving true 1%nat any_change (sample_world 6)
              (Thread (synchronize true 1) [] []) tr w' th'
            /\ length tr = 7%nat /\ parked (th_code th')) as (tr & w' & th' & Hil & Hl & Hp).
  { do 3 eexists. split.
    - do 7 (eapply il_own; [vm_compute; reflexivity|]). apply il_stop.
    - split; [reflexivity|]. eexists. reflexivity. }
  exists tr, w', th'. split; [exact Hil|]. split; [exact Hl|]. split; [exact Hp|].
  intros x y Hin.
  destruct (proj1 (synchronize_writes_nothing true 1%nat 1%positive (sample_world 6)
                     [] [] tr w' th' Hil) x y Hin) as (E1 & E2 & _).
  by split.
Defined.

(** * The particle set of BsParticleSystem.cpp *)

(** ** The capacity after growth, in binary32 *)

Lemma digits2_pos_bounds p :
  2 ^ (Z.pos (digits2_pos p) - 1) <= Z.pos p < 2 ^ Z.pos (digits2_pos p).
Proof.
  induction p as [p IH|p IH|]; cbn [digits2_pos].
  - rewrite Pos2Z.inj_succ.
    replace (Z.succ (Z.pos (digits2_pos p)) - 1) with (Z.succ (Z.pos (digits2_pos p) - 1)) by lia.
    rewrite !Z.pow_succ_r by lia. lia.
  - rewrite Pos2Z.inj_succ.
    replace (Z.succ (Z.pos (digits2_pos p)) - 1) with (Z.succ (Z.pos (digits2_pos p) - 1)) by lia.
    rewrite !Z.pow_succ_r by lia. lia.
  - cbn. lia.
Qed.

Lemma digits2_pos_unique p j :
  2 ^ (j - 1) <= Z.pos p < 2 ^ j -> Z.pos (digits2_pos p) = j.
Proof.
  intros [Hl Hu]. pose proof (digits2_pos_bounds p) as [Bl Bu].
  assert (0 < j) as Hj.
  { destruct (Z.ltb_spec 0 j); [done|].
    assert (2 ^ j <= 2 ^ 0) by (destruct (Z.eq_dec j 0) as [->|];
      [lia|rewrite Z.pow_neg_r by lia; cbn; lia]).
    cbn in *. lia. }
  destruct (Z.lt_trichotomy (Z.pos (digits2_pos p)) j) as [L|[E|G]]; [|done|].
  - assert (2 ^ Z.pos (digits2_pos p) <= 2 ^ (j - 1))
      by (apply Z.pow_le_mono_r; lia). lia.
  - assert (2 ^ j <= 2 ^ (Z.pos (digits2_pos p) - 1))
      by (apply Z.pow_le_mono_r; lia). lia.
Qed.

Lemma shr_1_m mrs : 0 <= shr_m mrs -> shr_m (shr_1 mrs) = shr_m mrs / 2.
Proof.
  destruct mrs as [m r s]. cbn. intros Hm. rewrite <- Z.div2_div.
  destruct m as [|[p|p|]|p]; try reflexivity. lia.
Qed.

Lemma pow2_xO p : 2 ^ Z.pos p~0 = 2 ^ Z.pos p * 2 ^ Z.pos p.
Proof.
  rewrite (Pos2Z.inj_xO p). replace (2 * Z.pos p) with (Z.pos p + Z.pos p) by lia.
  by rewrite Z.pow_add_r by lia.
Qed.

Lemma pow2_xI p : 2 ^ Z.pos p~1 = 2 * (2 ^ Z.pos p * 2 ^ Z.pos p).
Proof.
  rewrite (Pos2Z.inj_xI p).
  replace (2 * Z.pos p + 1) with (Z.succ (Z.pos p + Z.pos p)) by lia.
  by rewrite Z.pow_succ_r, Z.pow_add_r by lia.
Qed.

Lemma iter_shr_1 p : forall mrs,
  0 <= shr_m mrs ->
  shr_m (SpecFloat.iter_pos shr_1 p mrs) = shr_m mrs / 2 ^ Z.pos p.
Proof.
  assert (forall x y, 0 <= x -> 0 < y -> 0 <= x / y) as Hpos.
  { intros. apply Z.div_pos; lia. }
  induction p as [p IH|p IH|]; intros mrs Hm; cbn [SpecFloat.iter_pos].
  - assert (0 < 2 ^ Z.pos p) as Hp by (apply Z.pow_pos_nonneg; lia).
    assert (0 <= shr_m (shr_1 mrs)) as H1
      by (rewrite shr_1_m by done; apply Hpos; lia).
    assert (0 <= shr_m (SpecFloat.iter_pos shr_1 p (shr_1 mrs))) as H2
      by (rewrite IH by done; apply Hpos; lia).
    rewrite IH, IH, shr_1_m by done.
    rewrite !Z.div_div by lia. by rewrite pow2_xI, Z.mul_assoc.
  - assert (0 < 2 ^ Z.pos p) as Hp by (apply Z.pow_pos_nonneg; lia).
    assert (0 <= shr_m (SpecFloat.iter_pos shr_1 p mrs)) as H2
      by (rewrite IH by done; apply Hpos; lia).
    rewrite IH, IH by done.
    rewrite !Z.div_div by lia. by rewrite pow2_xO.
  - by apply shr_1_m.
Qed.

Lemma round_nearest_even_cases mx lx :
  round_nearest_even mx lx = mx
  \/ (lx <> loc_Exact /\ round_nearest_even mx lx = mx + 1).
Proof.
  destruct lx as [|[| |]]; cbn; auto.
  destruct (Z.even mx); auto.
Qed.

Lemma iter_xO p d : Z.pos (Pos.iter xO p d) = Z.pos p * 2 ^ Z.pos d.
Proof.
  induction d as [|d IH] using Pos.peano_ind.
  - cbn. lia.
  - rewrite Pos.iter_succ, (Pos2Z.inj_xO (Pos.iter xO p d)), IH, Pos2Z.inj_succ,
      Z.pow_succ_r by lia.
    lia.
Qed.

(** Rounding a mantissa of at least 24 bits, away from the subnormal
    numbers and from overflow: the result has the 24 leading bits, or
    one more; when that carries into a 25th bit the exponent moves by
    one. *)
Lemma binary_round_aux_normal m e :
  let d := Z.pos (digits2_pos m) in
  let k := d - 24 in
  let q := Z.pos m / 2 ^ k in
  24 <= d -> -149 <= e + k -> e + k <= 103 ->
  exists m' e',
    binary_round_aux 24 128 false (Z.pos m) e loc_Exact = S754_finite false m' e'
    /\ 2 ^ 23 <= Z.pos m' < 2 ^ 24
    /\ ((e' = e + k /\ (Z.pos m' = q \/ (0 < k /\ Z.pos m' = q + 1)))
        \/ (e' = e + k + 1 /\ Z.pos m' = 2 ^ 23 /\ q + 1 = 2 ^ 24 /\ 0 < k)).
Proof.
  intros d k q Hd Hlo Hhi.
  pose proof (digits2_pos_bounds m) as [Bl Bu]. fold d in Bl, Bu.
  assert (0 < 2 ^ k) as Hk by (apply Z.pow_pos_nonneg; lia).
  assert (2 ^ 23 <= q < 2 ^ 24) as Hq.
  { replace (d - 1) with (23 + k) in Bl by lia.
    replace d with (24 + k) in Bu by lia.
    rewrite Z.pow_add_r in Bl, Bu by lia. subst q. split.
    - apply Z.div_le_lower_bound; lia.
    - apply Z.div_lt_upper_bound; lia. }
  assert (forall x y, 2 ^ 23 <= Z.pos x < 2 ^ 24 -> -149 <= y ->
            shr_fexp 24 128 (Z.pos x) y loc_Exact
            = ({| shr_m := Z.pos x; shr_r := false; shr_s := false |}, y)) as Hfix.
  { intros x y Hx Hy. unfold shr_fexp. cbn [Zdigits2 shr_record_of_loc].
    rewrite (digits2_pos_unique x 24) by (cbn in *; lia).
    unfold fexp, emin. replace (Z.max (24 + y - 24) (3 - 128 - 24) - y) with 0 by lia.
    reflexivity. }
  unfold binary_round_aux.
  assert (shr_fexp 24 128 (Z.pos m) e loc_Exact
          = shr {| shr_m := Z.pos m; shr_r := false; shr_s := false |} e k) as E1.
  { unfold shr_fexp. cbn [Zdigits2 shr_record_of_loc]. fold d.
    unfold fexp, emin. f_equal. lia. }
  rewrite E1. clear E1.
  destruct k as [|p|p] eqn:Ek; [| |lia].
  - (* no bit is dropped *)
    cbn [shr shr_m loc_of_shr_record round_nearest_even].
    assert (q = Z.pos m) as Eq by (subst q; cbn; by rewrite Z.div_1_r).
    rewrite Eq in Hq. rewrite Hfix by lia. cbn [shr_m].
    replace (e <=? 128 - 24) with true by (symmetry; apply Z.leb_le; lia).
    exists m, e. split; [done|]. split; [done|]. left. split; [lia|]. by left.
  - (* [p] bits are dropped *)
    cbn [shr].
    set (mrs := SpecFloat.iter_pos shr_1 p _).
    assert (shr_m mrs = q) as Em.
    { subst mrs q. by rewrite iter_shr_1 by (cbn; lia). }
    rewrite Em.
    destruct (round_nearest_even_cases q (loc_of_shr_record mrs)) as [Er|[_ Er]];
      rewrite Er.
    + destruct q as [|x|x] eqn:Eq; [cbn in Hq; lia| |cbn in Hq; lia].
      rewrite Hfix by lia. cbn [shr_m].
      replace (e + Z.pos p <=? 128 - 24) with true by (symmetry; apply Z.leb_le; lia).
      exists x, (e + Z.pos p). split; [done|]. split; [done|]. left.
      split; [done|]. by left.
    + destruct (Z.eq_dec (q + 1) (2 ^ 24)) as [Ec|Ec].
      * (* the carry *)
        rewrite Ec. change (2 ^ 24) with (Z.pos (2 ^ 24)).
        unfold shr_fexp. cbn [Zdigits2 shr_record_of_loc].
        rewrite (digits2_pos_unique (2 ^ 24) 25) by (cbn; lia).
        unfold fexp, emin.
        replace (Z.max (25 + (e + Z.pos p) - 24) (3 - 128 - 24) - (e + Z.pos p))
          with 1 by lia.
        cbn [shr SpecFloat.iter_pos shr_1 shr_m orb].
        replace (e + Z.pos p + 1 <=? 128 - 24) with true
          by (symmetry; apply Z.leb_le; lia).
        eexists _, _. split; [reflexivity|]. split; [cbn; lia|]. right.
        split; [done|]. split; [done|]. split; [done|lia].
      * destruct (q + 1) as [|x|x] eqn:Eq; [lia| |lia].
        rewrite Hfix by lia. cbn [shr_m].
        replace (e + Z.pos p <=? 128 - 24) with true
          by (symmetry; apply Z.leb_le; lia).
        exists x, (e + Z.pos p). split; [done|]. split; [lia|]. left.
        split; [done|]. right. split; lia.
Qed.

(** The conversion of a positive [UINT32]: exact below 2^24, and within
    one unit of the last place above. *)
Lemma float_of_uint32_spec n :
  1 <= n < 2 ^ 32 ->
  exists X Ex,
    float_of_uint32 n = S754_finite false X Ex
    /\ 2 ^ 23 <= Z.pos X < 2 ^ 24 /\ -23 <= Ex <= 9
    /\ (Ex <= 0 -> Z.pos X = n * 2 ^ (- Ex))
    /\ (0 < Ex -> n - 2 ^ Ex < Z.pos X * 2 ^ Ex <= n + 2 ^ Ex).
Proof.
  intros Hn. destruct n as [|p|p]; [lia| |lia].
  pose proof (digits2_pos_bounds p) as [Bl Bu].
  set (d := Z.pos (digits2_pos p)) in *.
  assert (1 <= d <= 32) as Hd.
  { split; [subst d; lia|].
    destruct (Z.leb_spec d 32); [done|].
    assert (2 ^ 32 <= 2 ^ (d - 1)) by (apply Z.pow_le_mono_r; lia). lia. }
  unfold float_of_uint32, binary_normalize, binary_round, float_prec, float_emax.
  rewrite Z.add_0_r. fold d.
  unfold shl_align, fexp, emin.
  replace (Z.max (d - 24) (3 - 128 - 24) - 0) with (d - 24) by lia.
  destruct (d - 24) as [|k|k] eqn:Ek.
  - (* 24 bits *)
    pose proof (binary_round_aux_normal p 0) as Hb. cbv zeta in Hb.
    fold d in Hb. rewrite Ek in Hb.
    destruct Hb as (X & Ex & -> & HX & Hc); [lia..|].
    cbn in Hc. rewrite Z.div_1_r in Hc.
    exists X, Ex. split; [done|]. split; [done|].
    destruct Hc as [[-> [->|[? _]]]|(_ & _ & _ & ?)]; lia.
  - (* more than 24 bits: the trailing ones are rounded away *)
    pose proof (binary_round_aux_normal p 0) as Hb. cbv zeta in Hb.
    fold d in Hb. rewrite Ek in Hb.
    destruct Hb as (X & Ex & -> & HX & Hc); [lia..|].
    assert (0 < 2 ^ Z.pos k) as HK by (apply Z.pow_pos_nonneg; lia).
    pose proof (Z.div_mod (Z.pos p) (2 ^ Z.pos k) ltac:(lia)) as Hdm.
    pose proof (Z.mod_pos_bound (Z.pos p) (2 ^ Z.pos k) HK) as Hr.
    set (K := 2 ^ Z.pos k) in *. set (q := Z.pos p / K) in *.
    set (r := Z.pos p mod K) in *.
    assert (2 ^ Z.succ (Z.pos k) = 2 * K) as HK2
      by (subst K; by rewrite Z.pow_succ_r by lia).
    exists X, Ex. split; [done|]. split; [done|].
    change (2 ^ 23) with 8388608 in *. change (2 ^ 24) with 16777216 in *.
    destruct Hc as [[-> Hm]|(-> & Hm & Hq & _)].
    + split; [lia|]. split; [lia|]. intros _. rewrite Z.add_0_l. fold K.
      clearbody K q r. destruct Hm as [->|[_ ->]]; lia.
    + split; [lia|]. split; [lia|]. intros _.
      replace (0 + Z.pos k + 1) with (Z.succ (Z.pos k)) by lia.
      rewrite HK2, Hm. clearbody K q r. lia.
  - (* fewer than 24 bits: the mantissa is shifted up *)
    assert (Z.pos k = 24 - d) as Hk by lia.
    pose proof (iter_xO p k) as Hz. set (mz := Pos.iter xO p k) in *.
    assert (2 ^ 23 <= Z.pos mz < 2 ^ 24) as Hmz.
    { rewrite Hz, Hk.
      assert (0 < 2 ^ (24 - d)) as HA by (apply Z.pow_pos_nonneg; lia).
      assert (2 ^ (d - 1) * 2 ^ (24 - d) = 2 ^ 23) as E1
        by (rewrite <- Z.pow_add_r by lia; f_equal; lia).
      assert (2 ^ d * 2 ^ (24 - d) = 2 ^ 24) as E2
        by (rewrite <- Z.pow_add_r by lia; f_equal; lia).
      rewrite <- E1, <- E2.
      split; [apply Z.mul_le_mono_nonneg_r; lia|apply Z.mul_lt_mono_pos_r; lia]. }
    replace (Z.max (Z.neg k) (3 - 128 - 24)) with (Z.neg k) by lia.
    pose proof (binary_round_aux_normal mz (Z.neg k)) as Hb. cbv zeta in Hb.
    rewrite (digits2_pos_unique mz 24) in Hb by lia.
    destruct Hb as (X & Ex & -> & HX & Hc); [lia..|].
    cbn in Hc. rewrite Z.div_1_r in Hc.
    exists X, Ex. split; [done|]. split; [done|].
    destruct Hc as [[-> [->|[? _]]]|(_ & _ & _ & ?)]; try lia.
    split; [lia|]. split; [|lia]. intros _.
    rewrite Hz. f_equal.
Qed.

(** The product with [CAPACITY_SCALE] keeps the exponent or raises it
    by one, and is within one unit of the last place of the exact
    product. *)
Lemma times_capacity_scale X Ex :
  2 ^ 23 <= Z.pos X < 2 ^ 24 -> -23 <= Ex <= 9 ->
  exists P Ep,
    SFmul float_prec float_emax (S754_finite false X Ex) CAPACITY_SCALE
      = S754_finite false P Ep
    /\ ((Ep = Ex
         /\ Z.pos X * 10066330 - 2 ^ 23 < Z.pos P * 2 ^ 23
            <= Z.pos X * 10066330 + 2 ^ 23)
        \/ (Ep = Ex + 1
            /\ Z.pos X * 10066330 - 2 ^ 24 < Z.pos P * 2 ^ 24
               <= Z.pos X * 10066330 + 2 ^ 24)).
Proof.
  intros HX HE. unfold SFmul, CAPACITY_SCALE, float_prec, float_emax.
  cbn [xorb]. set (m := (X * 10066330)%positive).
  assert (Z.pos m = Z.pos X * 10066330) as Em by (subst m; lia).
  change (2 ^ 23) with 8388608 in *. change (2 ^ 24) with 16777216 in *.
  assert (2 ^ 46 <= Z.pos m < 2 ^ 48) as Hm by (cbn; lia).
  pose proof (digits2_pos_bounds m) as [Bl Bu].
  set (d := Z.pos (digits2_pos m)) in *.
  assert (d = 47 \/ d = 48) as Hd.
  { destruct (Z.leb_spec d 46).
    - assert (2 ^ d <= 2 ^ 46) by (apply Z.pow_le_mono_r; lia). lia.
    - destruct (Z.leb_spec 49 d); [|lia].
      assert (2 ^ 48 <= 2 ^ (d - 1)) by (apply Z.pow_le_mono_r; lia). lia. }
  pose proof (binary_round_aux_normal m (Ex + -23)) as Hb. cbv zeta in Hb.
  fold d in Hb.
  destruct Hb as (P & Ep & -> & HP & Hc); [lia..|].
  exists P, Ep. split; [done|].
  change (2 ^ 23) with 8388608 in *. change (2 ^ 24) with 16777216 in *.
  destruct Hd as [Hd|Hd]; rewrite Hd in *;
    [change (2 ^ (47 - 24)) with 8388608 in Hc; change (2 ^ (47 - 1)) with 70368744177664 in Bl;
     change (2 ^ 47) with 140737488355328 in Bu
    |change (2 ^ (48 - 24)) with 16777216 in Hc; change (2 ^ (48 - 1)) with 140737488355328 in Bl;
     change (2 ^ 48) with 281474976710656 in Bu].
  - pose proof (Z.div_mod (Z.pos m) 8388608 ltac:(lia)) as Hdm.
    pose proof (Z.mod_pos_bound (Z.pos m) 8388608 ltac:(lia)) as Hr.
    destruct Hc as [[-> Hc]|(-> & Hc & Hq & _)].
    + left. split; [lia|]. destruct Hc as [->|[_ ->]]; lia.
    + right. split; [lia|]. rewrite Hc. lia.
  - pose proof (Z.div_mod (Z.pos m) 16777216 ltac:(lia)) as Hdm.
    pose proof (Z.mod_pos_bound (Z.pos m) 16777216 ltac:(lia)) as Hr.
    destruct Hc as [[-> Hc]|(-> & Hc & Hq & _)].
    + right. split; [lia|]. destruct Hc as [->|[_ ->]]; lia.
    + lia.
Qed.

Lemma Z_range_cases (P : Z -> Prop) (lo : Z) (n : nat) :
  (forall i, (i < n)%nat -> P (lo + Z.of_nat i)) ->
  forall x, lo <= x < lo + Z.of_nat n -> P x.
Proof.
  intros HP x Hx. replace x with (lo + Z.of_nat (Z.to_nat (x - lo))) by lia.
  apply HP. lia.
Qed.

Ltac eval_closed :=
  repeat match goal with
  | |- context [2 ^ ?k] =>
      let v := eval vm_compute in (2 ^ k) in progress change (2 ^ k) with v
  | |- context [0 <=? ?k] =>
      let v := eval vm_compute in (0 <=? k) in progress change (0 <=? k) with v
  | H : context [2 ^ ?k] |- _ =>
      let v := eval vm_compute in (2 ^ k) in progress change (2 ^ k) with v in H
  end.

(** The scaled capacity of a count from 1 to 2^31 - 1. *)
Lemma scaled_capacity_bounds n :
  1 <= n < 2 ^ 31 ->
  exists c, scaled_capacity n = Some c /\ n <= c < 2 ^ 32.
Proof.
  intros Hn. unfold scaled_capacity.
  destruct (float_of_uint32_spec n) as (X & Ex & -> & HX & HE & Hlo & Hhi);
    [change (2 ^ 31) with 2147483648 in Hn; change (2 ^ 32) with 4294967296; lia|].
  destruct (times_capacity_scale X Ex HX HE) as (P & Ep & -> & Hc).
  unfold uint32_of_float.
  change (2 ^ 31) with 2147483648 in Hn.
  change (2 ^ 23) with 8388608 in *. change (2 ^ 24) with 16777216 in *.
  change (2 ^ 32) with 4294967296.
  assert (-23 <= Ex < -23 + Z.of_nat 33) as HE' by lia. clear HE.
  revert Hlo Hhi Hc. pattern Ex.
  apply (Z_range_cases _ (-23) 33); [|exact HE']. clear Ex HE'. intros i Hi.
  cbv beta.
  do 33 (destruct i as [|i];
    [intros Hlo Hhi [[-> Hp]|[-> Hp]];
     match goal with
     | |- context [if 0 <=? ?k then _ else _] =>
         let b := eval vm_compute in (0 <=? k) in
         change (0 <=? k) with b; cbv iota;
         try (let k' := eval vm_compute in (- k) in change (- k) with k')
     end;
     first [specialize (Hlo ltac:(lia)); clear Hhi
           |specialize (Hhi ltac:(lia)); clear Hlo];
     eval_closed;
     match goal with
     | |- context [if ?v <? ?b then _ else _] =>
         destruct (Z.ltb_spec v b) as [Hv|Hv];
           [eexists; split; [reflexivity|]|exfalso]
     end;
     Z.div_mod_to_equations; lia
    |]).
  lia.
Qed.

(** ** The methods of [ParticleSetData] and [ParticleSet] *)

Section ParticleSetFacts.
Import ParticleSystem.
Context `{Sizes}.
Context {elem : Type}.
Variable NDEBUG : bool.
Local Notation "x <- c ;; k" := (bind c (fun x => k))
  (at level 100, c at next level, right associativity).
Local Notation "c ;; k" := (bind c (fun _ => k))
  (at level 100, right associativity).
Implicit Types (m : gmap positive (list (option elem))) (ps qs : list positive)
  (b : list (option elem)).

Lemma bind_ret_tt (c : op elem unit) m : bind c (fun _ => ret tt) m = c m.
Proof. unfold bind, ret. by destruct (c m) as [[] ?| |]. Qed.

Lemma free_for_each d m : free d m = for_each free_if (arrays d) m.
Proof.
  unfold free, for_each, arrays. cbn [foldr]. unfold bind at 1 2 3 4 5 6 7 8 9.
  destruct (free_if (position d) m) as [[] m1| |]; [|done..].
  destruct (free_if (velocity d) m1) as [[] m2| |]; [|done..].
  destruct (free_if (size d) m2) as [[] m3| |]; [|done..].
  destruct (free_if (lifetime d) m3) as [[] m4| |]; [|done..].
  by destruct (free_if (color d) m4) as [[] m5| |].
Qed.

Lemma swap_for_each d i j m :
  (swap (position d) i j;; swap (velocity d) i j;; swap (size d) i j;;
   swap (lifetime d) i j;; swap (color d) i j) m
  = for_each (fun a => swap a i j) (arrays d) m.
Proof.
  unfold for_each, arrays. cbn [foldr]. unfold bind at 1 2 3 4 5 6 7 8 9.
  destruct (swap (position d) i j m) as [[] m1| |]; [|done..].
  destruct (swap (velocity d) i j m1) as [[] m2| |]; [|done..].
  destruct (swap (size d) i j m2) as [[] m3| |]; [|done..].
  destruct (swap (lifetime d) i j m3) as [[] m4| |]; [|done..].
  by destruct (swap (color d) i j m4) as [[] m5| |].
Qed.

Lemma allocate_arrays d m :
  allocate d m
  = match alloc_arrays 5 (capacity d) m with
    | Ok [p; v; s; l; c] m' => Ok (PSD (capacity d) p v s l c) m'
    | _ => Undefined
    end.
Proof. reflexivity. Qed.

Lemma alloc_arrays_spec k n : forall m,
  exists qs m',
    alloc_arrays k n m = Ok (Some <$> qs) m'
    /\ length qs = k /\ NoDup qs /\ (forall q, q ∈ qs -> m !! q = None)
    /\ forall x, m' !! x = if bool_decide (x ∈ qs)
                           then Some (replicate (Z.to_nat n) None) else m !! x.
Proof.
  induction k as [|k IH]; intros m.
  - exists [], m. cbn. split; [done|]. split; [done|]. split; [constructor|].
    split; [set_solver|]. intros x. by rewrite bool_decide_eq_false_2 by set_solver.
  - cbn [alloc_arrays]. unfold bind at 1, alloc_array at 1.
   
    set (p := fresh (dom m)).
    assert (m !! p = None) as Hp by (apply not_elem_of_dom, is_fresh).
    set (m1 := <[p := _]> m).
    destruct (IH m1) as (qs & m' & E & Hl & Hnd & Hfresh & Hlook).
    unfold bind. rewrite E. unfold ret.
    assert (p ∉ qs) as Hnin.
    { intros Hin. specialize (Hfresh p Hin). subst m1.
      by rewrite lookup_insert_eq in Hfresh. }
    exists (p :: qs), m'. split; [done|]. split; [cbn; lia|].
    split; [by constructor|]. split.
    + intros q [->|Hq]%elem_of_cons; [done|].
      specialize (Hfresh q Hq). subst m1.
      rewrite lookup_insert_ne in Hfresh; [done|]. intros ->. done.
    + intros x. rewrite Hlook. destruct (decide (x = p)) as [->|Hne].
      * rewrite bool_decide_eq_false_2 by done.
        rewrite bool_decide_eq_true_2 by left. subst m1.
        by rewrite lookup_insert_eq.
      * case_bool_decide as Hq.
        -- rewrite bool_decide_eq_true_2; [done|by right].
        -- rewrite bool_decide_eq_false_2; [|set_solver].
           subst m1. by rewrite lookup_insert_ne.
Qed.

Lemma for_each_cons {X} (f : X -> op elem unit) x l m :
  for_each f (x :: l) m = (f x;; for_each f l) m.
Proof. reflexivity. Qed.

Lemma free_if_live p m b :
  m !! p = Some b -> free_if (Some p) m = Ok tt (delete p m).
Proof. intros Hb. unfold free_if, free_array. by rewrite Hb. Qed.

Lemma for_each_free ps : forall m,
  NoDup ps -> (forall p, p ∈ ps -> is_Some (m !! p)) ->
  exists m', for_each free_if (Some <$> ps) m = Ok tt m'
    /\ forall x, m' !! x = if bool_decide (x ∈ ps) then None else m !! x.
Proof.
  induction ps as [|p ps IH]; intros m Hnd Hlive.
  - exists m. split; [done|]. intros x.
    by rewrite bool_decide_eq_false_2 by set_solver.
  - apply NoDup_cons in Hnd as [Hnin Hnd].
    destruct (Hlive p ltac:(left)) as [b Hb].
    rewrite fmap_cons, for_each_cons. unfold bind at 1.
    rewrite (free_if_live _ _ _ Hb).
    destruct (IH (delete p m) Hnd) as (m' & -> & Hlook).
    { intros q Hq. rewrite lookup_delete_ne; [apply Hlive; by right|].
      intros ->. done. }
    exists m'. split; [done|]. intros x. rewrite Hlook.
    destruct (decide (x = p)) as [->|Hne].
    + rewrite bool_decide_eq_false_2 by done.
      rewrite bool_decide_eq_true_2 by left. by rewrite lookup_delete_eq.
    + rewrite lookup_delete_ne by done.
      case_bool_decide as Hq.
      * rewrite bool_decide_eq_true_2; [done|by right].
      * rewrite bool_decide_eq_false_2; [done|set_solver].
Qed.

Lemma for_each_free_null m :
  for_each free_if [None; None; None; None; None] m = Ok tt m.
Proof. reflexivity. Qed.

Lemma memcpy_nothing sz q p m bq bp :
  m !! q = Some bq -> m !! p = Some bp -> q <> p ->
  memcpy sz (Some q) (Some p) 0 m = Ok tt m.
Proof.
  intros Hq Hp Hne. unfold memcpy. rewrite Hq, Hp.
  rewrite bool_decide_eq_true_2 by done.
  replace (0 <=? Z.pos sz * Z.of_nat (length bq)) with true
    by (symmetry; apply Z.leb_le; lia).
  replace (0 <=? Z.pos sz * Z.of_nat (length bp)) with true
    by (symmetry; apply Z.leb_le; lia).
  cbn. by rewrite insert_id.
Qed.

(** A copy that returns has written to its destination only. *)
Lemma memcpy_frame sz d src n m :
  memcpy sz (Some d) src n m = Undefined
  \/ exists m', memcpy sz (Some d) src n m = Ok tt m'
                /\ forall x, x <> d -> m' !! x = m !! x.
Proof.
  unfold memcpy. destruct src as [p|]; [|by left].
  destruct (m !! d) as [bd|]; [|by left]. destruct (m !! p) as [bp|]; [|by left].
  match goal with |- context [if ?c then _ else _] => destruct c end; [|by left].
  right. eexists. split; [done|]. intros x Hx. by rewrite lookup_insert_ne.
Qed.

(** A copy of more bytes than the source array has. *)
Lemma memcpy_past_source sz dst p n m b :
  m !! p = Some b -> Z.pos sz * Z.of_nat (length b) < n ->
  memcpy sz dst (Some p) n m = Undefined.
Proof.
  intros Hp Hn. unfold memcpy. destruct dst as [d|]; [|done].
  destruct (m !! d) as [bd|]; [|done]. rewrite Hp.
  replace (n <=? Z.pos sz * Z.of_nat (length b)) with false
    by (symmetry; apply Z.leb_gt; lia).
  by rewrite andb_false_r.
Qed.

(** A copy of more bytes than the destination array has. *)
Lemma memcpy_past_destination sz q src n m b :
  m !! q = Some b -> Z.pos sz * Z.of_nat (length b) < n ->
  memcpy sz (Some q) src n m = Undefined.
Proof.
  intros Hq Hn. unfold memcpy. destruct src as [p|]; [|done].
  rewrite Hq. destruct (m !! p) as [bp|]; [|done].
  replace (n <=? Z.pos sz * Z.of_nat (length b)) with false
    by (symmetry; apply Z.leb_gt; lia).
  by rewrite andb_false_r.
Qed.

Lemma swap_live p i j m b x y :
  m !! p = Some b -> 0 <= i -> 0 <= j ->
  b !! Z.to_nat i = Some x -> b !! Z.to_nat j = Some y ->
  swap (Some p) i j m
  = Ok tt (<[p := <[Z.to_nat j := x]> (<[Z.to_nat i := y]> b)]> m).
Proof.
  intros Hb Hi Hj Hx Hy.
  assert ((0 <=? i) = true) as Ei by (apply Z.leb_le; lia).
  assert ((0 <=? j) = true) as Ej by (apply Z.leb_le; lia).
  destruct (lookup_lt_is_Some_2 (<[Z.to_nat i := y]> b) (Z.to_nat j)) as [z Hz].
  { rewrite length_insert. by eapply lookup_lt_Some. }
  unfold swap, bind, load, store.
  rewrite Hb, Hx, Ei; cbv iota beta. rewrite Hb, Hy, Ej; cbv iota beta. rewrite Hb, Hx; cbv iota beta. rewrite lookup_insert_eq, Hz.
  by rewrite insert_insert_eq.
Qed.

(** A cell exchanged with another. *)
Lemma swapped_lookup b i j x y k :
  b !! i = Some x -> b !! j = Some y ->
  <[j := x]> (<[i := y]> b) !! k
  = if decide (k = j) then Some x else if decide (k = i) then Some y else b !! k.
Proof.
  intros Hx Hy. pose proof (lookup_lt_Some _ _ _ Hx). pose proof (lookup_lt_Some _ _ _ Hy).
  destruct (decide (k = j)) as [->|Hj].
  - rewrite list_lookup_insert_eq; [done|]. by rewrite length_insert.
  - rewrite list_lookup_insert_ne by done.
    destruct (decide (k = i)) as [->|Hi].
    + by rewrite list_lookup_insert_eq.
    + by rewrite list_lookup_insert_ne.
Qed.

Lemma for_each_swap i j ps : forall m,
  NoDup ps -> 0 <= i -> 0 <= j ->
  (forall p, p ∈ ps ->
     exists b, m !! p = Some b /\ i < Z.of_nat (length b) /\ j < Z.of_nat (length b)) ->
  exists m',
    for_each (fun a => swap a i j) (Some <$> ps) m = Ok tt m'
    /\ (forall p b, p ∈ ps -> m !! p = Some b ->
          exists x y, b !! Z.to_nat i = Some x /\ b !! Z.to_nat j = Some y
            /\ m' !! p = Some (<[Z.to_nat j := x]> (<[Z.to_nat i := y]> b)))
    /\ (forall x, x ∉ ps -> m' !! x = m !! x).
Proof.
  induction ps as [|p ps IH]; intros m Hnd Hi Hj Hlive.
  - exists m. split; [done|]. split; [|done]. intros p b Hp. by apply elem_of_nil in Hp.
  - apply NoDup_cons in Hnd as [Hnin Hnd].
    destruct (Hlive p ltac:(left)) as (b & Hb & Hli & Hlj).
    destruct (lookup_lt_is_Some_2 b (Z.to_nat i)) as [x Hx]; [lia|].
    destruct (lookup_lt_is_Some_2 b (Z.to_nat j)) as [y Hy]; [lia|].
    rewrite fmap_cons, for_each_cons. unfold bind at 1.
    rewrite (swap_live _ _ _ _ _ _ _ Hb Hi Hj Hx Hy).
    set (m1 := <[p := _]> m).
    destruct (IH m1 Hnd Hi Hj) as (m' & -> & Hsw & Hframe).
    { intros q Hq. destruct (Hlive q ltac:(by right)) as (bq & Hbq & ?).
      exists bq. split; [|done]. subst m1. rewrite lookup_insert_ne; [done|].
      intros ->. done. }
    exists m'. split; [done|]. split.
    + intros q bq [->|Hq]%elem_of_cons Hbq.
      * rewrite Hb in Hbq. injection Hbq as <-. exists x, y.
        split; [done|]. split; [done|]. rewrite Hframe by done.
        subst m1. by rewrite lookup_insert_eq.
      * apply Hsw; [done|]. subst m1. rewrite lookup_insert_ne; [done|].
        intros ->. done.
    + intros z Hz. rewrite Hframe by set_solver. subst m1.
      rewrite lookup_insert_ne; [done|]. intros ->. apply Hz. left.
Qed.

Lemma u32_small n : 0 <= n < 2 ^ 32 -> u32 n = n.
Proof. intros Hn. unfold u32. by apply Z.mod_small. Qed.

Lemma assert_true (t : bool) m : t = true -> assert NDEBUG t m = Ok tt m.
Proof. intros ->. unfold assert. by rewrite orb_true_r. Qed.

Lemma arrays_length d ps : arrays d = Some <$> ps -> length ps = 5%nat.
Proof. intros E. apply (f_equal length) in E. by rewrite length_fmap in E. Qed.

Lemma elem_of_arrays d ps x :
  arrays d = Some <$> ps -> Some x ∈ arrays d <-> x ∈ ps.
Proof.
  intros ->. rewrite list_elem_of_fmap. split.
  - by intros (y & [= ->] & Hy).
  - intros Hx. by exists x.
Qed.

(** The cells of a particle, array by array. *)
Lemma particle_lookup m d ps i k :
  arrays d = Some <$> ps ->
  particle m d i !! k
  = (fun p => b ← m !! p; if 0 <=? i then b !! Z.to_nat i else None) <$> ps !! k.
Proof.
  intros E. unfold particle. rewrite E, !list_lookup_fmap.
  by destruct (ps !! k).
Qed.

Lemma freeParticle_spec idx this m :
  valid m this -> 0 <= idx < mCount this ->
  exists m',
    freeParticle NDEBUG idx this m
      = Ok (PS (mParticles this) (mCount this - 1)) m'
    /\ valid m' (PS (mParticles this) (mCount this - 1))
    /\ (forall i, 0 <= i < mCount this - 1 ->
          particle m' (mParticles this) i
          = particle m (mParticles this)
              (if i =? idx then mCount this - 1 else i))
    /\ (forall x, Some x ∉ arrays (mParticles this) -> m' !! x = m !! x)
    /\ dom m' = dom m.
Proof.
  intros [Hc Hcap (ps & Ha & Hnd & Hlive)] Hidx.
  unfold freeParticle. unfold bind at 1.
  rewrite assert_true by (apply Z.ltb_lt; lia).
  rewrite u32_small by lia. unfold bind at 1.
  destruct (Z.eqb_spec idx (mCount this - 1)) as [Elast|Nlast]; cbn [negb].
  - exists m. unfold ret. split; [done|]. split.
    { split; cbn; [lia|lia|]. exists ps. by repeat split. }
    split; [|done]. intros i Hi.
    by replace (i =? idx) with false by (symmetry; apply Z.eqb_neq; lia).
  - rewrite swap_for_each, Ha.
    destruct (for_each_swap idx (mCount this - 1) ps m Hnd) as (m' & -> & Hsw & Hframe);
      [lia|lia| |].
    { intros p Hp. destruct (Hlive p Hp) as (b & Hb & Hl). exists b.
      split; [done|lia]. }
    exists m'. unfold ret. split; [done|]. split; [|split; [|split]].
    + split; cbn; [lia|lia|]. exists ps. split; [done|]. split; [done|].
      intros p Hp. destruct (Hlive p Hp) as (b & Hb & Hl).
      destruct (Hsw p b Hp Hb) as (x & y & _ & _ & Hm').
      eexists. split; [exact Hm'|]. by rewrite !length_insert.
    + intros i Hi. apply list_eq. intros k.
      rewrite !(particle_lookup _ _ ps) by done.
      destruct (ps !! k) as [p|] eqn:Hk; [|done]. cbn.
      assert (p ∈ ps) as Hp by (by eapply list_elem_of_lookup_2).
      destruct (Hlive p Hp) as (b & Hb & Hl).
      destruct (Hsw p b Hp Hb) as (x & y & Hx & Hy & ->). rewrite Hb. cbn.
      replace (0 <=? i) with true by (symmetry; apply Z.leb_le; lia).
      rewrite (swapped_lookup _ _ _ _ _ _ Hx Hy).
      rewrite decide_False by lia.
      destruct (Z.eqb_spec i idx) as [->|Hne].
      * rewrite decide_True by done.
        replace (0 <=? mCount this - 1) with true by (symmetry; apply Z.leb_le; lia).
        by rewrite Hy.
      * rewrite decide_False by lia.
        by replace (0 <=? i) with true by (symmetry; apply Z.leb_le; lia).
    + intros x Hx. apply Hframe. intros Hin. apply Hx.
      apply list_elem_of_fmap. by exists x.
    + apply set_eq. intros x. rewrite !elem_of_dom.
      destruct (decide (x ∈ ps)) as [Hp|Hp].
      * destruct (Hlive x Hp) as (b & Hb & Hl).
        destruct (Hsw x b Hp Hb) as (? & ? & _ & _ & ->). rewrite Hb.
        split; eauto.
      * by rewrite Hframe.
Qed.

Lemma ParticleSetData_new_spec n m :
  0 <= n ->
  exists qs d m',
    allocate (PSD n None None None None None) m = Ok d m'
    /\ capacity d = n /\ arrays d = Some <$> qs /\ NoDup qs
    /\ (forall q, q ∈ qs -> m !! q = None)
    /\ forall x, m' !! x = if bool_decide (x ∈ qs)
                           then Some (replicate (Z.to_nat n) None) else m !! x.
Proof.
  intros Hn. rewrite allocate_arrays. cbn [capacity].
  destruct (alloc_arrays_spec 5 n m) as (qs & m' & -> & Hl & Hnd & Hfresh & Hlook).
  destruct qs as [|q1 [|q2 [|q3 [|q4 [|q5 [|]]]]]]; try discriminate.
  exists [q1; q2; q3; q4; q5]. eexists. exists m'. cbn [fmap list_fmap].
  split; [reflexivity|]. done.
Qed.

(** A copy from a set of capacity 0 copies nothing. *)
Lemma copy_nothing this other m ps qs :
  arrays other = Some <$> ps -> arrays this = Some <$> qs ->
  capacity other = 0 -> 0 <= capacity this ->
  (forall p, p ∈ ps -> is_Some (m !! p)) ->
  (forall q, q ∈ qs -> is_Some (m !! q)) ->
  (forall q, q ∈ qs -> q ∉ ps) ->
  copy NDEBUG this other m = Ok tt m.
Proof.
  intros Ha Hd Hcap Hc Hp Hq Hdis.
  pose proof (arrays_length _ _ Ha) as Hlp.
  pose proof (arrays_length _ _ Hd) as Hlq.
  destruct ps as [|s1 [|s2 [|s3 [|s4 [|s5 [|]]]]]]; try discriminate.
  destruct qs as [|d1 [|d2 [|d3 [|d4 [|d5 [|]]]]]]; try discriminate.
  injection Ha as E1 E2 E3 E4 E5. injection Hd as D1 D2 D3 D4 D5.
  unfold copy. rewrite Hcap, E1, E2, E3, E4, E5, D1, D2, D3, D4, D5.
  unfold bind at 1. rewrite assert_true by (apply Z.leb_le; lia).
  cbn [Z.mul].
  assert (forall d s, d ∈ [d1; d2; d3; d4; d5] -> s ∈ [s1; s2; s3; s4; s5] ->
            exists bd bs, m !! d = Some bd /\ m !! s = Some bs /\ d <> s) as L.
  { intros d s Hd Hs. destruct (Hq d Hd) as [bd Hbd].
    destruct (Hp s Hs) as [bs Hbs]. exists bd, bs. split; [done|]. split; [done|].
    intros ->. by apply (Hdis s). }
  destruct (L d1 s1) as (? & ? & ? & ? & ?); [set_solver..|].
  destruct (L d2 s2) as (? & ? & ? & ? & ?); [set_solver..|].
  destruct (L d3 s3) as (? & ? & ? & ? & ?); [set_solver..|].
  destruct (L d4 s4) as (? & ? & ? & ? & ?); [set_solver..|].
  destruct (L d5 s5) as (? & ? & ? & ? & ?); [set_solver..|].
  unfold bind. by erewrite !memcpy_nothing.
Qed.

(** A copy from a set that is not empty, with an [RGBA] smaller than a
    [Color]: the last [memcpy] asks for more bytes than the colour
    array of [other] has. *)
Lemma copy_overflows this other m ps qs :
  arrays other = Some <$> ps -> arrays this = Some <$> qs ->
  0 < capacity other <= capacity this ->
  (forall p, p ∈ ps ->
     exists b, m !! p = Some b /\ Z.of_nat (length b) = capacity other) ->
  (forall q, q ∈ qs -> q ∉ ps) ->
  (sizeof_RGBA < sizeof_Color)%positive ->
  copy NDEBUG this other m = Undefined.
Proof.
  intros Ha Hd Hcap Hp Hdis Hsz.
  pose proof (arrays_length _ _ Ha) as Hlp.
  pose proof (arrays_length _ _ Hd) as Hlq.
  destruct ps as [|s1 [|s2 [|s3 [|s4 [|s5 [|]]]]]]; try discriminate.
  destruct qs as [|d1 [|d2 [|d3 [|d4 [|d5 [|]]]]]]; try discriminate.
  injection Ha as E1 E2 E3 E4 E5. injection Hd as D1 D2 D3 D4 D5.
  unfold copy. rewrite E1, E2, E3, E4, E5, D1, D2, D3, D4, D5.
  unfold bind at 1. rewrite assert_true by (apply Z.leb_le; lia).
  destruct (Hp s5) as (b & Hb & Hl); [set_solver|].
  assert (forall d, d ∈ [d1; d2; d3; d4] -> s5 <> d) as Hne.
  { intros d Hin ->. apply (Hdis d); set_solver. }
  unfold bind at 1.
  destruct (memcpy_frame sizeof_Vector3 d1 (Some s1)
              (capacity other * Z.pos sizeof_Vector3) m) as [-> | (m1 & -> & F1)];
    [done|].
  unfold bind at 1.
  destruct (memcpy_frame sizeof_Vector3 d2 (Some s2)
              (capacity other * Z.pos sizeof_Vector3) m1) as [-> | (m2 & -> & F2)];
    [done|].
  unfold bind at 1.
  destruct (memcpy_frame sizeof_Vector3 d3 (Some s3)
              (capacity other * Z.pos sizeof_Vector3) m2) as [-> | (m3 & -> & F3)];
    [done|].
  unfold bind at 1.
  destruct (memcpy_frame sizeof_float d4 (Some s4)
              (capacity other * Z.pos sizeof_float) m3) as [-> | (m4 & -> & F4)];
    [done|].
  apply (memcpy_past_source _ _ _ _ _ b).
  - rewrite F4, F3, F2, F1 by (apply Hne; set_solver). done.
  - rewrite Hl. nia.
Qed.

Lemma allocParticles_spec count this m :
  valid m this -> 0 <= count -> mCount this + count < 2 ^ 31 ->
  mCount this + count <= capacity (mParticles this)
  \/ capacity (mParticles this) = 0 ->
  exists this' m',
    allocParticles NDEBUG count this m = Ok (mCount this, this') m'
    /\ mCount this' = mCount this + count
    /\ valid m' this'
    /\ (forall i, 0 <= i < mCount this ->
          particle m' (mParticles this') i = particle m (mParticles this) i)
    /\ (forall x, Some x ∉ arrays (mParticles this) ->
                  Some x ∉ arrays (mParticles this') -> m' !! x = m !! x)
    /\ (mCount this + count <= capacity (mParticles this) ->
        mParticles this' = mParticles this /\ m' = m)
    /\ (capacity (mParticles this) < mCount this + count ->
        (forall x, Some x ∈ arrays (mParticles this) -> m' !! x = None)
        /\ (forall x, Some x ∈ arrays (mParticles this') -> m !! x = None)).
Proof.
  intros [Hc Hcap (ps & Ha & Hnd & Hlive)] Hcount Hsum Hroom.
  change (2 ^ 31) with 2147483648 in Hsum. change (2 ^ 32) with 4294967296 in Hcap.
  unfold allocParticles. rewrite u32_small by (change (2 ^ 32) with 4294967296; lia).
  set (n := mCount this + count) in *.
  destruct (Z.ltb_spec (capacity (mParticles this)) n) as [Hgrow|Hfits].
  2:{ (* the buffers are large enough *)
    exists (PS (mParticles this) n), m. unfold ret. split; [done|]. split; [done|].
    split; [|split; [done|split; [done|split; [done|lia]]]].
    split; cbn; [lia|done|]. exists ps. by repeat split. }
  (* new buffers, for a set that had none *)
  assert (capacity (mParticles this) = 0) as Hzero by lia. clear Hroom.
  destruct (scaled_capacity_bounds n) as (c & -> & Hc1 & Hc2);
    [change (2 ^ 31) with 2147483648; lia|].
  change (2 ^ 32) with 4294967296 in Hc2.
  unfold bind at 1, ParticleSetData_new_from, bind at 1.
  destruct (ParticleSetData_new_spec c m) as (qs & d & m1 & -> & Hcd & Hd & Hndq & Hfresh & Hm1);
    [lia|].
  assert (forall q, q ∈ qs -> q ∉ ps) as Hdis.
  { intros q Hq Hp. destruct (Hlive q Hp) as (b & Hb & _).
    by rewrite (Hfresh q Hq) in Hb. }
  (* copy *)
  unfold bind at 1.
  rewrite (copy_nothing d (mParticles this) m1 ps qs); try done; [|lia| |].
  2:{ intros p Hp. destruct (Hlive p Hp) as (b & Hb & Hl).
      rewrite Hm1, bool_decide_eq_false_2; [by rewrite Hb|].
      intros Hq. by apply (Hdis p). }
  2:{ intros q Hq. by rewrite Hm1, bool_decide_eq_true_2. }
  unfold ret at 1.
  (* the old buffers are given back, the new ones taken over *)
  unfold bind at 1, move_assign, bind at 1.
  rewrite free_for_each, Ha.
  destruct (for_each_free ps m1 Hnd) as (m3 & -> & Hm3).
  { intros p Hp. destruct (Hlive p Hp) as (b & Hb & Hl).
    rewrite Hm1. rewrite bool_decide_eq_false_2; [by rewrite Hb|].
    intros Hq. by apply (Hdis p). }
  unfold ret at 1. cbn [move fst snd].
  unfold bind at 1, ParticleSetData_dtor. rewrite free_for_each.
  cbn [arrays position velocity size lifetime color]. rewrite for_each_free_null.
  unfold ret.
  assert (PSD (capacity d) (position d) (velocity d) (size d) (lifetime d) (color d)
          = d) as -> by (by destruct d).
  exists (PS d n), m3. split; [done|]. split; [done|].
  assert (forall q, q ∈ qs -> m3 !! q = Some (replicate (Z.to_nat c) None)) as Hnew.
  { intros q Hq. rewrite Hm3, bool_decide_eq_false_2 by (by apply Hdis).
    by rewrite Hm1, bool_decide_eq_true_2. }
  split; [|split; [|split; [|split; [lia|]]]].
  - (* the set is well formed *)
    split; cbn [mCount mParticles]; [lia|change (2 ^ 32) with 4294967296; lia|].
    exists qs. split; [done|]. split; [done|]. intros q Hq.
    rewrite (Hnew q Hq). eexists. split; [done|].
    rewrite length_replicate. lia.
  - (* there were no particles *)
    intros i Hi. lia.
  - (* the rest of the memory is untouched *)
    cbn [mParticles]. intros x Hx Hx'.
    rewrite ?Ha in Hx. rewrite ?Hd in Hx'.
    assert (x ∉ ps) as Hp by (intros ?; apply Hx, list_elem_of_fmap; by exists x).
    assert (x ∉ qs) as Hq by (intros ?; apply Hx', list_elem_of_fmap; by exists x).
    rewrite Hm3, bool_decide_eq_false_2 by done.
    by rewrite Hm1, bool_decide_eq_false_2.
  - intros _. cbn [mParticles]. split.
    + intros x Hx. rewrite ?Ha in Hx.
      apply list_elem_of_fmap in Hx as (y & [= <-] & Hy).
      by rewrite Hm3, bool_decide_eq_true_2.
    + intros x Hx. rewrite ?Hd in Hx.
      apply list_elem_of_fmap in Hx as (y & [= <-] & Hy). by apply Hfresh.
Qed.

(** Growth of a set that has arrays of a positive length, with an
    [RGBA] smaller than a [Color]: the copy into the new arrays reads
    past the end of the old colour array. *)
Lemma allocParticles_overflows count this m :
  valid m this -> 0 <= count -> mCount this + count < 2 ^ 31 ->
  capacity (mParticles this) < mCount this + count ->
  0 < capacity (mParticles this) ->
  (sizeof_RGBA < sizeof_Color)%positive ->
  allocParticles NDEBUG count this m = Undefined.
Proof.
  intros [Hc Hcap (ps & Ha & Hnd & Hlive)] Hcount Hsum Hgrow Hpos Hsz.
  change (2 ^ 31) with 2147483648 in Hsum. change (2 ^ 32) with 4294967296 in Hcap.
  unfold allocParticles. rewrite u32_small by (change (2 ^ 32) with 4294967296; lia).
  set (n := mCount this + count) in *.
  replace (capacity (mParticles this) <? n) with true
    by (symmetry; apply Z.ltb_lt; lia).
  destruct (scaled_capacity_bounds n) as (c & -> & Hc1 & Hc2);
    [change (2 ^ 31) with 2147483648; lia|].
  unfold bind at 1, ParticleSetData_new_from, bind at 1.
  destruct (ParticleSetData_new_spec c m) as (qs & d & m1 & -> & Hcd & Hd & Hndq & Hfresh & Hm1);
    [lia|].
  assert (forall q, q ∈ qs -> q ∉ ps) as Hdis.
  { intros q Hq Hp. destruct (Hlive q Hp) as (b & Hb & _).
    by rewrite (Hfresh q Hq) in Hb. }
  unfold bind at 1.
  rewrite (copy_overflows d (mParticles this) m1 ps qs); try done; [lia|].
  intros p Hp. destruct (Hlive p Hp) as (b & Hb & Hl). exists b. split; [|done].
  rewrite Hm1, bool_decide_eq_false_2; [done|]. intros Hq. by apply (Hdis p).
Qed.

(** [ParticleSet::ParticleSet]: the new set is well formed and empty,
    its five arrays are new and what was in the memory is as before. *)
Theorem ParticleSet_new_valid n m :
  0 <= n < 2 ^ 32 ->
  exists this m',
    ParticleSet_new n m = Ok this m'
    /\ valid m' this /\ mCount this = 0 /\ capacity (mParticles this) = n
    /\ (forall x, Some x ∈ arrays (mParticles this) -> m !! x = None)
    /\ (forall x, Some x ∉ arrays (mParticles this) -> m' !! x = m !! x).
Proof.
  intros Hn. unfold ParticleSet_new, bind, ParticleSetData_new.
  destruct (ParticleSetData_new_spec n m) as (qs & d & m' & -> & Hcd & Hd & Hnd & Hfresh & Hm');
    [lia|].
  exists (PS d 0), m'. unfold ret. split; [done|]. cbn [mCount mParticles].
  split; [|split; [done|split; [done|split]]].
  - split; cbn [mCount mParticles]; [lia|lia|].
    exists qs. split; [done|]. split; [done|]. intros q Hq. eexists.
    split; [by rewrite Hm', bool_decide_eq_true_2|].
    rewrite length_replicate. lia.
  - intros x Hx. apply (elem_of_arrays _ _ _ Hd) in Hx. by apply Hfresh.
  - intros x Hx. rewrite Hm', bool_decide_eq_false_2; [done|].
    intros Hq. by apply Hx, (elem_of_arrays _ _ _ Hd).
Qed.

Lemma store_live p i c m b :
  m !! p = Some b -> 0 <= i < Z.of_nat (length b) ->
  store (Some p) i c m = Ok tt (<[p := <[Z.to_nat i := c]> b]> m).
Proof.
  intros Hb Hi. unfold store. rewrite Hb.
  destruct (lookup_lt_is_Some_2 b (Z.to_nat i)) as [x ->]; [lia|].
  by replace (0 <=? i) with true by (symmetry; apply Z.leb_le; lia).
Qed.

Ltac range_cases :=
  repeat match goal with
  | |- context [?a <=? ?b] => destruct (Z.leb_spec a b)
  | |- context [?a <? ?b] => destruct (Z.ltb_spec a b)
  end; cbn [andb]; try lia.

Lemma spawn_loop_spec shape d p1 p2 n : forall i m b1 b2,
  position d = Some p1 -> velocity d = Some p2 -> p1 <> p2 ->
  m !! p1 = Some b1 -> m !! p2 = Some b2 ->
  0 <= i -> i + Z.of_nat n <= Z.of_nat (length b1) ->
  i + Z.of_nat n <= Z.of_nat (length b2) -> i + Z.of_nat n < 2 ^ 32 ->
  exists m' b1' b2',
    spawn_loop shape d n i m = Ok tt m'
    /\ m' !! p1 = Some b1' /\ m' !! p2 = Some b2'
    /\ length b1' = length b1 /\ length b2' = length b2
    /\ (forall j, 0 <= j ->
          b1' !! Z.to_nat j
          = if (i <=? j) && (j <? i + Z.of_nat n)
            then Some (Some (shape j).1) else b1 !! Z.to_nat j)
    /\ (forall j, 0 <= j ->
          b2' !! Z.to_nat j
          = if (i <=? j) && (j <? i + Z.of_nat n)
            then Some (Some (shape j).2) else b2 !! Z.to_nat j)
    /\ (forall x, x <> p1 -> x <> p2 -> m' !! x = m !! x).
Proof.
  induction n as [|n IH]; intros i m b1 b2 E1 E2 Hne Hb1 Hb2 Hi Hl1 Hl2 Hmax.
  - exists m, b1, b2. cbn [spawn_loop]. unfold ret.
    repeat split; try done; intros j Hj; by range_cases.
  - cbn [spawn_loop]. rewrite E1, E2. unfold bind at 1.
    rewrite (store_live _ _ _ _ _ Hb1) by lia.
    set (m1 := <[p1 := _]> m). unfold bind at 1.
    assert (m1 !! p2 = Some b2) as Hb2' by (subst m1; by rewrite lookup_insert_ne).
    rewrite (store_live _ _ _ _ _ Hb2') by lia.
    set (m2 := <[p2 := _]> m1).
    rewrite u32_small by lia.
    destruct (IH (i + 1) m2 (<[Z.to_nat i := Some (shape i).1]> b1)
                (<[Z.to_nat i := Some (shape i).2]> b2))
      as (m' & b1' & b2' & Hrun & Hp1 & Hp2 & Hlen1 & Hlen2 & Hc1 & Hc2 & Hframe);
      try done; rewrite ?length_insert; try lia.
    { subst m2 m1. rewrite lookup_insert_ne by done. by rewrite lookup_insert_eq. }
    { subst m2. by rewrite lookup_insert_eq. }
    rewrite Hrun.
    exists m', b1', b2'. split; [done|]. split; [done|]. split; [done|].
    rewrite length_insert in Hlen1, Hlen2.
    split; [done|]. split; [done|]. split; [|split].
    + intros j Hj. rewrite Hc1 by done.
      destruct (Z.eq_dec j i) as [->|Hji].
      * range_cases. apply list_lookup_insert_eq. lia.
      * rewrite list_lookup_insert_ne by lia. by range_cases.
    + intros j Hj. rewrite Hc2 by done.
      destruct (Z.eq_dec j i) as [->|Hji].
      * range_cases. apply list_lookup_insert_eq. lia.
      * rewrite list_lookup_insert_ne by lia. by range_cases.
    + intros x Hx1 Hx2. rewrite Hframe by done. subst m2 m1.
      by rewrite !lookup_insert_ne.
Qed.

(** [spawn(random, particles, count, state)] of the emitter shapes, on
    a well-formed set.  When the new particles fit the capacity, or
    the set has capacity 0, the loop writes inside the arrays only;
    the set is well formed afterwards, the particles that were there
    are untouched, and each new particle has the position and the
    normal that the shape gave it.  When the arrays, of a positive
    length, have to grow, the call is undefined before a particle is
    written: [copy] takes [sizeof(Color)] bytes for each element of
    the [RGBA] array. *)
Theorem spawn_fills_new_particles shape this count m :
  valid m this -> 0 <= count -> mCount this + count < 2 ^ 31 ->
  (mCount this + count <= capacity (mParticles this)
   \/ capacity (mParticles this) = 0 ->
   exists this' m',
     spawn NDEBUG shape this count m = Ok this' m'
     /\ mCount this' = mCount this + count /\ valid m' this'
     /\ (forall i, 0 <= i < mCount this ->
           particle m' (mParticles this') i = particle m (mParticles this) i)
     /\ (forall i, mCount this <= i < mCount this + count ->
           take 2 (particle m' (mParticles this') i)
           = [Some (Some (shape i).1); Some (Some (shape i).2)]))
  /\ (capacity (mParticles this) < mCount this + count ->
      0 < capacity (mParticles this) ->
      (sizeof_RGBA < sizeof_Color)%positive ->
      spawn NDEBUG shape this count m = Undefined).
Proof.
  intros Hv Hcount Hsum. split.
  2:{ intros Hgrow Hpos Hsz. unfold spawn, bind at 1.
      by rewrite allocParticles_overflows. }
  intros Hroom. pose proof Hv as [Hc0 _ _].
  destruct (allocParticles_spec count this m Hv Hcount Hsum Hroom)
    as (this1 & m1 & Hrun & Hcnt & Hv1 & Hkeep & _).
  change (2 ^ 31) with 2147483648 in Hsum.
  unfold spawn, bind at 1. rewrite Hrun. cbn [fst snd]. unfold getParticles.
  destruct Hv1 as [Hc1 Hcap1 (qs & Ha1 & Hnd1 & Hlive1)].
  pose proof (arrays_length _ _ Ha1) as Hlq.
  destruct qs as [|p1 [|p2 [|p3 [|p4 [|p5 [|]]]]]]; try discriminate.
  injection Ha1 as E1 E2 E3 E4 E5.
  assert (p1 <> p2 /\ forall x, x ∈ [p3; p4; p5] -> x <> p1 /\ x <> p2) as [Hne Hrest].
  { apply NoDup_cons in Hnd1 as [N1 Hnd1]. apply NoDup_cons in Hnd1 as [N2 _].
    split; [set_solver|]. intros x Hx. split; intros ->; set_solver. }
  destruct (Hlive1 p1 ltac:(set_solver)) as (b1 & Hb1 & Hl1).
  destruct (Hlive1 p2 ltac:(set_solver)) as (b2 & Hb2 & Hl2).
  rewrite u32_small by (change (2 ^ 32) with 4294967296; lia).
  replace (mCount this + count - mCount this) with count by lia.
  destruct (spawn_loop_spec shape (mParticles this1) p1 p2 (Z.to_nat count)
              (mCount this) m1 b1 b2)
    as (m' & b1' & b2' & Hloop & Hp1 & Hp2 & Hlen1 & Hlen2 & Hc1' & Hc2' & Hframe);
    try done; try lia.
  unfold bind, ret. rewrite Hloop.
  exists this1, m'. split; [done|]. split; [done|].
  assert (arrays (mParticles this1) = Some <$> [p1; p2; p3; p4; p5]) as Ha1.
  { unfold arrays. by rewrite E1, E2, E3, E4, E5. }
  assert (forall x, x ∈ [p3; p4; p5] -> m' !! x = m1 !! x) as Hothers.
  { intros x Hx. destruct (Hrest x Hx). by apply Hframe. }
  split; [|split].
  - split; [done|done|]. exists [p1; p2; p3; p4; p5].
    split; [done|]. split; [done|]. intros x Hx.
    apply elem_of_cons in Hx as [->|Hx]; [exists b1'; split; [done|lia]|].
    apply elem_of_cons in Hx as [->|Hx]; [exists b2'; split; [done|lia]|].
    rewrite Hothers by done. apply Hlive1. set_solver.
  - intros i Hi. rewrite <- (Hkeep i Hi). apply list_eq. intros k.
    rewrite !(particle_lookup _ _ [p1; p2; p3; p4; p5]) by done.
    destruct k as [|[|k]]; cbn.
    + rewrite Hp1, Hb1. cbn. rewrite Hc1' by lia. by range_cases.
    + rewrite Hp2, Hb2. cbn. rewrite Hc2' by lia. by range_cases.
    + destruct ([p3; p4; p5] !! k) as [x|] eqn:Hk; [|done]. cbn.
      by rewrite Hothers by (by eapply list_elem_of_lookup_2).
  - intros i Hi. unfold particle. rewrite Ha1. cbn. rewrite Hp1, Hp2. cbn.
    rewrite Hc1', Hc2' by lia. by range_cases.
Qed.

(** [allocParticles] and [freeParticle]: with room for one more
    particle, or on a set of capacity 0, which gets its first arrays,
    a particle that is allocated and freed again leaves the count and
    the particles that were there as they were. *)
Theorem allocParticles_freeParticle this m :
  valid m this -> mCount this + 1 < 2 ^ 31 ->
  mCount this + 1 <= capacity (mParticles this)
  \/ capacity (mParticles this) = 0 ->
  exists this1 m1 this2 m2,
    allocParticles NDEBUG 1 this m = Ok (mCount this, this1) m1
    /\ freeParticle NDEBUG (mCount this) this1 m1 = Ok this2 m2
    /\ mCount this2 = mCount this /\ valid m2 this2
    /\ forall i, 0 <= i < mCount this ->
         particle m2 (mParticles this2) i = particle m (mParticles this) i.
Proof.
  intros Hv Hsum Hroom. pose proof Hv as [Hc0 _ _].
  destruct (allocParticles_spec 1 this m Hv ltac:(lia) Hsum Hroom)
    as (this1 & m1 & Hrun & Hcnt & Hv1 & Hkeep & _).
  destruct (freeParticle_spec (mCount this) this1 m1 Hv1 ltac:(lia))
    as (m2 & Hfree & Hv2 & Hkeep2 & _).
  exists this1, m1, (PS (mParticles this1) (mCount this1 - 1)), m2.
  split; [done|]. split; [done|]. cbn [mCount mParticles].
  split; [lia|]. split; [done|]. intros i Hi.
  rewrite Hkeep2 by lia.
  replace (i =? mCount this) with false by (symmetry; apply Z.eqb_neq; lia).
  by apply Hkeep.
Qed.
End ParticleSetFacts.

(** ** Properties of the particle set *)

Section ParticleSetProperties.
Import ParticleSystem.
Context `{Sizes}.
Context {elem : Type}.
Variable NDEBUG : bool.
Implicit Types (m : gmap positive (list (option elem))).

(** [ParticleSet::allocParticles], the new capacity: for every count
    from 1 to 2^31 - 1 the scaled capacity is defined, fits a [UINT32]
    and is at least the count, although the product with 1.2f is
    rounded to 24 bits and the count itself may be. *)
Theorem scaled_capacity_covers n :
  1 <= n < 2 ^ 31 ->
  exists c, scaled_capacity n = Some c /\ n <= c < 2 ^ 32.
Proof. apply scaled_capacity_bounds. Qed.

(** [ParticleSet::allocParticles], where it returns: on a well-formed
    set, with the new count below 2^31, and when the new count fits the
    capacity or the set has capacity 0 (its arrays are empty, so that
    growth copies nothing), the call returns the old count as the
    index of the first new particle; the set is well formed again, so
    the new count is within the capacity and the cells from the index
    on exist; and the particles that were there are the same, cell by
    cell. *)
Theorem allocParticles_keeps_particles count this m :
  valid m this -> 0 <= count -> mCount this + count < 2 ^ 31 ->
  mCount this + count <= capacity (mParticles this)
  \/ capacity (mParticles this) = 0 ->
  exists this' m',
    allocParticles NDEBUG count this m = Ok (mCount this, this') m'
    /\ mCount this' = mCount this + count
    /\ valid m' this'
    /\ (forall i, 0 <= i < mCount this ->
          particle m' (mParticles this') i = particle m (mParticles this) i).
Proof.
  intros Hv Hc Hs Hroom.
  destruct (allocParticles_spec NDEBUG count this m Hv Hc Hs Hroom)
    as (this' & m' & H1 & H2 & H3 & H4 & _).
  by exists this', m'.
Qed.

(** [ParticleSet::allocParticles], the memory.  When the count fits
    the capacity nothing is allocated, given back or written.  When a
    set of capacity 0 grows, its five arrays are given back, once
    each, the five arrays of the set are new ones, and every other
    array is as it was.  When a set of a positive capacity grows, the
    call is undefined in both builds, if an [RGBA] is smaller than a
    [Color]: [copy] asks [memcpy] for [sizeof(Color)] bytes for each
    element of the old colour array, whose elements are [RGBA]. *)
Theorem allocParticles_memory count this m :
  valid m this -> 0 <= count -> mCount this + count < 2 ^ 31 ->
  (mCount this + count <= capacity (mParticles this) ->
   allocParticles NDEBUG count this m
   = Ok (mCount this, PS (mParticles this) (mCount this + count)) m)
  /\ (capacity (mParticles this) < mCount this + count ->
      capacity (mParticles this) = 0 ->
      exists this' m',
        allocParticles NDEBUG count this m = Ok (mCount this, this') m'
        /\ (forall x, Some x ∈ arrays (mParticles this) -> m' !! x = None)
        /\ (forall x, Some x ∈ arrays (mParticles this') ->
              m !! x = None /\ is_Some (m' !! x))
        /\ (forall x, Some x ∉ arrays (mParticles this) ->
                      Some x ∉ arrays (mParticles this') -> m' !! x = m !! x))
  /\ (capacity (mParticles this) < mCount this + count ->
      0 < capacity (mParticles this) ->
      (sizeof_RGBA < sizeof_Color)%positive ->
      allocParticles NDEBUG count this m = Undefined).
Proof.
  intros Hv Hc Hs. split; [|split].
  - intros Hfits.
    destruct (allocParticles_spec NDEBUG count this m Hv Hc Hs (or_introl Hfits))
      as (this' & m' & H1 & H2 & _ & _ & _ & H6 & _).
    destruct (H6 Hfits) as [E ->]. rewrite H1. f_equal. f_equal.
    destruct this' as [d n]. cbn in *. by subst.
  - intros Hg Hzero.
    destruct (allocParticles_spec NDEBUG count this m Hv Hc Hs (or_intror Hzero))
      as (this' & m' & H1 & _ & H3 & _ & H5 & _ & H7).
    exists this', m'. split; [done|].
    destruct (H7 Hg) as [Hold Hnew]. split; [done|]. split; [|done].
    intros x Hx. split; [by apply Hnew|].
    destruct H3 as [_ _ (qs & Ha & _ & Hlive)].
    apply (elem_of_arrays _ _ _ Ha) in Hx.
    destruct (Hlive x Hx) as (b & -> & _). eauto.
  - intros Hg Hpos Hsz. by apply allocParticles_overflows.
Qed.

(** [ParticleSet::freeParticle]: on a well-formed set and for an index
    below the count, the count goes down by one, the particle that was
    last takes the place of the one removed, in all five arrays, and
    every other particle stays at its index; the active particles are
    the first ones as before, and no array is allocated or given
    back. *)
Theorem freeParticle_removes idx this m :
  valid m this -> 0 <= idx < mCount this ->
  exists m',
    freeParticle NDEBUG idx this m
      = Ok (PS (mParticles this) (mCount this - 1)) m'
    /\ valid m' (PS (mParticles this) (mCount this - 1))
    /\ (forall i, 0 <= i < mCount this - 1 ->
          particle m' (mParticles this) i
          = particle m (mParticles this)
              (if i =? idx then mCount this - 1 else i))
    /\ (forall x, Some x ∉ arrays (mParticles this) -> m' !! x = m !! x)
    /\ dom m' = dom m.
Proof. apply freeParticle_spec. Qed.

(** [ParticleSetData::operator=(ParticleSetData&&)] and the destructor
    of the source: the arrays of the target are given back, once each;
    the target takes over the arrays of the source, which is left with
    none and capacity 0, so that its destructor gives nothing back and
    the arrays that have changed hands stay live. *)
Theorem move_assign_leaves_source_empty this other m ps :
  arrays this = Some <$> ps -> NoDup ps ->
  (forall p, p ∈ ps -> is_Some (m !! p)) ->
  exists left m',
    move_assign this other m = Ok (other, left) m'
    /\ capacity left = 0 /\ arrays left = [None; None; None; None; None]
    /\ (forall x, m' !! x = if bool_decide (x ∈ ps) then None else m !! x)
    /\ ParticleSetData_dtor left m' = Ok tt m'.
Proof.
  intros Ha Hnd Hlive. unfold move_assign, bind. rewrite free_for_each, Ha.
  destruct (for_each_free ps m Hnd Hlive) as (m' & -> & Hm').
  unfold ret, move. eexists _, m'.
  split; [by destruct other|]. split; [done|]. split; [done|]. split; [done|].
  unfold ParticleSetData_dtor. by rewrite free_for_each.
Qed.

(** [ParticleSetData(capacity, other)] and [copy]: a set cannot be
    copied into a smaller one.  The debug build stops at the
    [assert]; without it the first [memcpy] writes past the end of the
    new array. *)
Theorem copy_needs_room n other m ps :
  arrays other = Some <$> ps ->
  (forall p, p ∈ ps ->
     exists b, m !! p = Some b /\ Z.of_nat (length b) = capacity other) ->
  0 <= n < capacity other ->
  ParticleSetData_new_from NDEBUG n other m
  = if NDEBUG then Undefined else AssertFailed.
Proof.
  intros Ha Hlive Hn. unfold ParticleSetData_new_from, bind at 1.
  destruct (ParticleSetData_new_spec n m) as (qs & d & m1 & -> & Hcd & Hd & Hnd & Hfresh & Hm1);
    [lia|].
  unfold bind at 1, copy, bind at 1, assert. rewrite Hcd.
  replace (capacity other <=? n) with false by (symmetry; apply Z.leb_gt; lia).
  rewrite orb_false_r. destruct NDEBUG; [|done].
  pose proof (arrays_length _ _ Ha) as Hlp.
  pose proof (arrays_length _ _ Hd) as Hlq.
  destruct ps as [|p ps]; [discriminate|]. destruct qs as [|q qs]; [discriminate|].
  injection Ha as Ep _. injection Hd as Eq _.
  unfold bind at 1. rewrite Ep, Eq.
  rewrite (memcpy_past_destination _ _ _ _ _ (replicate (Z.to_nat n) None));
    [done| |].
  - by rewrite Hm1, bool_decide_eq_true_2 by left.
  - rewrite length_replicate. nia.
Qed.
End ParticleSetProperties.

(** ** Concrete runs on the sample set *)

Lemma sample_set_valid : ParticleSystem.valid sample_particles sample_set.
Proof.
  split; [cbn; lia|cbn; lia|].
  exists [1; 2; 3; 4; 5]%positive. split; [reflexivity|].
  split; [apply (bool_decide_unpack _); by vm_compute|].
  intros p Hp. repeat (apply elem_of_cons in Hp as [->|Hp]; [by eexists|]).
  by apply elem_of_nil in Hp.
Qed.

Lemma scaled_capacity_covers_witness :
  exists c, scaled_capacity 1000 = Some c /\ 1000 <= c < 2 ^ 32.
Proof. apply (scaled_capacity_covers 1000). lia. Defined.

Lemma ParticleSet_new_valid_witness :
  exists this m',
    ParticleSystem.ParticleSet_new 8 (∅ : gmap positive (list (option nat)))
      = ParticleSystem.Ok this m'
    /\ ParticleSystem.valid m' this.
Proof.
  destruct (ParticleSet_new_valid (elem := nat) 8 ∅) as (this & m' & E & Hv & _);
    [lia|].
  by exists this, m'.
Defined.

Lemma sample_empty_set_valid :
  ParticleSystem.valid sample_empty sample_empty_set.
Proof.
  split; [cbn; lia|cbn; lia|].
  exists [1; 2; 3; 4; 5]%positive. split; [reflexivity|].
  split; [apply (bool_decide_unpack _); by vm_compute|].
  intros p Hp. repeat (apply elem_of_cons in Hp as [->|Hp]; [by eexists|]).
  by apply elem_of_nil in Hp.
Qed.

(** Two more particles in a set of capacity 4 that has two. *)
Lemma allocParticles_keeps_particles_witness :
  exists this' m',
    ParticleSystem.allocParticles false 2 sample_set sample_particles
      = ParticleSystem.Ok (2, this') m'
    /\ ParticleSystem.mCount this' = 4
    /\ ParticleSystem.particle m' (ParticleSystem.mParticles this') 1
       = [Some (Some 11); Some (Some 21); Some (Some 31); Some (Some 41);
          Some (Some 51)]%nat.
Proof.
  destruct (allocParticles_keeps_particles false 2 sample_set sample_particles
              sample_set_valid) as (this' & m' & E & Hc & _ & Hk);
    [lia|cbn; lia|left; cbn; lia|].
  exists this', m'. split; [exact E|]. split; [exact Hc|].
  rewrite Hk by (cbn; lia). reflexivity.
Defined.

(** The first three particles of a set of capacity 0: new arrays; and
    four more particles in a set of capacity 4 that has two: the copy
    into the new arrays runs past the old colour array. *)
Lemma allocParticles_memory_witness :
  (exists this' m',
     ParticleSystem.allocParticles false 3 sample_empty_set sample_empty
       = ParticleSystem.Ok (0, this') m'
     /\ m' !! 1%positive = None)
  /\ ParticleSystem.allocParticles false 4 sample_set sample_particles
     = ParticleSystem.Undefined.
Proof.
  split.
  - destruct (allocParticles_memory false 3 sample_empty_set sample_empty
                sample_empty_set_valid) as (_ & Hg & _); [lia|cbn; lia|].
    destruct Hg as (this' & m' & E & Hold & _); [cbn; lia|reflexivity|].
    exists this', m'. split; [exact E|]. apply Hold. cbn. left.
  - destruct (allocParticles_memory false 4 sample_set sample_particles
                sample_set_valid) as (_ & _ & Hu); [lia|cbn; lia|].
    apply Hu; [cbn; lia|cbn; lia|reflexivity].
Defined.

(** The first of the two particles is removed: the second takes its
    place. *)
Lemma freeParticle_removes_witness :
  exists m',
    ParticleSystem.freeParticle false 0 sample_set sample_particles
      = ParticleSystem.Ok
          (ParticleSystem.PS (ParticleSystem.mParticles sample_set) 1) m'
    /\ ParticleSystem.particle m' (ParticleSystem.mParticles sample_set) 0
       = [Some (Some 11); Some (Some 21); Some (Some 31); Some (Some 41);
          Some (Some 51)]%nat.
Proof.
  destruct (freeParticle_removes false 0 sample_set sample_particles
              sample_set_valid) as (m' & E & _ & Hk & _); [cbn; lia|].
  exists m'. split; [exact E|].
  rewrite Hk by (cbn; lia). reflexivity.
Defined.

(** Two particles spawned in the free half of the sample set; three do
    not fit. *)
Lemma spawn_fills_new_particles_witness :
  (exists this' m',
     ParticleSystem.spawn false (fun i => (Z.to_nat i, Z.to_nat (i + 100)))
       sample_set 2 sample_particles
       = ParticleSystem.Ok this' m'
     /\ take 2 (ParticleSystem.particle m' (ParticleSystem.mParticles this') 3)
        = [Some (Some 3); Some (Some 103)]%nat)
  /\ ParticleSystem.spawn false (fun i => (Z.to_nat i, Z.to_nat (i + 100)))
       sample_set 3 sample_particles
     = ParticleSystem.Undefined.
Proof.
  split.
  - destruct (spawn_fills_new_particles false
                (fun i => (Z.to_nat i, Z.to_nat (i + 100))) sample_set 2
                sample_particles sample_set_valid) as [Hok _]; [lia|cbn; lia|].
    destruct Hok as (this' & m' & E & _ & _ & _ & Hn); [left; cbn; lia|].
    exists this', m'. split; [exact E|]. rewrite Hn by (cbn; lia). reflexivity.
  - destruct (spawn_fills_new_particles false
                (fun i => (Z.to_nat i, Z.to_nat (i + 100))) sample_set 3
                sample_particles sample_set_valid) as [_ Hu]; [lia|cbn; lia|].
    apply Hu; [cbn; lia|cbn; lia|reflexivity].
Defined.

Lemma allocParticles_freeParticle_witness :
  exists this1 m1 this2 m2,
    ParticleSystem.allocParticles false 1 sample_set sample_particles
      = ParticleSystem.Ok (2, this1) m1
    /\ ParticleSystem.freeParticle false 2 this1 m1 = ParticleSystem.Ok this2 m2
    /\ ParticleSystem.mCount this2 = 2.
Proof.
  destruct (allocParticles_freeParticle false sample_set sample_particles
              sample_set_valid) as (this1 & m1 & this2 & m2 & E1 & E2 & Hc & _);
    [cbn; lia|left; cbn; lia|].
  by exists this1, m1, this2, m2.
Defined.

Lemma move_assign_leaves_source_empty_witness :
  exists left m',
    ParticleSystem.move_assign (ParticleSystem.mParticles sample_set)
      (ParticleSystem.PSD 0 None None None None None) sample_particles
      = ParticleSystem.Ok (ParticleSystem.PSD 0 None None None None None, left) m'
    /\ m' !! 3%positive = None.
Proof.
  destruct (move_assign_leaves_source_empty
              (ParticleSystem.mParticles sample_set)
              (ParticleSystem.PSD 0 None None None None None) sample_particles
              [1; 2; 3; 4; 5]%positive eq_refl)
    as (left & m' & E & _ & _ & Hm & _).
  - apply (bool_decide_unpack _). by vm_compute.
  - intros p Hp. repeat (apply elem_of_cons in Hp as [->|Hp]; [by eexists|]).
    by apply elem_of_nil in Hp.
  - exists left, m'. split; [exact E|]. rewrite Hm. reflexivity.
Defined.

Lemma copy_needs_room_witness :
  ParticleSystem.ParticleSetData_new_from false 2
    (ParticleSystem.mParticles sample_set) sample_particles
  = ParticleSystem.AssertFailed.
Proof.
  apply (copy_needs_room false 2 (ParticleSystem.mParticles sample_set)
           sample_particles [1; 2; 3; 4; 5]%positive eq_refl).
  - intros p Hp. repeat (apply elem_of_cons in Hp as [->|Hp]; [by eexists|]).
    by apply elem_of_nil in Hp.
  - cbn. lia.
Defined.
